(** * Music animation generator: marble physics, audio analysis, effect engine

    A shallow embedding of the TypeScript sources

    - [MarblePhysics]   (marbles, xylophone keys, collisions, synthesizer calls),
    - [AudioAnalyzer]   (band levels, RMS volume, beat flag),
    - [AnimationEngine] (the id-indexed map of live effect objects),

    together with the properties of the specification that concern them.

    JavaScript numbers are IEEE 754 binary64 values; they are modelled by
    Rocq's primitive floats, which are exactly that format (one NaN, signed
    zeros, infinities, round-to-nearest-even).  [Math.random] and [Date.now]
    are oracles: functions from the number of earlier calls to the value
    returned, with the count kept in the state. *)

From Stdlib Require Import Floats ZArith Lia.
From stdpp Require Import gmap strings list.

Set Warnings "-inexact-float".

(** ** JavaScript numbers *)

Module JS.

Local Open Scope float_scope.

(** [Math.abs]. *)
Definition Math_abs (a : float) : float := abs a.

(** [Math.sqrt]. *)
Definition Math_sqrt (a : float) : float := sqrt a.

(** [Math.min(a, b)]: NaN if either argument is NaN; [-0] is below [+0]. *)
Definition Math_min (a b : float) : float :=
  if is_nan a || is_nan b then nan
  else if a <? b then a
  else if b <? a then b
  else if is_zero a && get_sign b then b else a.

(** [Math.max(a, b)]. *)
Definition Math_max (a b : float) : float :=
  if is_nan a || is_nan b then nan
  else if a <? b then b
  else if b <? a then a
  else if is_zero a && get_sign a then b else a.

(** A non-negative integer as a number (array lengths, loop counters);
    exact below 2^53. *)
Definition of_Z (n : Z) : float := of_uint63 (Uint63.of_Z n).

(** The integer part of [Math.floor a], for finite [a]. *)
Definition floorZ (a : float) : Z :=
  match Prim2SF a with
  | S754_finite s m e =>
      let v := if (0 <=? e)%Z then Z.shiftl (Z.pos m) e
               else Z.shiftr (Z.pos m) (- e) in
      if s then
        (if (0 <=? e)%Z then - v
         else if (Z.shiftl v (- e) =? Z.pos m)%Z then - v else - (v + 1))%Z
      else v
  | _ => 0%Z
  end.

(** [Math.floor]: zeros, infinities, NaN and values without a fractional
    part are returned unchanged. *)
Definition Math_floor (a : float) : float :=
  match Prim2SF a with
  | S754_finite s m e =>
      if (0 <=? e)%Z then a
      else if s then - of_Z (- floorZ a) else of_Z (floorZ a)
  | _ => a
  end.

(** The value stored by a write into a [Float32Array]: the nearest
    binary32 number (24-bit significand, exponents up to 128). *)
Definition fround (a : float) : float :=
  match Prim2SF a with
  | S754_finite s m e => SF2Prim (binary_round 24 128 s m e)
  | _ => a
  end.

(** [new Float32Array(n)] for a length [n]: zeros. *)
Definition Float32Array_new (n : nat) : list float := replicate n 0.

(** [a[i]] and [a[i] = v] on a [Float32Array] with a counter [i]: a read
    outside the array is [undefined] (NaN in arithmetic), a write outside
    the array is dropped. *)
Definition get (a : list float) (i : nat) : float := default nan (a !! i).
Definition put (a : list float) (i : nat) (v : float) : list float :=
  <[i := fround v]> a.

(** The platform copies [src] into the buffer [dst]: as many values as the
    buffer holds, the rest of the buffer is left as it was. *)
Definition copy_into (src dst : list float) : list float :=
  take (length dst) (map fround src) ++ drop (length src) dst.

(** [ToIntegerOrInfinity] of a finite number: rounding towards zero. *)
Definition truncZ (a : float) : Z :=
  if a <? 0 then (- floorZ (- a))%Z else floorZ a.

(** [new Float32Array(n)] for a number [n]: NaN counts as 0, the length is
    truncated, and a negative or too large length is a RangeError
    ([None]). *)
Definition Float32Array_of (n : float) : option (list float) :=
  if is_nan n then Some []
  else if is_infinity n then None
  else if (truncZ n <? 0)%Z || (2 ^ 53 - 1 <? truncZ n)%Z then None
  else Some (Float32Array_new (Z.to_nat (truncZ n))).

(** The number of rounds of [for (let i = 0; i < n; i++)] for a finite
    number [n]. *)
Definition rounds (n : float) : nat :=
  if 0 <? n then Z.to_nat (- floorZ (- n)) else 0%nat.

(** Truthiness of a number: [0], [-0] and NaN are falsy. *)
Definition truthy (a : float) : bool := negb (is_zero a || is_nan a).

(** [a || b] on numbers. *)
Definition or_else (a b : float) : float := if truthy a then a else b.

(** [a[i]] on a [Float32Array] read with an integer index: [undefined]
    outside the array, which [Math.abs] and the arithmetic operators turn
    into NaN. *)
Definition at_index (a : list float) (i : Z) : float :=
  if (i <? 0)%Z then nan else default nan (a !! Z.to_nat i).

(** [a.length] as a number. *)
Definition length_of {A} (a : list A) : float := of_Z (Z.of_nat (length a)).

(** *** Signs

    Predicates on the IEEE 754 value of a number.  [notNegative]: the value
    is not below zero (a zero of either sign, a positive number, plus
    infinity or NaN).  [zeroOrAbove]: in addition it is not NaN.
    [signPlus]: the sign bit is clear, or the value is NaN. *)
Definition notNegative (f : spec_float) : Prop :=
  match f with
  | S754_infinity true | S754_finite true _ _ => False
  | _ => True
  end.

Definition zeroOrAbove (f : spec_float) : Prop :=
  match f with
  | S754_infinity true | S754_finite true _ _ | S754_nan => False
  | _ => True
  end.

Definition signPlus (f : spec_float) : Prop :=
  match f with
  | S754_zero true | S754_infinity true | S754_finite true _ _ => False
  | _ => True
  end.

(** A number from 0 to 1: what a gain or a note velocity is meant to be. *)
Definition within01 (a : float) : Prop :=
  (0 <=? a) = true /\ (a <=? 1) = true.

(** Never below 0 and never above 1; NaN passes. *)
Definition notOutside01 (a : float) : Prop :=
  (a <? 0) = false /\ (1 <? a) = false.

(** [Math.max(0, Math.min(1, v))], the clamp of the two [setVolume]s. *)
Definition clamp01 (v : float) : float := Math_max 0 (Math_min 1 v).

(** *** binary32

    The [value] of an [AudioParam] is a WebIDL [float]: a binary32 number,
    kept here by its sign, mantissa and exponent.  An assignment converts
    the number assigned: NaN, an infinity and a number that rounds beyond
    the binary32 range are a TypeError ([None]); any other number is
    rounded to the nearest binary32 number, ties to even. *)
Definition to_float (a : float) : option spec_float :=
  match Prim2SF a with
  | S754_finite s m e =>
      match binary_round 24 128 s m e with
      | S754_finite s' m' e' => Some (S754_finite s' m' e')
      | S754_zero s' => Some (S754_zero s')
      | _ => None
      end
  | S754_zero s => Some (S754_zero s)
  | _ => None
  end.

(** The binary32 number 1, the gain of a new [GainNode]. *)
Definition one32 : spec_float := S754_finite false 8388608 (-23).

(** A binary32 number from 0 to 1. *)
Definition unit32 (g : spec_float) : Prop :=
  match g with
  | S754_zero _ => True
  | S754_finite false _ _ => SFleb g one32 = true
  | _ => False
  end.

End JS.

(** ** THREE.Vector3 *)

Module Vector3.

Local Open Scope float_scope.

Record t := mk { x : float; y : float; z : float }.

Definition add (a b : t) : t := mk (x a + x b) (y a + y b) (z a + z b).

Definition multiplyScalar (a : t) (s : float) : t :=
  mk (x a * s) (y a * s) (z a * s).

Definition with_x (a : t) (v : float) : t := mk v (y a) (z a).
Definition with_y (a : t) (v : float) : t := mk (x a) v (z a).
Definition with_z (a : t) (v : float) : t := mk (x a) (y a) v.

End Vector3.

(** ** MarblePhysics *)

Module MarblePhysics.

Local Open Scope float_scope.

Record MarbleState := mkMarble {
  position : Vector3.t;
  velocity : Vector3.t;
  acceleration : Vector3.t;
  radius : float;
  mass : float;
  bounceCount : nat;   (* starts at 0 and is only incremented *)
  isActive : bool }.

Record XylophoneKey := mkKey {
  key_position : Vector3.t;
  width : float;
  height : float;
  depth : float;
  note : string;
  frequency : float;
  color : Z;           (* the hex colour the key was built from *)
  isHit : bool;
  hitTime : Z }.       (* milliseconds, as returned by Date.now() *)

(** The part of a marble's THREE.Mesh that [update] writes. *)
Record Mesh := mkMesh {
  mesh_position : Vector3.t;
  rotation_x : float;
  rotation_z : float }.

(** The [audioData] argument of [update]. *)
Record AudioInput := mkAudioInput {
  frequencyData : list float;
  volume : float }.

(** The fields of the class.  [gravity], [friction] and [bounceDamping] are
    set once by the constructor and are constants below.  The synthesizer
    is represented by the list of [playNote(frequency, velocity)] calls made
    on it, oldest first; the particle bursts by the position arrays they
    were created with.  Scene-graph membership and the key meshes' scale
    and emissive colour are rendering state and are left out. *)
Record t := mk {
  marbles : list MarbleState;
  keys : list XylophoneKey;
  marbleMeshes : list Mesh;
  trailPoints : list Vector3.t;
  trailGeometry : list float;
  hitEffects : list (list float);
  synthCalls : list (float * float);
  randomCalls : nat;
  nowCalls : nat }.

Definition gravity : Vector3.t := Vector3.mk 0 (-9.8) 0.
Definition friction : float := 0.98.
Definition bounceDamping : float := 0.7.

(** *** Field updates *)

Definition with_position (m : MarbleState) (p : Vector3.t) : MarbleState :=
  mkMarble p (velocity m) (acceleration m) (radius m) (mass m) (bounceCount m) (isActive m).
Definition with_velocity (m : MarbleState) (v : Vector3.t) : MarbleState :=
  mkMarble (position m) v (acceleration m) (radius m) (mass m) (bounceCount m) (isActive m).
Definition with_acceleration (m : MarbleState) (a : Vector3.t) : MarbleState :=
  mkMarble (position m) (velocity m) a (radius m) (mass m) (bounceCount m) (isActive m).
Definition with_bounceCount (m : MarbleState) (n : nat) : MarbleState :=
  mkMarble (position m) (velocity m) (acceleration m) (radius m) (mass m) n (isActive m).
Definition with_isActive (m : MarbleState) (b : bool) : MarbleState :=
  mkMarble (position m) (velocity m) (acceleration m) (radius m) (mass m) (bounceCount m) b.

Definition with_hit (k : XylophoneKey) (b : bool) (time : Z) : XylophoneKey :=
  mkKey (key_position k) (width k) (height k) (depth k) (note k) (frequency k)
        (color k) b time.

Definition set_marbles (ms : list MarbleState) (st : t) : t :=
  mk ms (keys st) (marbleMeshes st) (trailPoints st) (trailGeometry st)
     (hitEffects st) (synthCalls st) (randomCalls st) (nowCalls st).
Definition set_keys (ks : list XylophoneKey) (st : t) : t :=
  mk (marbles st) ks (marbleMeshes st) (trailPoints st) (trailGeometry st)
     (hitEffects st) (synthCalls st) (randomCalls st) (nowCalls st).
Definition set_marbleMeshes (ms : list Mesh) (st : t) : t :=
  mk (marbles st) (keys st) ms (trailPoints st) (trailGeometry st)
     (hitEffects st) (synthCalls st) (randomCalls st) (nowCalls st).
Definition set_trailPoints (ps : list Vector3.t) (st : t) : t :=
  mk (marbles st) (keys st) (marbleMeshes st) ps (trailGeometry st)
     (hitEffects st) (synthCalls st) (randomCalls st) (nowCalls st).
Definition set_trailGeometry (g : list float) (st : t) : t :=
  mk (marbles st) (keys st) (marbleMeshes st) (trailPoints st) g
     (hitEffects st) (synthCalls st) (randomCalls st) (nowCalls st).
Definition set_hitEffects (h : list (list float)) (st : t) : t :=
  mk (marbles st) (keys st) (marbleMeshes st) (trailPoints st) (trailGeometry st)
     h (synthCalls st) (randomCalls st) (nowCalls st).
Definition set_synthCalls (c : list (float * float)) (st : t) : t :=
  mk (marbles st) (keys st) (marbleMeshes st) (trailPoints st) (trailGeometry st)
     (hitEffects st) c (randomCalls st) (nowCalls st).
Definition set_randomCalls (n : nat) (st : t) : t :=
  mk (marbles st) (keys st) (marbleMeshes st) (trailPoints st) (trailGeometry st)
     (hitEffects st) (synthCalls st) n (nowCalls st).
Definition set_nowCalls (n : nat) (st : t) : t :=
  mk (marbles st) (keys st) (marbleMeshes st) (trailPoints st) (trailGeometry st)
     (hitEffects st) (synthCalls st) (randomCalls st) n.

(** A marble or key is a shared object: the loops hold a reference to an
    element of [this.marbles] or [this.keys] and mutate it in place, so the
    model addresses them by index in the state. *)
Definition modifyMarble (i : nat) (f : MarbleState -> MarbleState) (st : t) : t :=
  set_marbles (alter f i (marbles st)) st.
Definition modifyKey (i : nat) (f : XylophoneKey -> XylophoneKey) (st : t) : t :=
  set_keys (alter f i (keys st)) st.
Definition modifyMesh (i : nat) (f : Mesh -> Mesh) (st : t) : t :=
  set_marbleMeshes (alter f i (marbleMeshes st)) st.

(** [for (let i = n - 1; i >= 0; i--) body(i)]. *)
Fixpoint countdown {S : Type} (n : nat) (body : nat -> S -> S) (st : S) : S :=
  match n with
  | O => st
  | Datatypes.S i => countdown i body (body i st)
  end.

(** [for (let i = 0; i < n; i++) body(i)]. *)
Definition countup {S : Type} (n : nat) (body : nat -> S -> S) (st : S) : S :=
  fold_left (fun s i => body i s) (seq 0 n) st.

(** *** setupXylophoneKeys *)

Definition notes : list string := ["C"; "D"; "E"; "F"; "G"; "A"; "B"]%string.
Definition frequencies : list float :=
  [261.63; 293.66; 329.63; 349.23; 392.00; 440.00; 493.88].
Definition colors : list Z :=
  [0xff6b6b; 0xffa726; 0xffeb3b; 0x4caf50; 0x2196f3; 0x9c27b0; 0xe91e63]%Z.

Definition makeKey (i : nat) : XylophoneKey :=
  mkKey (Vector3.mk (JS.of_Z (Z.of_nat i) * 2 - 6) 0 0) 1.5 0.3 0.8
        (default EmptyString (notes !! i)) (default nan (frequencies !! i))
        (default 0%Z (colors !! i)) false 0.

Definition setupXylophoneKeys (st : t) : t :=
  countup (length notes) (fun i s => set_keys (keys s ++ [makeKey i]) s) st.

(** The constructor: no marbles, the seven keys, an empty trail. *)
Definition new : t :=
  setupXylophoneKeys (mk [] [] [] [] [] [] [] 0 0).

(** *** getFrequencyLevel *)

(** [sum] after the loop [for (i = startIndex; i < endIndex; i++)
    sum += Math.abs(frequencyData[i])]; the counter takes integer values. *)
Definition sumAbs (data : list float) (startIndex endIndex : Z) : float :=
  fold_left (fun sum i => sum + JS.Math_abs (JS.at_index data i))
            (seqZ startIndex (endIndex - startIndex)) 0.

Definition getFrequencyLevel (frequencyData : list float)
    (startPercent endPercent : float) : float :=
  let length := JS.length_of frequencyData in
  let startIndex := JS.Math_floor ((startPercent / 100) * length) in
  let endIndex := JS.Math_floor ((endPercent / 100) * length) in
  let sum := sumAbs frequencyData (JS.floorZ startIndex) (JS.floorZ endIndex) in
  sum / (endIndex - startIndex).

Section WithOracles.

(** [Math_random n] is the value of the [n]-th call of [Math.random()],
    [Date_now n] that of the [n]-th call of [Date.now()]. *)
Variable Math_random : nat -> float.
Variable Date_now : nat -> Z.

(** *** createMarble *)

Definition createMarbleMesh (marble : MarbleState) (st : t) : t :=
  set_marbleMeshes (marbleMeshes st ++ [mkMesh (position marble) 0 0]) st.

Definition createMarble (startHeight : float) (st : t) : t :=
  let r1 := Math_random (randomCalls st) in
  let r2 := Math_random (Datatypes.S (randomCalls st)) in
  let st := set_randomCalls (2 + randomCalls st) st in
  let marble :=
    mkMarble (Vector3.mk ((r1 - 0.5) * 2) startHeight 0)
             (Vector3.mk ((r2 - 0.5) * 2) 0 0)
             (Vector3.mk 0 0 0) 0.3 1 0 true in
  createMarbleMesh marble (set_marbles (marbles st ++ [marble]) st).

(** *** applyAudioInfluence *)

Definition applyAudioInfluence (i : nat) (audioData : AudioInput) (st : t) : t :=
  let bassLevel := getFrequencyLevel (frequencyData audioData) 0 10 in
  let midLevel := getFrequencyLevel (frequencyData audioData) 10 50 in
  let trebleLevel := getFrequencyLevel (frequencyData audioData) 50 100 in
  let r1 := Math_random (randomCalls st) in
  let st := set_randomCalls (Datatypes.S (randomCalls st)) st in
  let st := modifyMarble i (fun m => with_velocity m
              (Vector3.with_x (velocity m)
                 (Vector3.x (velocity m) + (r1 - 0.5) * bassLevel * 0.1))) st in
  let st := if 0.3 <? midLevel
            then modifyMarble i (fun m => with_velocity m
                   (Vector3.with_y (velocity m)
                      (Vector3.y (velocity m) + midLevel * 0.5))) st
            else st in
  let r2 := Math_random (randomCalls st) in
  let st := set_randomCalls (Datatypes.S (randomCalls st)) st in
  modifyMarble i (fun m => with_velocity m
    (Vector3.with_z (velocity m)
       (Vector3.z (velocity m) + (r2 - 0.5) * trebleLevel * 0.05))) st.

(** *** createHitEffect *)

(** The position array of the burst: 20 particles, three draws each. *)
Definition hitPositions (position : Vector3.t) (first : nat) : list float :=
  flat_map (fun i =>
    [JS.fround (Vector3.x position + (Math_random (first + 3 * i) - 0.5) * 2);
     JS.fround (Vector3.y position + (Math_random (first + 3 * i + 1) - 0.5) * 2);
     JS.fround (Vector3.z position + (Math_random (first + 3 * i + 2) - 0.5) * 2)])
    (seq 0 20).

Definition createHitEffect (position : Vector3.t) (st : t) : t :=
  let particles := hitPositions position (randomCalls st) in
  set_hitEffects (hitEffects st ++ [particles])
    (set_randomCalls (60 + randomCalls st) st).

(** *** playNote *)

(** [Math.min(1.0, Math.abs(this.marbles[this.marbles.length - 1]?.velocity.y || 0) / 10)] *)
Definition noteVelocity (marbles : list MarbleState) : float :=
  let vy := match last marbles with
            | Some m => JS.or_else (Vector3.y (velocity m)) 0
            | None => 0
            end in
  JS.Math_min 1.0 (JS.Math_abs vy / 10).

Definition playNote (frequency : float) (st : t) : t :=
  let velocity := noteVelocity (marbles st) in
  set_synthCalls (synthCalls st ++ [(frequency, velocity)]) st.

(** *** handleKeyCollision *)

Definition bounce (key : XylophoneKey) (m : MarbleState) : MarbleState :=
  let m := with_velocity m
             (Vector3.with_y (velocity m)
                (JS.Math_abs (Vector3.y (velocity m)) * bounceDamping)) in
  with_position m
    (Vector3.with_y (position m)
       (Vector3.y (key_position key) + height key / 2 + radius m)).

Definition handleKeyCollision (i : nat) (keyIndex : nat) (st : t) : t :=
  match keys st !! keyIndex with
  | None => st
  | Some key =>
      let st := modifyMarble i (bounce key) st in
      let r := Math_random (randomCalls st) in
      let st := set_randomCalls (Datatypes.S (randomCalls st)) st in
      let st := modifyMarble i (fun m => with_velocity m
                  (Vector3.with_x (velocity m)
                     (Vector3.x (velocity m) + (r - 0.5) * 2))) st in
      let now := Date_now (nowCalls st) in
      let st := set_nowCalls (Datatypes.S (nowCalls st)) st in
      let st := modifyKey keyIndex (fun k => with_hit k true now) st in
      let st := createHitEffect (key_position key) st in
      let st := playNote (frequency key) st in
      modifyMarble i (fun m => with_bounceCount m (Datatypes.S (bounceCount m))) st
  end.

(** *** checkKeyCollisions *)

(** The condition of the [if] in [checkKeyCollisions]. *)
Definition collides (marble : MarbleState) (key : XylophoneKey) : bool :=
  let px := Vector3.x (position marble) in
  let py := Vector3.y (position marble) in
  let kx := Vector3.x (key_position key) in
  let ky := Vector3.y (key_position key) in
  (kx - width key / 2 <=? px) &&
  (px <=? kx + width key / 2) &&
  (py <=? ky + height key / 2 + radius marble) &&
  (ky - height key / 2 - radius marble <=? py).

Definition checkKey (i : nat) (keyIndex : nat) (st : t) : t :=
  match marbles st !! i, keys st !! keyIndex with
  | Some marble, Some key =>
      if collides marble key then handleKeyCollision i keyIndex st else st
  | _, _ => st
  end.

Definition checkKeyCollisions (i : nat) (st : t) : t :=
  countup (length (keys st)) (checkKey i) st.

(** *** update *)

(** [velocity.add(acceleration.clone().multiplyScalar(deltaTime));
     velocity.multiplyScalar(friction);
     position.add(velocity.clone().multiplyScalar(deltaTime))] *)
Definition integrate (deltaTime : float) (m : MarbleState) : MarbleState :=
  let m := with_velocity m
             (Vector3.add (velocity m)
                (Vector3.multiplyScalar (acceleration m) deltaTime)) in
  let m := with_velocity m (Vector3.multiplyScalar (velocity m) friction) in
  with_position m
    (Vector3.add (position m) (Vector3.multiplyScalar (velocity m) deltaTime)).

(** The marble's mesh follows it and rolls with its velocity. *)
Definition moveMesh (deltaTime : float) (marble : MarbleState) (mesh : Mesh) : Mesh :=
  mkMesh (position marble)
         (rotation_x mesh + Vector3.y (velocity marble) * deltaTime * 0.5)
         (rotation_z mesh + Vector3.x (velocity marble) * deltaTime * 0.5).

(** [trailPoints.push(p); if (trailPoints.length > 100) trailPoints.shift()] *)
Definition pushTrail (p : Vector3.t) (st : t) : t :=
  let ps := trailPoints st ++ [p] in
  set_trailPoints (if (100 <? length ps)%nat then drop 1 ps else ps) st.

(** [marble.isActive = false; marbleMeshes.splice(i, 1); marbles.splice(i, 1)] *)
Definition retire (i : nat) (st : t) : t :=
  let st := modifyMarble i (fun m => with_isActive m false) st in
  let st := set_marbleMeshes (delete i (marbleMeshes st)) st in
  set_marbles (delete i (marbles st)) st.

(** The gravity, audio and integration statements of the loop body: the
    state in which marble [i] arrives at the collision test. *)
Definition arrive (deltaTime : float) (audioData : option AudioInput)
    (i : nat) (st : t) : t :=
  let st := modifyMarble i (fun m => with_acceleration m gravity) st in
  let st := match audioData with
            | Some a => applyAudioInfluence i a st
            | None => st
            end in
  modifyMarble i (integrate deltaTime) st.

(** The body of the loop over [this.marbles]. *)
Definition updateMarble (deltaTime : float) (audioData : option AudioInput)
    (i : nat) (st : t) : t :=
  match marbles st !! i with
  | None => st
  | Some marble0 =>
      if negb (isActive marble0) then st
      else
        let st := arrive deltaTime audioData i st in
        let st := checkKeyCollisions i st in
        match marbles st !! i with
        | None => st
        | Some marble =>
            let st := modifyMesh i (moveMesh deltaTime marble) st in
            let st := pushTrail (position marble) st in
            if Vector3.y (position marble) <? -10 then retire i st else st
        end
  end.

Definition updateTrail (st : t) : t :=
  if (1 <? length (trailPoints st))%nat
  then set_trailGeometry
         (flat_map (fun p => [JS.fround (Vector3.x p); JS.fround (Vector3.y p);
                              JS.fround (Vector3.z p)])
                   (trailPoints st)) st
  else st.

(** A hit key stops glowing once more than 500 ms have passed. *)
Definition animateKey (i : nat) (st : t) : t :=
  match keys st !! i with
  | Some key =>
      if isHit key then
        let timeSinceHit := (Date_now (nowCalls st) - hitTime key)%Z in
        let st := set_nowCalls (Datatypes.S (nowCalls st)) st in
        if (500 <? timeSinceHit)%Z
        then modifyKey i (fun k => with_hit k false (hitTime k)) st
        else st
      else st
  | None => st
  end.

Definition updateKeyAnimations (st : t) : t :=
  countup (length (keys st)) animateKey st.

Definition update (deltaTime : float) (audioData : option AudioInput) (st : t) : t :=
  let st := countdown (length (marbles st)) (updateMarble deltaTime audioData) st in
  let st := updateTrail st in
  updateKeyAnimations st.

(** *** spawnMarbleFromAudio, clearMarbles *)

Definition spawnMarbleFromAudio (volume bassLevel : float) (st : t) : t :=
  if (0.1 <? volume) && (0.1 <? bassLevel)
  then createMarble (8 + bassLevel * 5) st
  else st.

Definition clearMarbles (st : t) : t :=
  set_trailPoints [] (set_marbleMeshes [] (set_marbles [] st)).

Definition createTestMarble (st : t) : t := createMarble 10 st.

End WithOracles.

(** *** Pure descriptions of one marble's step

    The functions above thread the whole state; what they do to the marble
    itself is a function of the marble and of the random draws. *)

(** [applyAudioInfluence] on the marble, for the draws [r1] and [r2]. *)
Definition influenced (frequencyData : list float) (r1 r2 : float)
    (m : MarbleState) : MarbleState :=
  let bassLevel := getFrequencyLevel frequencyData 0 10 in
  let midLevel := getFrequencyLevel frequencyData 10 50 in
  let trebleLevel := getFrequencyLevel frequencyData 50 100 in
  let m := with_velocity m
             (Vector3.with_x (velocity m)
                (Vector3.x (velocity m) + (r1 - 0.5) * bassLevel * 0.1)) in
  let m := if 0.3 <? midLevel
           then with_velocity m
                  (Vector3.with_y (velocity m)
                     (Vector3.y (velocity m) + midLevel * 0.5))
           else m in
  with_velocity m
    (Vector3.with_z (velocity m)
       (Vector3.z (velocity m) + (r2 - 0.5) * trebleLevel * 0.05)).

(** The marble as it arrives at the collision test of a step. *)
Definition arrival (deltaTime : float) (audioData : option AudioInput)
    (r1 r2 : float) (m : MarbleState) : MarbleState :=
  let m := with_acceleration m gravity in
  let m := match audioData with
           | Some a => influenced (frequencyData a) r1 r2 m
           | None => m
           end in
  integrate deltaTime m.

(** The marble after [handleKeyCollision] up to the call of [playNote],
    and after it; [r] is the random draw. *)
Definition nudged (key : XylophoneKey) (r : float) (m : MarbleState) : MarbleState :=
  let m := bounce key m in
  with_velocity m
    (Vector3.with_x (velocity m) (Vector3.x (velocity m) + (r - 0.5) * 2)).

Definition struck (key : XylophoneKey) (r : float) (m : MarbleState) : MarbleState :=
  let m := nudged key r m in
  with_bounceCount m (S (bounceCount m)).

(** [position.y < -10], the retirement test. *)
Definition belowFloor (m : MarbleState) : bool :=
  Vector3.y (position m) <? -10.

(** *** States the public methods can produce

    The keys are those of the constructor, up to their [isHit] and
    [hitTime]; every marble was made by [createMarble] (radius 0.3) and is
    active, since a retired marble leaves the array in the step that
    retires it. *)
Definition geometry (k : XylophoneKey) : Vector3.t * float * float * float :=
  (key_position k, width k, height k, frequency k).

Definition keyboard (ks : list XylophoneKey) : Prop :=
  map geometry ks = map geometry (keys new).

Definition marble_ok (m : MarbleState) : Prop :=
  radius m = 0.3 /\ isActive m = true.

Definition inv (st : t) : Prop :=
  keyboard (keys st) /\ Forall marble_ok (marbles st).

(** *** Counting retirements

    [retirements n st]: how many of the marbles [n - 1], ..., [0] arrive
    below the floor in their round of the loop of [update] started in
    [st]. *)
Section Retirements.

Variable Math_random : nat -> float.
Variable Date_now : nat -> Z.

Definition arrivesBelow (deltaTime : float) (audioData : option AudioInput)
    (i : nat) (st : t) : bool :=
  match marbles st !! i with
  | Some m0 =>
      belowFloor (arrival deltaTime audioData (Math_random (randomCalls st))
                    (Math_random (S (randomCalls st))) m0)
  | None => false
  end.

Fixpoint retirements (deltaTime : float) (audioData : option AudioInput)
    (n : nat) (st : t) : nat :=
  match n with
  | O => O
  | S i =>
      ((if arrivesBelow deltaTime audioData i st then 1 else 0)
       + retirements deltaTime audioData i
           (updateMarble Math_random Date_now deltaTime audioData i st))%nat
  end.

End Retirements.

(** *** Free fall

    [fall dt n m]: the marble after [n] steps of gravity alone.
    [clearPath dt n m]: on none of these steps does it arrive over a key or
    below the floor. *)
Definition fall (deltaTime : float) (n : nat) (m : MarbleState) : MarbleState :=
  Nat.iter n (arrival deltaTime None 0 0) m.

Fixpoint clearPath (deltaTime : float) (n : nat) (m : MarbleState) : bool :=
  match n with
  | O => true
  | S n' =>
      let m' := arrival deltaTime None 0 0 m in
      forallb (fun key => negb (collides m' key)) (keys new)
      && negb (belowFloor m')
      && clearPath deltaTime n' m'
  end.

(** The vertical velocity after [n] steps of the recurrence
    [v' = (v + (-9.8) * dt) * 0.98]. *)
Definition fallVelocity (deltaTime : float) (n : nat) (v : float) : float :=
  Nat.iter n (fun v => (v + -9.8 * deltaTime) * 0.98) v.

(** The closed form the specification gives for the vertical velocity
    after [n] steps of gravity alone from rest, [t = n * dt] being the time
    integrated: [-9.8 * t * 0.98^n]. *)
Definition spec_closedForm (deltaTime : float) (n : nat) : float :=
  let t := JS.of_Z (Z.of_nat n) * deltaTime in
  -9.8 * t * Nat.iter n (fun p => p * 0.98) 1.

(** The velocity the specification gives for the note of a marble that
    arrives with vertical velocity [v]: [min(1, |v| / 10)]. *)
Definition spec_noteVelocity (v : float) : float :=
  JS.Math_min 1 (JS.Math_abs v / 10).

(** The keys' extents on the X axis, as the collision test computes them. *)
Definition xlo (k : nat) : float :=
  Vector3.x (key_position (makeKey k)) - width (makeKey k) / 2.
Definition xhi (k : nat) : float :=
  Vector3.x (key_position (makeKey k)) + width (makeKey k) / 2.

(** *** The collision test as the specification words it

    The marble's extent, centre plus and minus radius on both axes,
    overlaps the key's footprint. *)
Definition spec_extentOverlaps (marble : MarbleState) (key : XylophoneKey) : bool :=
  let px := Vector3.x (position marble) in
  let py := Vector3.y (position marble) in
  let kx := Vector3.x (key_position key) in
  let ky := Vector3.y (key_position key) in
  let r := radius marble in
  (px - r <=? kx + width key / 2) &&
  (kx - width key / 2 <=? px + r) &&
  (py - r <=? ky + height key / 2) &&
  (ky - height key / 2 <=? py + r).

(** *** dispose

    [dispose] clears the marbles; removing the key meshes and the trail
    from the scene and closing the synthesizer are outside this state. *)
Definition dispose (st : t) : t := clearMarbles st.

(** *** The states an instance goes through

    [Reachable]: what the constructor and the public methods produce. *)
Section Reachable.

Variable Math_random : nat -> float.
Variable Date_now : nat -> Z.

Inductive Reachable : t -> Prop :=
| reach_new : Reachable new
| reach_createMarble startHeight st :
    Reachable st -> Reachable (createMarble Math_random startHeight st)
| reach_update deltaTime audioData st :
    Reachable st -> Reachable (update Math_random Date_now deltaTime audioData st)
| reach_spawnMarbleFromAudio volume bassLevel st :
    Reachable st ->
    Reachable (spawnMarbleFromAudio Math_random volume bassLevel st)
| reach_clearMarbles st : Reachable st -> Reachable (clearMarbles st)
| reach_createTestMarble st :
    Reachable st -> Reachable (createTestMarble Math_random st)
| reach_dispose st : Reachable st -> Reachable (dispose st).

(** The clock reading [updateKeyAnimations] takes for key [i], and whether
    it releases the key: [Date.now()] is called for lit keys only, so the
    reading is the one after those taken for the lit keys before [i]. *)
Definition readingFor (st : t) (i : nat) : Z :=
  Date_now (nowCalls st + length (List.filter isHit (take i (keys st)))).

Definition released (st : t) (i : nat) (key : XylophoneKey) : bool :=
  isHit key && (500 <? readingFor st i - hitTime key)%Z.

(** Key [i] after [updateKeyAnimations]. *)
Definition afterAnimation (st : t) (i : nat) (key : XylophoneKey) : XylophoneKey :=
  if released st i key then with_hit key false (hitTime key) else key.

End Reachable.

(** The trail after [trailPoints.push(p)] and the [shift] that keeps it at
    100 points. *)
Definition pushed (ps : list Vector3.t) (p : Vector3.t) : list Vector3.t :=
  if (100 <? length (ps ++ [p]))%nat then drop 1 (ps ++ [p]) else ps ++ [p].

(** The last [n] elements of a list. *)
Definition keepLast {A} (n : nat) (l : list A) : list A :=
  drop (length l - n) l.

(** What the round of a marble in the loop of [update] makes of it: the
    marble as it arrives at the collision test, for some two random draws,
    or that marble struck by a key it arrives over. *)
Definition roundOf (deltaTime : float) (audioData : option AudioInput)
    (m0 m' : MarbleState) : Prop :=
  exists r1 r2,
    m' = arrival deltaTime audioData r1 r2 m0 \/
    exists key r,
      collides (arrival deltaTime audioData r1 r2 m0) key = true /\
      m' = struck key r (arrival deltaTime audioData r1 r2 m0).

(** The marble is not below the floor at the end of its round: it stays in
    the array. *)
Definition stays (m : MarbleState) : bool := negb (belowFloor m).

(** The meshes after the loop, from the marbles as their rounds left them
    and the meshes before: the mesh of a marble that stays has moved with
    it, the mesh of a marble that is retired is gone. *)
Definition ownMeshes (deltaTime : float) (fates : list MarbleState)
    (meshes : list Mesh) : list Mesh :=
  map (fun pair => moveMesh deltaTime (fst pair) (snd pair))
      (List.filter (fun pair => stays (fst pair)) (zip fates meshes)).

(** Every marble has its mesh. *)
Definition aligned (st : t) : Prop :=
  length (marbleMeshes st) = length (marbles st).

(** Every mesh is where its marble is. *)
Definition meshesFollow (st : t) : Prop :=
  map mesh_position (marbleMeshes st) = map position (marbles st).

(** A call of the synthesizer with the frequency of one of the seven keys
    and a velocity from 0 to 1. *)
Definition noteOk (call : float * float) : Prop :=
  fst call ∈ frequencies /\ JS.within01 (snd call).

(** The facts that every public method keeps: the keyboard and the marbles
    are as [inv] says, every marble has its mesh where it is, the trail
    holds at most 100 points, and every note came with its burst of 20
    particles. *)
Definition wellFormed (st : t) : Prop :=
  inv st /\ aligned st /\ meshesFollow st /\
  (length (trailPoints st) <= 100)%nat /\
  length (hitEffects st) = length (synthCalls st) /\
  Forall noteOk (synthCalls st) /\
  Forall (fun b => length b = 60%nat) (hitEffects st).

(** What holds when the rounds [n - 1], ..., [i] of the loop of [update]
    started in [st] are done and the state is [s]: the marbles below [i]
    are still to come, the trail has grown by one point a round, the meshes
    from [i] on are where their marbles are, and the notes played so far
    are at most one a round, each with its burst of 20 particles. *)
Definition duringLoop (n : nat) (st : t) (i : nat) (s : t) : Prop :=
  inv s /\ (i <= length (marbles s))%nat /\
  (length (trailPoints st) <= 100 ->
   length (trailPoints s) = Nat.min 100 (length (trailPoints st) + (n - i)))%nat /\
  (aligned st ->
   aligned s /\
   map mesh_position (drop i (marbleMeshes s)) = map position (drop i (marbles s))) /\
  exists notes bursts,
    synthCalls s = synthCalls st ++ notes /\
    hitEffects s = hitEffects st ++ bursts /\
    length notes = length bursts /\ (length notes <= n - i)%nat /\
    Forall noteOk notes /\ Forall (fun b => length b = 60%nat) bursts.

End MarblePhysics.


(** ** Shared types *)

Module Types.

Record AudioData := mkAudioData {
  frequencyData : list float;
  timeDomainData : list float;
  bassLevel : float;
  midLevel : float;
  trebleLevel : float;
  volume : float;
  beat : bool }.

Record AnimationEffect := mkEffect {
  id : string;
  name : string;
  type : string;   (* 'marble' | 'wave' | 'particle' | 'geometric' | 'fluid' | 'neural' *)
  intensity : float;
  color : string;
  speed : float;
  size : float }.

End Types.

(** ** AudioAnalyzer *)

Module AudioAnalyzer.

Local Open Scope float_scope.

(** The fields of the class.  A node of the audio graph is represented by
    whether the field holds one; the gain node by its gain value, a
    binary32 number; the buffer source by the duration of its buffer. *)
Record t := mk {
  audioContext : bool;
  analyser : bool;
  frequencyData : option (list float);
  timeDomainData : option (list float);
  source : option float;
  gainNode : option spec_float;
  isPlaying : bool;
  animationId : option nat }.

(** How far the [try] block of [initAudioContext] gets on this platform
    before a call throws. *)
Inductive InitOutcome :=
| ContextFails      (* new AudioContext() throws *)
| AnalyserFails     (* createAnalyser() throws *)
| GainFails         (* createGain() throws *)
| ConnectFails      (* wiring the nodes throws *)
| Initialised.

Definition fftSize : nat := 2048.

(** [analyser.frequencyBinCount] is half the FFT size. *)
Definition frequencyBinCount : nat := fftSize / 2.

Definition initAudioContext (outcome : InitOutcome) (a : t) : t :=
  match outcome with
  | ContextFails => a
  | AnalyserFails =>
      mk true (analyser a) (frequencyData a) (timeDomainData a) (source a)
         (gainNode a) (isPlaying a) (animationId a)
  | GainFails =>
      mk true true (frequencyData a) (timeDomainData a) (source a)
         (gainNode a) (isPlaying a) (animationId a)
  | ConnectFails =>
      mk true true (frequencyData a) (timeDomainData a) (source a)
         (Some JS.one32) (isPlaying a) (animationId a)
  | Initialised =>
      let bufferLength := frequencyBinCount in
      mk true true (Some (JS.Float32Array_new bufferLength))
         (Some (JS.Float32Array_new bufferLength)) (source a)
         (Some JS.one32) (isPlaying a) (animationId a)
  end.

(** The constructor. *)
Definition new (outcome : InitOutcome) : t :=
  initAudioContext outcome (mk false false None None None None false None).

(** [if (this.animationId) { cancelAnimationFrame(this.animationId);
     this.animationId = null }]: the id 0 is falsy, and stays. *)
Definition stopAnalysis (a : t) : t :=
  match animationId a with
  | Some (S _) =>
      mk (audioContext a) (analyser a) (frequencyData a) (timeDomainData a)
         (source a) (gainNode a) (isPlaying a) None
  | _ => a
  end.

(** [stop]: a failing [source.stop()] is caught and logged. *)
Definition stop (a : t) : t :=
  stopAnalysis
    (mk (audioContext a) (analyser a) (frequencyData a) (timeDomainData a)
        None (gainNode a) false (animationId a)).

Definition pause (a : t) : t :=
  match source a with
  | Some _ =>
      if isPlaying a
      then stopAnalysis
             (mk (audioContext a) (analyser a) (frequencyData a)
                 (timeDomainData a) (source a) (gainNode a) false (animationId a))
      else a
  | None => a
  end.

(** [setVolume]: the assignment to [gain.value] throws when the clamped
    volume is not a finite number.  The boolean tells whether the call
    returns normally. *)
Definition setVolume (volume : float) (a : t) : t * bool :=
  match gainNode a with
  | Some _ =>
      match JS.to_float (JS.Math_max 0 (JS.Math_min 1 volume)) with
      | Some gain =>
          (mk (audioContext a) (analyser a) (frequencyData a) (timeDomainData a)
              (source a) (Some gain) (isPlaying a) (animationId a), true)
      | None => (a, false)
      end
  | None => (a, true)
  end.

(** One run of the [analyze] callback: the analyser node copies the current
    spectrum and waveform into the two buffers (as many values as the
    buffer holds) and the next frame is requested.  [None]: the call throws
    because a buffer is [null]. *)
Definition analyze (spectrum waveform : list float) (frame : nat) (a : t)
    : option t :=
  if negb (isPlaying a) || negb (analyser a) then Some a
  else
    match frequencyData a, timeDomainData a with
    | Some f, Some w =>
        Some (mk (audioContext a) (analyser a)
                 (Some (JS.copy_into spectrum f))
                 (Some (JS.copy_into waveform w))
                 (source a) (gainNode a) (isPlaying a) (Some frame))
    | _, _ => None
    end.

(** [play]: [startThrows] tells whether [source.start()] throws.  The first
    [analyze] runs synchronously inside [startAnalysis]; when it throws in
    the [try] block the [catch] block runs it again.  The boolean tells
    whether [play] returns normally. *)
Definition play (startThrows : bool) (spectrum waveform : list float)
    (frame : nat) (a : t) : t * bool :=
  match source a with
  | None => (a, true)
  | Some _ =>
      if negb (audioContext a) then (a, true)
      else
        let playing :=
          mk (audioContext a) (analyser a) (frequencyData a) (timeDomainData a)
             (source a) (gainNode a) true (animationId a) in
        let startAnalysis :=
          match analyze spectrum waveform frame playing with
          | Some a' => (a', true)
          | None => (playing, false)
          end in
        if startThrows then startAnalysis
        else
          match analyze spectrum waveform frame playing with
          | Some a' => (a', true)
          | None => startAnalysis
          end
  end.

(** [loadAudioFile]: [reinit] is the outcome of the second
    [initAudioContext], run only when there is no context yet; [decoded] is
    the duration of the decoded buffer, or [None] when reading or decoding
    the file fails.  The boolean tells whether the promise resolves. *)
Definition loadAudioFile (reinit : InitOutcome) (decoded : option float)
    (a : t) : t * bool :=
  let a := if audioContext a then a else initAudioContext reinit a in
  if negb (audioContext a) then (a, false)
  else
    match decoded with
    | None => (a, false)
    | Some duration =>
        let a := stop a in
        let a := mk (audioContext a) (analyser a) (frequencyData a)
                    (timeDomainData a) (Some duration) (gainNode a)
                    (isPlaying a) (animationId a) in
        match gainNode a with
        | Some _ => (a, true)
        | None => (a, false)    (* source.connect(null) throws *)
        end
    end.

(** *** getAudioData *)

Definition sumAbs (data : list float) (startIndex endIndex : Z) : float :=
  fold_left (fun sum i => sum + JS.Math_abs (JS.at_index data i))
            (seqZ startIndex (endIndex - startIndex)) 0.

Definition calculateFrequencyBand (data : list float) (start end_ : float) : float :=
  let length := JS.length_of data in
  let startIndex := JS.Math_floor ((start / 100) * length) in
  let endIndex := JS.Math_floor ((end_ / 100) * length) in
  let sum := sumAbs data (JS.floorZ startIndex) (JS.floorZ endIndex) in
  sum / (endIndex - startIndex).

Definition calculateRMS (data : list float) : float :=
  let sum := fold_left (fun sum d => sum + d * d) data 0 in
  JS.Math_sqrt (sum / JS.length_of data).

Definition detectBeat (volume : float) : bool :=
  let threshold := 0.3 in
  threshold <? volume.

Definition getAudioData (a : t) : Types.AudioData :=
  match frequencyData a, timeDomainData a with
  | Some frequencyData, Some timeDomainData =>
      let bassLevel := calculateFrequencyBand frequencyData 0 10 in
      let midLevel := calculateFrequencyBand frequencyData 10 50 in
      let trebleLevel := calculateFrequencyBand frequencyData 50 100 in
      let volume := calculateRMS timeDomainData in
      let beat := detectBeat volume in
      Types.mkAudioData frequencyData timeDomainData bassLevel midLevel
                        trebleLevel volume beat
  | _, _ =>
      Types.mkAudioData (JS.Float32Array_new 0) (JS.Float32Array_new 0)
                        0 0 0 0 false
  end.

(** *** States in which no audio has been loaded

    What the constructor and the public methods produce as long as no
    [loadAudioFile] has resolved. *)
Inductive NoAudioLoaded : t -> Prop :=
| constructed outcome : NoAudioLoaded (new outcome)
| after_setVolume volume a :
    NoAudioLoaded a -> NoAudioLoaded (fst (setVolume volume a))
| after_pause a : NoAudioLoaded a -> NoAudioLoaded (pause a)
| after_stop a : NoAudioLoaded a -> NoAudioLoaded (stop a)
| after_play startThrows spectrum waveform frame a :
    NoAudioLoaded a ->
    NoAudioLoaded (fst (play startThrows spectrum waveform frame a))
| after_analyze spectrum waveform frame a a' :
    NoAudioLoaded a -> analyze spectrum waveform frame a = Some a' ->
    NoAudioLoaded a'
| after_rejected_load reinit decoded a a' :
    NoAudioLoaded a -> loadAudioFile reinit decoded a = (a', false) ->
    NoAudioLoaded a'.

(** What holds of these states: without a context nothing is loaded or
    playing, and when both buffers exist they are as allocated and nothing
    is loaded or playing. *)
Definition blank (a : t) : Prop :=
  (audioContext a = false ->
   source a = None /\ isPlaying a = false /\ frequencyData a = None) /\
  (forall f w, frequencyData a = Some f -> timeDomainData a = Some w ->
     f = JS.Float32Array_new frequencyBinCount /\
     w = JS.Float32Array_new frequencyBinCount /\
     source a = None /\ isPlaying a = false /\ is_Some (gainNode a)).

(** The feature vector with all levels zero and the given raw buffers. *)
Definition silent (buffer : list float) : Types.AudioData :=
  Types.mkAudioData buffer buffer 0 0 0 0 false.

(** *** getDuration, isAudioPlaying, dispose *)

Definition getDuration (a : t) : float :=
  match source a with
  | Some duration => duration
  | None => 0
  end.

Definition isAudioPlaying (a : t) : bool := isPlaying a.

Definition dispose (a : t) : t :=
  let a := stop a in
  mk false (analyser a) (frequencyData a) (timeDomainData a) (source a)
     (gainNode a) (isPlaying a) (animationId a).

(** *** The states an instance goes through

    [Reachable]: what the constructor, the public methods and the frame
    callback produce.  A call that throws leaves the state it had reached. *)
Inductive Reachable : t -> Prop :=
| reach_new outcome : Reachable (new outcome)
| reach_loadAudioFile reinit decoded a :
    Reachable a -> Reachable (fst (loadAudioFile reinit decoded a))
| reach_play startThrows spectrum waveform frame a :
    Reachable a -> Reachable (fst (play startThrows spectrum waveform frame a))
| reach_analyze spectrum waveform frame a a' :
    Reachable a -> analyze spectrum waveform frame a = Some a' -> Reachable a'
| reach_pause a : Reachable a -> Reachable (pause a)
| reach_stop a : Reachable a -> Reachable (stop a)
| reach_setVolume volume a : Reachable a -> Reachable (fst (setVolume volume a))
| reach_dispose a : Reachable a -> Reachable (dispose a).

(** What these states have in common: the two buffers exist together and
    hold [frequencyBinCount] values each; audio plays only from a loaded
    source in a live context; a frame with an id other than 0 is pending
    only while playing; the gain is a binary32 number from 0 to 1. *)
Definition wellFormed (a : t) : Prop :=
  (frequencyData a = None <-> timeDomainData a = None) /\
  (forall f, frequencyData a = Some f -> length f = frequencyBinCount) /\
  (forall w, timeDomainData a = Some w -> length w = frequencyBinCount) /\
  (is_Some (source a) -> audioContext a = true) /\
  (isPlaying a = true -> is_Some (source a)) /\
  (forall id, animationId a = Some id -> id <> 0%nat -> isPlaying a = true) /\
  (forall g, gainNode a = Some g -> JS.unit32 g).

(** The mean of [|data[i]|] over the bins [first], ..., [last - 1]. *)
Definition meanAbs (data : list float) (first last : Z) : float :=
  sumAbs data first last / JS.of_Z (last - first).

End AudioAnalyzer.

(** ** AnimationEngine *)

Module AnimationEngine.

Local Open Scope float_scope.

Inductive Material :=
| MeshLambertMaterial (color : string)
| MeshPhongMaterial (color : string)
| ShaderMaterial (time intensity volume : float) (color : string)
| PointsMaterial.

(** The objects the engine creates, with the state its update functions
    read and write: the geometry's position (and colour) attribute, the
    material, the rotation, and the number of scale tweens started on the
    object. *)
Inductive Object3D :=
| Mesh (positions : list float) (material : Material)
       (rotation_x rotation_y : float) (tweens : nat)
| Points (positions : list float) (colors : option (list float)).

Definition object_positions (o : Object3D) : list float :=
  match o with
  | Mesh positions _ _ _ _ => positions
  | Points positions _ => positions
  end.

(** *** Map<string, Object3D>

    A JavaScript [Map] keeps its entries in insertion order, and [forEach]
    visits them in that order. *)
Section JsMap.
Context {V : Type}.

Fixpoint Map_get (k : string) (m : list (string * V)) : option V :=
  match m with
  | [] => None
  | (k', v) :: m' => if String.eqb k' k then Some v else Map_get k m'
  end.

Fixpoint Map_set (k : string) (v : V) (m : list (string * V)) : list (string * V) :=
  match m with
  | [] => [(k, v)]
  | (k', v') :: m' =>
      if String.eqb k' k then (k, v) :: m' else (k', v') :: Map_set k v m'
  end.

Fixpoint Map_delete (k : string) (m : list (string * V)) : list (string * V) :=
  match m with
  | [] => []
  | (k', v') :: m' =>
      if String.eqb k' k then m' else (k', v') :: Map_delete k m'
  end.
End JsMap.

(** The fields of the class that the effect functions use; scene, camera
    and renderer are rendering state and are left out.  [configEffects] is
    [this.config.effects], an array the caller owns and extends. *)
Record t := mk {
  effects : list (string * Object3D);
  audioData : option Types.AudioData;
  configEffects : list Types.AnimationEffect;
  marblePhysics : option MarblePhysics.t;
  randomCalls : nat;
  nowCalls : nat }.

Definition set_effects (m : list (string * Object3D)) (e : t) : t :=
  mk m (audioData e) (configEffects e) (marblePhysics e) (randomCalls e) (nowCalls e).
Definition set_audioData (a : option Types.AudioData) (e : t) : t :=
  mk (effects e) a (configEffects e) (marblePhysics e) (randomCalls e) (nowCalls e).
Definition set_marblePhysics (p : option MarblePhysics.t) (e : t) : t :=
  mk (effects e) (audioData e) (configEffects e) p (randomCalls e) (nowCalls e).
Definition set_randomCalls (n : nat) (e : t) : t :=
  mk (effects e) (audioData e) (configEffects e) (marblePhysics e)
     n (nowCalls e).
Definition set_nowCalls (n : nat) (e : t) : t :=
  mk (effects e) (audioData e) (configEffects e) (marblePhysics e)
     (randomCalls e) n.

(** The constructor, for a configuration with the given effects. *)
Definition new (configEffects : list Types.AnimationEffect) : t :=
  mk [] None configEffects (Some MarblePhysics.new) 0 0.

(** The counters [i = 0, 3, 6, ...] of a loop
    [for (let i = 0; i < positions.length; i += 3)]. *)
Definition vertexStarts (positions : list float) : list nat :=
  map (fun k => (3 * k)%nat) (seq 0 ((length positions + 2) / 3)).

(** The ids for which the [switch] of [updateEffect] has a case: the five
    type names. *)
Definition typeName (id : string) : bool :=
  String.eqb id "wave" || String.eqb id "particle" || String.eqb id "geometric"
  || String.eqb id "fluid" || String.eqb id "neural".

Section WithPlatform.

(** The engine's own calls of [Math.random] and [Date.now], those made
    inside its MarblePhysics, [Math.sin], and the position arrays of the
    THREE.js geometries the engine builds. *)
Variable Math_random : nat -> float.
Variable Date_now : nat -> Z.
Variable marble_random : nat -> float.
Variable marble_now : nat -> Z.
Variable Math_sin : float -> float.
Variable PlaneGeometry : list float.               (* PlaneGeometry(10, 10, 50, 50) *)
Variable IcosahedronGeometry : float -> list float. (* IcosahedronGeometry(size, 0) *)
Variable SphereGeometry : float -> list float.      (* SphereGeometry(size, 32, 32) *)

(** [Date.now() * 0.001] at the [n]-th call. *)
Definition seconds (n : nat) : float := JS.of_Z (Date_now n) * 0.001.

(** *** The five update functions

    Each takes the object and the counters of the oracle calls made so
    far, and returns the object after the update with the new counters. *)

Definition updateWaveEffect (effect : Object3D) (bassLevel : float)
    (now : nat) : Object3D * nat :=
  match effect with
  | Mesh positions material rx ry tw =>
      let '(positions, now) :=
        fold_left (fun '(positions, now) i =>
            let x := JS.get positions i in
            let z := JS.get positions (i + 2) in
            let waveHeight := Math_sin (x * 0.1 + seconds now) * bassLevel * 2 in
            (JS.put positions (i + 2) (z + waveHeight), S now))
          (vertexStarts positions) (positions, now) in
      (Mesh positions material rx ry tw, now)
  | Points _ _ => (effect, now)
  end.

(** [None]: reading [geometry.attributes.color.array] throws, because the
    geometry has no colour attribute. *)
Definition updateParticleEffect (effect : Object3D) (volume : float)
    (beat : bool) (rnd : nat) : option (Object3D * nat) :=
  match effect with
  | Points positions (Some colors) =>
      let '(positions, colors, rnd) :=
        fold_left (fun '(positions, colors, rnd) i =>
            let intensity := volume * 10 in
            let positions :=
              JS.put positions (i + 1)
                (JS.get positions (i + 1)
                 + (Math_random rnd - 0.5) * intensity * 0.1) in
            if beat
            then (positions,
                  JS.put (JS.put (JS.put colors i (Math_random (rnd + 1)))
                                 (i + 1) (Math_random (rnd + 2)))
                         (i + 2) (Math_random (rnd + 3)),
                  (rnd + 4)%nat)
            else (positions, colors, S rnd))
          (vertexStarts positions) (positions, colors, rnd) in
      Some (Points positions (Some colors), rnd)
  | Points _ None => None
  | Mesh _ _ _ _ _ => Some (effect, rnd)
  end.

(** The two [gsap.to] calls start two tweens of the scale. *)
Definition updateGeometricEffect (effect : Object3D) (trebleLevel : float)
    (beat : bool) : Object3D :=
  match effect with
  | Mesh positions material rx ry tw =>
      Mesh positions material (rx + trebleLevel * 0.1)
           (ry + trebleLevel * 0.05) (if beat then 2 + tw else tw)
  | Points _ _ => effect
  end.

Definition updateFluidEffect (effect : Object3D) (midLevel volume : float)
    (now : nat) : Object3D * nat :=
  match effect with
  | Mesh positions (ShaderMaterial _ _ _ color) rx ry tw =>
      (Mesh positions (ShaderMaterial (seconds now) midLevel volume color)
            rx ry tw, S now)
  | _ => (effect, now)
  end.

Definition updateNeuralEffect (effect : Object3D) (bassLevel trebleLevel : float)
    (now : nat) : Object3D * nat :=
  match effect with
  | Mesh positions material rx ry tw =>
      let '(positions, now) :=
        fold_left (fun '(positions, now) i =>
            let nodeIndex := JS.Math_floor (JS.of_Z (Z.of_nat i) / 3) in
            let frequency := bassLevel + trebleLevel in
            (JS.put positions (i + 2)
               (Math_sin (nodeIndex * 0.1 + seconds now) * frequency),
             S now))
          (vertexStarts positions) (positions, now) in
      (Mesh positions material rx ry tw, now)
  | Points _ _ => (effect, now)
  end.

(** *** updateEffect, updateEffects *)

(** The [switch (id)] of [updateEffect]: [effect] is the map's value and
    [id] its key.  The result carries the counters of [Math.random] and
    [Date.now]; [None]: an exception escapes. *)
Definition updateEffect (a : Types.AudioData) (effect : Object3D) (id : string)
    (rnd now : nat) : option (Object3D * nat * nat) :=
  if String.eqb id "wave" then
    let '(o, now) := updateWaveEffect effect (Types.bassLevel a) now in
    Some (o, rnd, now)
  else if String.eqb id "particle" then
    match updateParticleEffect effect (Types.volume a) (Types.beat a) rnd with
    | Some (o, rnd) => Some (o, rnd, now)
    | None => None
    end
  else if String.eqb id "geometric" then
    Some (updateGeometricEffect effect (Types.trebleLevel a) (Types.beat a), rnd, now)
  else if String.eqb id "fluid" then
    let '(o, now) := updateFluidEffect effect (Types.midLevel a) (Types.volume a) now in
    Some (o, rnd, now)
  else if String.eqb id "neural" then
    let '(o, now) :=
      updateNeuralEffect effect (Types.bassLevel a) (Types.trebleLevel a) now in
    Some (o, rnd, now)
  else Some (effect, rnd, now).

(** [this.effects.forEach((effect, id) => this.updateEffect(effect, id))] *)
Fixpoint forEachEffect (a : Types.AudioData) (m : list (string * Object3D))
    (rnd now : nat) : option (list (string * Object3D) * nat * nat) :=
  match m with
  | [] => Some ([], rnd, now)
  | (id, effect) :: m' =>
      match updateEffect a effect id rnd now with
      | None => None
      | Some (o, rnd, now) =>
          match forEachEffect a m' rnd now with
          | None => None
          | Some (m'', rnd, now) => Some ((id, o) :: m'', rnd, now)
          end
      end
  end.

Definition updateEffects (e : t) : option t :=
  match audioData e with
  | None => Some e
  | Some a =>
      match forEachEffect a (effects e) (randomCalls e) (nowCalls e) with
      | None => None
      | Some (m, rnd, now) =>
          Some (set_nowCalls now (set_randomCalls rnd (set_effects m e)))
      end
  end.

Definition updateAudioData (audioData : Types.AudioData) (e : t) : option t :=
  match updateEffects (set_audioData (Some audioData) e) with
  | None => None
  | Some e =>
      match marblePhysics e with
      | Some p =>
          Some (set_marblePhysics
                  (Some (MarblePhysics.spawnMarbleFromAudio marble_random
                           (Types.volume audioData) (Types.bassLevel audioData) p))
                  e)
      | None => Some e
      end
  end.

(** The body of the frame callback registered by [start], without the
    rendering. *)
Definition animate (deltaTime : float) (e : t) : t :=
  match marblePhysics e, audioData e with
  | Some p, Some a =>
      set_marblePhysics
        (Some (MarblePhysics.update marble_random marble_now deltaTime
                 (Some (MarblePhysics.mkAudioInput (Types.frequencyData a)
                                                   (Types.volume a)))
                 p))
        e
  | _, _ => e
  end.

(** *** The five constructors of effect objects *)

Definition createWaveEffect (effect : Types.AnimationEffect) : Object3D :=
  Mesh PlaneGeometry (MeshLambertMaterial (Types.color effect)) 0 0 0.

(** [None]: [new Float32Array(particleCount * 3)] throws. *)
Definition createParticleEffect (effect : Types.AnimationEffect) (rnd : nat)
    : option (Object3D * nat) :=
  let particleCount := Types.size effect * 1000 in
  match JS.Float32Array_of (particleCount * 3) with
  | None => None
  | Some zeros =>
      let '(positions, colors, rnd) :=
        fold_left (fun '(positions, colors, rnd) i =>
            let positions :=
              JS.put (JS.put (JS.put positions (i * 3)
                                ((Math_random rnd - 0.5) * 20))
                        (i * 3 + 1) ((Math_random (rnd + 1) - 0.5) * 20))
                (i * 3 + 2) ((Math_random (rnd + 2) - 0.5) * 20) in
            let colors :=
              JS.put (JS.put (JS.put colors (i * 3) (Math_random (rnd + 3)))
                        (i * 3 + 1) (Math_random (rnd + 4)))
                (i * 3 + 2) (Math_random (rnd + 5)) in
            (positions, colors, (rnd + 6)%nat))
          (seq 0 (JS.rounds particleCount)) (zeros, zeros, rnd) in
      Some (Points positions (Some colors), rnd)
  end.

Definition createGeometricEffect (effect : Types.AnimationEffect) : Object3D :=
  Mesh (IcosahedronGeometry (Types.size effect))
       (MeshPhongMaterial (Types.color effect)) 0 0 0.

Definition createFluidEffect (effect : Types.AnimationEffect) : Object3D :=
  Mesh (SphereGeometry (Types.size effect))
       (ShaderMaterial 0 0 0 (Types.color effect)) 0 0 0.

(** Fifty nodes; the geometry has a position attribute only. *)
Definition createNeuralEffect (effect : Types.AnimationEffect) (rnd : nat)
    : Object3D * nat :=
  let nodeCount := 50%nat in
  let '(positions, rnd) :=
    fold_left (fun '(positions, rnd) i =>
        (JS.put (JS.put (JS.put positions (i * 3)
                           ((Math_random rnd - 0.5) * 10))
                   (i * 3 + 1) ((Math_random (rnd + 1) - 0.5) * 10))
           (i * 3 + 2) ((Math_random (rnd + 2) - 0.5) * 10),
         (rnd + 3)%nat))
      (seq 0 nodeCount) (JS.Float32Array_new (nodeCount * 3), rnd) in
  (Points positions None, rnd).

(** *** addEffect, removeEffect *)

(** [this.effects.set(effect.id, threeEffect)] *)
Definition register (effect : Types.AnimationEffect) (threeEffect : Object3D)
    (e : t) : t :=
  set_effects (Map_set (Types.id effect) threeEffect (effects e)) e.

(** The [switch (effect.type)] of [addEffect]; [None]: an exception
    escapes, before the engine has changed. *)
Definition addEffect (effect : Types.AnimationEffect) (e : t) : option t :=
  let type := Types.type effect in
  if String.eqb type "marble" then Some e
  else if String.eqb type "wave" then
    Some (register effect (createWaveEffect effect) e)
  else if String.eqb type "particle" then
    match createParticleEffect effect (randomCalls e) with
    | Some (o, rnd) => Some (register effect o (set_randomCalls rnd e))
    | None => None
    end
  else if String.eqb type "geometric" then
    Some (register effect (createGeometricEffect effect) e)
  else if String.eqb type "fluid" then
    Some (register effect (createFluidEffect effect) e)
  else if String.eqb type "neural" then
    let '(o, rnd) := createNeuralEffect effect (randomCalls e) in
    Some (register effect o (set_randomCalls rnd e))
  else Some e.

Definition removeEffect (id : string) (e : t) : t :=
  let e := match Map_get id (effects e) with
           | Some _ => set_effects (Map_delete id (effects e)) e
           | None => e
           end in
  match find (fun c => String.eqb (Types.id c) id) (configEffects e) with
  | Some effectConfig =>
      if String.eqb (Types.type effectConfig) "marble" then
        match marblePhysics e with
        | Some p => set_marblePhysics (Some (MarblePhysics.clearMarbles p)) e
        | None => e
        end
      else e
  | None => e
  end.

(** [updateAudioData] for each feature vector of a list in turn; [None]:
    one of the calls throws. *)
Fixpoint updateAudioDataAll (frames : list Types.AudioData) (e : t) : option t :=
  match frames with
  | [] => Some e
  | audioData :: frames =>
      match updateAudioData audioData e with
      | Some e => updateAudioDataAll frames e
      | None => None
      end
  end.

(** The test of [spawnMarbleFromAudio] on a feature vector. *)
Definition loud (audioData : Types.AudioData) : bool :=
  (0.1 <? Types.volume audioData) && (0.1 <? Types.bassLevel audioData).

(** *** The states an engine goes through

    [Reachable]: what the constructor, the public methods and the frame
    callback produce; a call that throws is left out.  The configuration
    is the caller's object, and the caller appends to its [effects]. *)
Definition pushConfig (effect : Types.AnimationEffect) (e : t) : t :=
  mk (effects e) (audioData e) (configEffects e ++ [effect]) (marblePhysics e)
     (randomCalls e) (nowCalls e).

Inductive Reachable : t -> Prop :=
| reach_new configEffects : Reachable (new configEffects)
| reach_addEffect effect e e' :
    Reachable e -> addEffect effect e = Some e' -> Reachable e'
| reach_removeEffect id e : Reachable e -> Reachable (removeEffect id e)
| reach_updateAudioData audioData e e' :
    Reachable e -> updateAudioData audioData e = Some e' -> Reachable e'
| reach_animate deltaTime e : Reachable e -> Reachable (animate deltaTime e)
| reach_pushConfig effect e : Reachable e -> Reachable (pushConfig effect e).

(** What holds of every state of an engine: the ids of the map are
    distinct, and the physics is in a state its own methods produce. *)
Definition sound (e : t) : Prop :=
  NoDup (map fst (effects e)) /\
  exists p, marblePhysics e = Some p /\
            MarblePhysics.Reachable marble_random marble_now p.

End WithPlatform.

(** What the update functions keep of an object: its class and the
    lengths of its position and colour arrays. *)
Definition shape (o : Object3D) : bool * nat * option nat :=
  match o with
  | Mesh positions _ _ _ _ => (true, length positions, None)
  | Points positions colors => (false, length positions, length <$> colors)
  end.

Definition shapes (m : list (string * Object3D))
    : list (string * (bool * nat * option nat)) :=
  map (fun entry => (fst entry, shape (snd entry))) m.

End AnimationEngine.

(** ** XylophoneSynth *)

Module XylophoneSynth.

Local Open Scope float_scope.

(** The fields of the class: whether there is an audio context, the gain
    node by its gain value (a binary32 number), and the master volume.
    [sounds] lists the calls of [createXylophoneSound(frequency, velocity)]
    that got past its guard, oldest first. *)
Record t := mk {
  audioContext : bool;
  gainNode : option spec_float;
  masterVolume : float;
  sounds : list (float * float) }.

(** How far the [try] block of [initAudioContext] gets. *)
Inductive InitOutcome :=
| ContextFails      (* new AudioContext() throws *)
| GainFails         (* createGain() throws *)
| ConnectFails      (* connect(destination) throws *)
| Initialised.

(** [initAudioContext].  The new gain node is stored before its gain is
    assigned: when the assignment throws, the node keeps the gain 1 it was
    created with (and [connect] is not reached). *)
Definition initAudioContext (outcome : InitOutcome) (s : t) : t :=
  match outcome with
  | ContextFails => s
  | GainFails => mk true (gainNode s) (masterVolume s) (sounds s)
  | ConnectFails | Initialised =>
      mk true (Some (default JS.one32 (JS.to_float (masterVolume s))))
         (masterVolume s) (sounds s)
  end.

(** The constructor. *)
Definition new (outcome : InitOutcome) : t :=
  initAudioContext outcome (mk false None 0.3 []).

(** [this.audioContext && this.gainNode] *)
Definition ready (s : t) : bool :=
  audioContext s && bool_decide (is_Some (gainNode s)).

Definition createXylophoneSound (frequency velocity : float) (s : t) : t :=
  if negb (ready s) then s
  else mk (audioContext s) (gainNode s) (masterVolume s)
          (sounds s ++ [(frequency, velocity)]).

(** *** playNote

    [playNote] is an [async] function with two [await]s.  A call runs to
    its first [await] or to its end; what follows an [await] runs later,
    in the state the instance has by then.  [Pending] tells where a call
    stands when it gives up control. *)
Inductive Pending :=
| AwaitsInit        (* at [await this.initAudioContext()] *)
| AwaitsResume      (* at [await this.audioContext.resume()] *)
| Returned.

(** From the test of [audioContext.state] on; [suspended] is what the test
    finds. *)
Definition fromStateTest (suspended : bool) (frequency velocity : float)
    (s : t) : t * Pending :=
  if suspended then (s, AwaitsResume)
  else (createXylophoneSound frequency velocity s, Returned).

(** The call itself: [outcome] is that of the [initAudioContext] it runs
    when the context or the gain node is missing. *)
Definition playNote (outcome : InitOutcome) (suspended : bool)
    (frequency velocity : float) (s : t) : t * Pending :=
  if ready s then fromStateTest suspended frequency velocity s
  else (initAudioContext outcome s, AwaitsInit).

(** What follows [await this.initAudioContext()]. *)
Definition afterInit (suspended : bool) (frequency velocity : float)
    (s : t) : t * Pending :=
  if ready s then fromStateTest suspended frequency velocity s
  else (s, Returned).

(** What follows [await this.audioContext.resume()], once the promise is
    settled: when it is rejected the call ends there. *)
Definition afterResume (resolved : bool) (frequency velocity : float)
    (s : t) : t :=
  if resolved then createXylophoneSound frequency velocity s else s.

(** A call followed to its end, when nothing else runs on the instance
    before it ends. *)
Definition playNoteAlone (outcome : InitOutcome) (suspended resolved : bool)
    (frequency velocity : float) (s : t) : t :=
  let resume (sp : t * Pending) : t :=
    match snd sp with
    | AwaitsResume => afterResume resolved frequency velocity (fst sp)
    | _ => fst sp
    end in
  match playNote outcome suspended frequency velocity s with
  | (s', AwaitsInit) => resume (afterInit suspended frequency velocity s')
  | sp => resume sp
  end.

(** [setVolume]: the master volume is overwritten before the assignment to
    [gain.value], which throws when the clamped volume is not a finite
    number.  The boolean tells whether the call returns normally. *)
Definition setVolume (volume : float) (s : t) : t * bool :=
  let masterVolume := JS.Math_max 0 (JS.Math_min 1 volume) in
  match gainNode s with
  | Some gain =>
      match JS.to_float masterVolume with
      | Some gain' => (mk (audioContext s) (Some gain') masterVolume (sounds s), true)
      | None => (mk (audioContext s) (Some gain) masterVolume (sounds s), false)
      end
  | None => (mk (audioContext s) None masterVolume (sounds s), true)
  end.

Definition getVolume (s : t) : float := masterVolume s.

(** [dispose] closes and drops the context; the gain node stays. *)
Definition dispose (s : t) : t :=
  mk false (gainNode s) (masterVolume s) (sounds s).

(** The states an instance goes through: what the constructor, the public
    methods and the continuations of [playNote] produce, a continuation
    running in any later state. *)
Inductive Reachable : t -> Prop :=
| reach_new outcome : Reachable (new outcome)
| reach_playNote outcome suspended frequency velocity s :
    Reachable s ->
    Reachable (fst (playNote outcome suspended frequency velocity s))
| reach_afterInit suspended frequency velocity s :
    Reachable s -> Reachable (fst (afterInit suspended frequency velocity s))
| reach_afterResume resolved frequency velocity s :
    Reachable s -> Reachable (afterResume resolved frequency velocity s)
| reach_setVolume volume s : Reachable s -> Reachable (fst (setVolume volume s))
| reach_dispose s : Reachable s -> Reachable (dispose s).

(** The master volume is never below 0 or above 1; the gain of the node,
    when there is one, is a binary32 number from 0 to 1, and it is the
    binary32 number nearest to the master volume unless that is NaN. *)
Definition mirrors (s : t) : Prop :=
  JS.notOutside01 (masterVolume s) /\
  forall g, gainNode s = Some g ->
    JS.unit32 g /\
    (JS.to_float (masterVolume s) = Some g \/ masterVolume s = nan).

(** The calls [playNote(frequency, velocity)] of a list, made one after
    the other without a break, each finding the context running. *)
Definition playAll (outcome : InitOutcome) (calls : list (float * float))
    (s : t) : t :=
  fold_left (fun s call => fst (playNote outcome false (fst call) (snd call) s))
            calls s.

End XylophoneSynth.

(** ** VideoExporter *)

Module VideoExporter.

Local Open Scope float_scope.

(** A [Blob] is the bytes it holds; [new Blob(parts)] holds the bytes of
    the parts, one after the other. *)
Definition Blob := list Byte.byte.

Definition Blob_of (parts : list Blob) : Blob := concat parts.

(** The [state] attribute of a [MediaRecorder]. *)
Inductive RecorderState := inactive | recording.

(** The fields of the class; the media recorder by its state. *)
Record t := mk {
  mediaRecorder : option RecorderState;
  recordedChunks : list Blob;
  isRecording : bool }.

Definition new : t := mk None [] false.

(** How far the [try] block of [startRecording] gets. *)
Inductive StartOutcome :=
| CaptureFails      (* canvas.captureStream(60) throws *)
| RecorderFails     (* new MediaRecorder(...) throws *)
| StartFails        (* mediaRecorder.start(100) throws *)
| Started.

(** The boolean tells whether the promise resolves. *)
Definition startRecording (outcome : StartOutcome) (r : t) : t * bool :=
  match outcome with
  | CaptureFails | RecorderFails => (r, false)
  | StartFails => (mk (Some inactive) [] true, false)
  | Started => (mk (Some recording) [] true, true)
  end.

(** The [ondataavailable] handler. *)
Definition ondataavailable (data : Blob) (r : t) : t :=
  if (0 <? length data)%nat
  then mk (mediaRecorder r) (recordedChunks r ++ [data]) (isRecording r)
  else r.

Definition deliver (events : list Blob) (r : t) : t :=
  fold_left (fun r data => ondataavailable data r) events r.

(** [stopRecording].  [mediaRecorder.stop()] on a recorder that records
    makes it deliver the chunks still [pending] and then fire [stop]; a
    recorder that is inactive fires nothing.  [Some blob]: the promise
    resolves with [blob]; [None]: it is rejected, or never settled. *)
Definition stopRecording (pending : list Blob) (r : t) : t * option Blob :=
  match mediaRecorder r with
  | None => (r, None)
  | Some state =>
      if negb (isRecording r) then (r, None)
      else
        match state with
        | inactive => (r, None)
        | recording =>
            let r := deliver pending r in
            (mk (Some inactive) (recordedChunks r) false,
             Some (Blob_of (recordedChunks r)))
        end
  end.

Definition isCurrentlyRecording (r : t) : bool := isRecording r.

Definition getRecordingDuration (r : t) : float :=
  JS.length_of (recordedChunks r) * 0.1.

End VideoExporter.

(** ** EffectSelector *)

Module EffectSelector.

Local Open Scope float_scope.

(** An effect without its id. *)
Record Template := mkTemplate {
  name : string;
  type : string;
  intensity : float;
  color : string;
  speed : float;
  size : float }.

(** The five buttons. *)
Definition defaultEffects : list Template :=
  [mkTemplate "波浪效果" "wave" 0.8 "#3b82f6" 1.0 1.0;
   mkTemplate "粒子效果" "particle" 0.6 "#ef4444" 1.2 0.8;
   mkTemplate "幾何效果" "geometric" 0.7 "#10b981" 0.8 1.2;
   mkTemplate "流體效果" "fluid" 0.9 "#8b5cf6" 1.1 1.0;
   mkTemplate "神經網絡" "neural" 0.5 "#f59e0b" 0.9 0.9].

(** [`effect-${Date.now()}-${Math.random().toString(36).substr(2, 9)}`]:
    [stamp] and [suffix] are the two interpolated strings. *)
Definition generatedId (stamp suffix : string) : string :=
  ("effect-" ++ stamp ++ "-" ++ suffix)%string.

Definition newEffect (stamp suffix : string) (effectTemplate : Template)
    : Types.AnimationEffect :=
  Types.mkEffect (generatedId stamp suffix) (name effectTemplate)
    (type effectTemplate) (intensity effectTemplate) (color effectTemplate)
    (speed effectTemplate) (size effectTemplate).

(** The three handlers, as functions from the [effects] property to the
    list passed to [onEffectsChange]. *)
Definition addEffect (stamp suffix : string) (effectTemplate : Template)
    (effects : list Types.AnimationEffect) : list Types.AnimationEffect :=
  effects ++ [newEffect stamp suffix effectTemplate].

Definition removeEffect (effectId : string)
    (effects : list Types.AnimationEffect) : list Types.AnimationEffect :=
  List.filter (fun e => negb (String.eqb (Types.id e) effectId)) effects.

Definition updateEffect (updatedEffect : Types.AnimationEffect)
    (effects : list Types.AnimationEffect) : list Types.AnimationEffect :=
  map (fun e => if String.eqb (Types.id e) (Types.id updatedEffect)
                then updatedEffect else e) effects.

(** The four controls of the parameter panel: each calls [updateEffect]
    with a copy of the selected effect in which one field is replaced. *)
Inductive Edit :=
| SetIntensity (value : float)
| SetSpeed (value : float)
| SetSize (value : float)
| SetColor (value : string).

Definition edited (selectedEffect : Types.AnimationEffect) (edit : Edit)
    : Types.AnimationEffect :=
  let e := selectedEffect in
  match edit with
  | SetIntensity v =>
      Types.mkEffect (Types.id e) (Types.name e) (Types.type e) v
        (Types.color e) (Types.speed e) (Types.size e)
  | SetSpeed v =>
      Types.mkEffect (Types.id e) (Types.name e) (Types.type e)
        (Types.intensity e) (Types.color e) v (Types.size e)
  | SetSize v =>
      Types.mkEffect (Types.id e) (Types.name e) (Types.type e)
        (Types.intensity e) (Types.color e) (Types.speed e) v
  | SetColor c =>
      Types.mkEffect (Types.id e) (Types.name e) (Types.type e)
        (Types.intensity e) c (Types.speed e) (Types.size e)
  end.

(** What the selector hands to [onEffectsChange]: lists built by its
    buttons from the empty list of the application.  The effect selected
    for editing is one of the list. *)
Inductive Offered : list Types.AnimationEffect -> Prop :=
| offered_nil : Offered []
| offered_add stamp suffix effectTemplate effects :
    Offered effects -> effectTemplate ∈ defaultEffects ->
    Offered (addEffect stamp suffix effectTemplate effects)
| offered_remove effectId effects :
    Offered effects -> Offered (removeEffect effectId effects)
| offered_update selectedEffect edit effects :
    Offered effects -> selectedEffect ∈ effects ->
    Offered (updateEffect (edited selectedEffect edit) effects).

(** An effect as the selector makes them: a generated id, and the name
    and type of one of the five templates. *)
Definition selectorMade (e : Types.AnimationEffect) : Prop :=
  (exists stamp suffix, Types.id e = generatedId stamp suffix) /\
  exists effectTemplate,
    effectTemplate ∈ defaultEffects /\
    Types.name e = name effectTemplate /\ Types.type e = type effectTemplate.

End EffectSelector.

(** ** useAnimationEngine

    The hook keeps a configuration object in [configRef] and hands it to
    the engine's constructor.  Configuration objects and their [effects]
    arrays are shared mutable objects, so the model keeps them in a store:
    an array by its address in [arrays], a configuration object by its
    address in [configs], where it is represented by the address of its
    [effects] array.  The engine reads [this.config.effects] through the
    store. *)

Module useAnimationEngine.

Record t := mk {
  arrays : list (list Types.AnimationEffect);
  configs : list nat;
  current : nat;                (* configRef.current *)
  engineConfig : nat;           (* the engine's this.config *)
  engine : AnimationEngine.t }. (* engineRef.current *)

(** [config.effects] of the configuration object at an address. *)
Definition effectsAt (h : t) (config : nat) : list Types.AnimationEffect :=
  default [] (configs h !! config ≫= fun array => arrays h !! array).

(** The engine with [this.config.effects] as the store has it. *)
Definition theEngine (h : t) : AnimationEngine.t :=
  AnimationEngine.mk (AnimationEngine.effects (engine h))
    (AnimationEngine.audioData (engine h)) (effectsAt h (engineConfig h))
    (AnimationEngine.marblePhysics (engine h))
    (AnimationEngine.randomCalls (engine h))
    (AnimationEngine.nowCalls (engine h)).

(** After the mount effect: one configuration object with an empty array,
    held by the hook and by the engine. *)
Definition mounted : t := mk [[]] [0%nat] 0 0 (AnimationEngine.new []).

(** [configRef.current = { ...configRef.current, ...newConfig }]: a new
    object; it shares the [effects] array unless [newConfig] brings one. *)
Definition updateConfig (newEffects : option (list Types.AnimationEffect))
    (h : t) : t :=
  match newEffects with
  | None =>
      mk (arrays h) (configs h ++ [default 0%nat (configs h !! current h)])
         (length (configs h)) (engineConfig h) (engine h)
  | Some effects =>
      mk (arrays h ++ [effects]) (configs h ++ [length (arrays h)])
         (length (configs h)) (engineConfig h) (engine h)
  end.

Section WithPlatform.

Variable Math_random : nat -> float.
Variable PlaneGeometry : list float.
Variable IcosahedronGeometry : float -> list float.
Variable SphereGeometry : float -> list float.
Variable Date_now : nat -> Z.
Variable marble_random : nat -> float.
Variable Math_sin : float -> float.

(** [engine.addEffect(effect); configRef.current.effects.push(effect)];
    [None]: the engine throws and the push is not reached. *)
Definition addEffect (effect : Types.AnimationEffect) (h : t) : option t :=
  match AnimationEngine.addEffect Math_random PlaneGeometry IcosahedronGeometry
          SphereGeometry effect (theEngine h) with
  | None => None
  | Some e =>
      Some (mk (alter (fun array => array ++ [effect])
                  (default 0%nat (configs h !! current h)) (arrays h))
               (configs h) (current h) (engineConfig h) e)
  end.

(** [engine.removeEffect(effectId);
     configRef.current.effects = configRef.current.effects.filter(...)]:
    the filtered copy is a new array, put into the hook's object. *)
Definition removeEffect (effectId : string) (h : t) : t :=
  let e := AnimationEngine.removeEffect effectId (theEngine h) in
  let filtered :=
    List.filter (fun c => negb (String.eqb (Types.id c) effectId))
                (effectsAt h (current h)) in
  mk (arrays h ++ [filtered]) (<[current h := length (arrays h)]> (configs h))
     (current h) (engineConfig h) e.

(** [engine.updateAudioData(audioData)]; [None]: the engine throws. *)
Definition updateAudioData (audioData : Types.AudioData) (h : t) : option t :=
  match AnimationEngine.updateAudioData Math_random Date_now marble_random
          Math_sin audioData (theEngine h) with
  | None => None
  | Some e => Some (mk (arrays h) (configs h) (current h) (engineConfig h) e)
  end.

Inductive Reachable : t -> Prop :=
| reach_mounted : Reachable mounted
| reach_updateConfig newEffects h :
    Reachable h -> Reachable (updateConfig newEffects h)
| reach_addEffect effect h h' :
    Reachable h -> addEffect effect h = Some h' -> Reachable h'
| reach_removeEffect effectId h : Reachable h -> Reachable (removeEffect effectId h)
| reach_updateAudioData audioData h h' :
    Reachable h -> updateAudioData audioData h = Some h' -> Reachable h'.

(** [Later h h']: the hook gets from [h] to [h'] by calls of its
    functions. *)
Inductive Later (h : t) : t -> Prop :=
| later_now : Later h h
| later_updateConfig newEffects h' :
    Later h h' -> Later h (updateConfig newEffects h')
| later_addEffect effect h' h'' :
    Later h h' -> addEffect effect h' = Some h'' -> Later h h''
| later_removeEffect effectId h' :
    Later h h' -> Later h (removeEffect effectId h')
| later_updateAudioData audioData h' h'' :
    Later h h' -> updateAudioData audioData h' = Some h'' -> Later h h''.

End WithPlatform.

(** The addresses in use are allocated. *)
Definition allocated (h : t) : Prop :=
  (current h < length (configs h))%nat /\
  (engineConfig h < length (configs h))%nat /\
  Forall (fun array => (array < length (arrays h))%nat) (configs h).

(** The hook's object and the engine's hold different arrays. *)
Definition detached (h : t) : Prop :=
  configs h !! current h <> configs h !! engineConfig h.

End useAnimationEngine.

(** ** Concrete inputs *)

Module Examples.

Import MarblePhysics.
Local Open Scope float_scope.

(** [Math.random] always returns 0.5, so the random nudges vanish;
    [Date.now] counts its calls. *)
Definition half (n : nat) : float := 0.5.
Definition ticks (n : nat) : Z := Z.of_nat n.

(** A marble as [createMarble] makes it, at the given place with the given
    vertical velocity. *)
Definition marbleAt (x y vy : float) : MarbleState :=
  mkMarble (Vector3.mk x y 0) (Vector3.mk 0 vy 0) (Vector3.mk 0 0 0) 0.3 1 0 true.

(** The engine's physics with the given marbles and their meshes. *)
Definition stateWith (ms : list MarbleState) : t :=
  set_marbleMeshes (map (fun m => mkMesh (position m) 0 0) ms)
                   (set_marbles ms new).

(** Above the F key (index 3, at the origin), falling so that one step of
    0.1 s brings the marble onto the key with vertical velocity -5. *)
Definition striker : MarbleState := marbleAt 0 0.9 (-4.12204081632653).

(** Beside the F key: the centre is 0.9 from the key's centre, past its
    half width of 0.75, but within reach of the radius. *)
Definition grazer : MarbleState := marbleAt 0.9 0.4 (-5).

(** At rest at height 10, as a fresh marble. *)
Definition dropped : MarbleState := marbleAt 0 10 0.

(** Just above the floor and falling. *)
Definition sinking : MarbleState := marbleAt 0 (-9.99) (-5).

(** A wave effect as the effect selector creates it, with a generated
    id, and a marble effect. *)
Definition waveEffect : Types.AnimationEffect :=
  Types.mkEffect "effect-1700000000000-k3x9q2a1b" "wave effect" "wave"
                 0.8 "#3b82f6" 1.0 1.0.

Definition marbleEffect : Types.AnimationEffect :=
  Types.mkEffect "effect-1700000000001-m4r8l3s00" "marbles" "marble"
                 1.0 "#ffffff" 1.0 1.0.

(** An engine whose configuration lists the marble effect and whose
    physics holds the test marble. *)
Definition engineWithMarble : AnimationEngine.t :=
  AnimationEngine.set_marblePhysics
    (Some (createTestMarble half new))
    (AnimationEngine.new [marbleEffect]).

(** A feature vector above both thresholds of [spawnMarbleFromAudio],
    and a silent one. *)
Definition loudFrame : Types.AudioData :=
  Types.mkAudioData [] [] 0.5 0 0 0.5 true.

Definition quietFrame : Types.AudioData :=
  Types.mkAudioData [] [] 0 0 0 0 false.

(** A wave effect whose id is the type name, so that the engine animates
    it; a grid of two vertices for it; and a sine that is 1 everywhere. *)
Definition waveNamed : Types.AnimationEffect :=
  Types.mkEffect "wave" "named wave" "wave" 0.8 "#3b82f6" 1.0 1.0.

Definition twoVertices : list float := [0; 0; 0; 1; 0; 0].

Definition crest (x : float) : float := 1.

Definition engineWithWave : AnimationEngine.t :=
  AnimationEngine.register waveNamed
    (AnimationEngine.createWaveEffect twoVertices waveNamed)
    (AnimationEngine.new []).

(** The list the selector offers after its wave button was pressed once,
    and an engine that holds that effect. *)
Definition offeredWave : list Types.AnimationEffect :=
  EffectSelector.addEffect "1700000000000" "k3x9q2a1b"
    (EffectSelector.mkTemplate "波浪效果" "wave" 0.8 "#3b82f6" 1.0 1.0) [].

Definition engineWithOffered : AnimationEngine.t :=
  AnimationEngine.mk
    [("effect-1700000000000-k3x9q2a1b"%string,
      AnimationEngine.Mesh twoVertices
        (AnimationEngine.MeshLambertMaterial "#3b82f6") 0 0 0)]
    None offeredWave (Some new) 0 0.

(** An analyzer that has loaded a file of 180 seconds. *)
Definition loaded : AudioAnalyzer.t :=
  fst (AudioAnalyzer.loadAudioFile AudioAnalyzer.Initialised (Some 180)
         (AudioAnalyzer.new AudioAnalyzer.Initialised)).

(** The hook after the selector's wave effect was added; and after a
    render then called [updateConfig] without effects and a loud frame
    came in: the hook holds a new configuration object, and one marble is
    falling. *)
Definition hookWithWave : useAnimationEngine.t :=
  default useAnimationEngine.mounted
    (useAnimationEngine.addEffect half twoVertices (fun _ => []) (fun _ => [])
       waveEffect useAnimationEngine.mounted).

Definition playing : useAnimationEngine.t :=
  default hookWithWave
    (useAnimationEngine.updateAudioData half ticks half crest loudFrame
       (useAnimationEngine.updateConfig None hookWithWave)).

(** Three chunks of a recording, the second one empty. *)
Definition chunks : list VideoExporter.Blob :=
  [[Byte.x1a; Byte.x45]; []; [Byte.xdf]].

End Examples.

(** ** Facts about binary64 arithmetic *)

Module FloatFacts.

Local Open Scope float_scope.

Ltac sf_cases :=
  repeat match goal with s : bool |- _ => destruct s end;
  try discriminate; try reflexivity;
  rewrite ?Pos.compare_cont_spec; simpl;
  repeat match goal with
    | |- context [(?a ?= ?b)%Z] => destruct (Z.compare_spec a b)
    end;
  try discriminate; try reflexivity; try lia; subst;
  repeat match goal with
    | |- context [(?a ?= ?b)%positive] => destruct (Pos.compare_spec a b)
    end;
  simpl; try discriminate; try reflexivity; try lia.

Lemma SFleb_trans a b c :
  SFleb a b = true -> SFleb b c = true -> SFleb a c = true.
Proof.
  unfold SFleb, SFcompare.
  destruct a as [sa|sa| |sa ma ea], b as [sb|sb| |sb mb eb],
           c as [sc|sc| |sc mc ec];
    try discriminate; try reflexivity; sf_cases.
Qed.

Lemma SFleb_ltb_trans a b c :
  SFleb a b = true -> SFltb b c = true -> SFltb a c = true.
Proof.
  unfold SFleb, SFltb, SFcompare.
  destruct a as [sa|sa| |sa ma ea], b as [sb|sb| |sb mb eb],
           c as [sc|sc| |sc mc ec];
    try discriminate; try reflexivity; sf_cases.
Qed.

Lemma SFltb_irrefl a : SFltb a a = false.
Proof.
  unfold SFltb, SFcompare. destruct a as [sa|sa| |sa ma ea]; try reflexivity;
    sf_cases.
Qed.

Lemma leb_trans a b c :
  (a <=? b) = true -> (b <=? c) = true -> (a <=? c) = true.
Proof. rewrite !leb_spec. apply SFleb_trans. Qed.

Lemma leb_ltb_trans a b c :
  (a <=? b) = true -> (b <? c) = true -> (a <? c) = true.
Proof. rewrite !leb_spec, !ltb_spec. apply SFleb_ltb_trans. Qed.

Lemma ltb_irrefl a : (a <? a) = false.
Proof. rewrite ltb_spec. apply SFltb_irrefl. Qed.

(** Two numbers one of which is below the other are different. *)
Lemma ltb_neq a b : (a <? b) = true -> a <> b.
Proof. intros H ->. rewrite ltb_irrefl in H. discriminate. Qed.

Lemma Prim2SF_inj a b : Prim2SF a = Prim2SF b -> a = b.
Proof.
  intros H. rewrite <- (SF2Prim_Prim2SF a), <- (SF2Prim_Prim2SF b).
  now rewrite H.
Qed.

(** NaN is absorbing. *)
Lemma mul_nan_r a : a * nan = nan.
Proof.
  apply Prim2SF_inj. rewrite mul_spec.
  change (Prim2SF nan) with S754_nan. now destruct (Prim2SF a).
Qed.

Lemma mul_nan_l a : nan * a = nan.
Proof.
  apply Prim2SF_inj. rewrite mul_spec.
  change (Prim2SF nan) with S754_nan. reflexivity.
Qed.

Lemma add_nan_r a : a + nan = nan.
Proof.
  apply Prim2SF_inj. rewrite add_spec.
  change (Prim2SF nan) with S754_nan. now destruct (Prim2SF a).
Qed.

Lemma add_nan_l a : nan + a = nan.
Proof.
  apply Prim2SF_inj. rewrite add_spec.
  change (Prim2SF nan) with S754_nan. reflexivity.
Qed.

(** No comparison with NaN holds. *)
Lemma ltb_nan_l a : (nan <? a) = false.
Proof. rewrite ltb_spec. reflexivity. Qed.

Lemma ltb_nan_r a : (a <? nan) = false.
Proof.
  rewrite ltb_spec. change (Prim2SF nan) with S754_nan.
  unfold SFltb, SFcompare. now destruct (Prim2SF a).
Qed.

Lemma leb_nan_l a : (nan <=? a) = false.
Proof. rewrite leb_spec. reflexivity. Qed.

Lemma leb_nan_r a : (a <=? nan) = false.
Proof.
  rewrite leb_spec. change (Prim2SF nan) with S754_nan.
  unfold SFleb, SFcompare. now destruct (Prim2SF a).
Qed.

End FloatFacts.


(** ** Facts about MarblePhysics *)

Module MarbleFacts.

Import MarblePhysics.
Local Open Scope float_scope.

#[local] Arguments getFrequencyLevel : simpl never.

(** *** Loops *)

Lemma fold_left_fixed {S A} (f : S -> A -> S) (l : list A) (s : S) :
  (forall a, a ∈ l -> f s a = s) -> fold_left f l s = s.
Proof.
  induction l as [|a l IH]; intros H; [reflexivity|]. cbn.
  rewrite (H a) by left. apply IH. intros b Hb. apply H. now right.
Qed.

Lemma seq_split (k n : nat) :
  (k < n)%nat -> seq 0 n = seq 0 k ++ k :: seq (S k) (n - S k).
Proof.
  intros H. replace n with (k + S (n - S k))%nat at 1 by lia.
  rewrite seq_app. reflexivity.
Qed.

Lemma countdown_ind {S} (P : nat -> S -> Prop) (body : nat -> S -> S) n st :
  P n st ->
  (forall i s, (i < n)%nat -> P (Datatypes.S i) s -> P i (body i s)) ->
  P 0%nat (countdown n body st).
Proof.
  revert st. induction n as [|n IH]; intros st H0 Hstep; [exact H0|].
  cbn. apply IH.
  - apply Hstep; [lia | exact H0].
  - intros i s Hi. apply Hstep. lia.
Qed.

(** *** The keyboard *)

Lemma keys_new : keys new = map makeKey (seq 0 7).
Proof. reflexivity. Qed.

Lemma keyboard_new : keyboard (keys new).
Proof. reflexivity. Qed.

Lemma keyboard_length ks : keyboard ks -> length ks = 7%nat.
Proof.
  intros H. apply (f_equal length) in H. rewrite !length_map in H.
  exact H.
Qed.

Lemma keyboard_lookup ks k key :
  keyboard ks -> ks !! k = Some key ->
  (k < 7)%nat /\ geometry key = geometry (makeKey k).
Proof.
  intros H Hk.
  assert (Hlen := keyboard_length _ H).
  assert (Hlt : (k < 7)%nat) by (rewrite <- Hlen; eauto using lookup_lt_Some).
  split; [exact Hlt|].
  assert (E : map geometry ks !! k = Some (geometry key))
    by (rewrite list_lookup_fmap, Hk; reflexivity).
  rewrite H, keys_new, list_lookup_fmap, list_lookup_fmap in E.
  rewrite lookup_seq_lt in E by exact Hlt. cbn in E. congruence.
Qed.

Lemma keyboard_alter_hit ks k b time :
  keyboard ks -> keyboard (alter (fun key => with_hit key b (time key)) k ks).
Proof.
  unfold keyboard. intros <-.
  revert k. induction ks as [|key ks IH]; intros [|k]; cbn; try reflexivity.
  f_equal. apply IH.
Qed.

(** The keys do not overlap. *)
Lemma keys_disjoint j k :
  (j < k)%nat -> (k < 7)%nat -> (xlo k <=? xhi j) = false.
Proof.
  intros Hjk Hk.
  do 7 (destruct k as [|k]; [do 7 (destruct j as [|j]; [try lia; reflexivity|]); lia|]).
  lia.
Qed.

Lemma collides_x marble key k :
  geometry key = geometry (makeKey k) ->
  collides marble key = true ->
  (xlo k <=? Vector3.x (position marble)) = true /\
  (Vector3.x (position marble) <=? xhi k) = true.
Proof.
  unfold geometry, collides, xlo, xhi. intros E.
  injection E as -> -> -> _. intros H.
  repeat (apply andb_prop in H; destruct H as [H ?]). auto.
Qed.

(** A marble is over at most one key. *)
Lemma collides_exclusive m m' j k kj kk :
  geometry kj = geometry (makeKey j) -> geometry kk = geometry (makeKey k) ->
  (j < 7)%nat -> (k < 7)%nat -> j <> k ->
  Vector3.x (position m') = Vector3.x (position m) ->
  collides m kk = true -> collides m' kj = false.
Proof.
  intros Ej Ek Hj Hk Hne Hx Hc.
  destruct (collides m' kj) eqn:Hc'; [exfalso|reflexivity].
  destruct (collides_x _ _ _ Ek Hc) as [Hlo Hhi].
  destruct (collides_x _ _ _ Ej Hc') as [Hlo' Hhi']. rewrite Hx in *.
  destruct (decide (j < k)%nat) as [Hlt|Hge].
  - pose proof (FloatFacts.leb_trans _ _ _ Hlo Hhi') as H.
    rewrite keys_disjoint in H by assumption. discriminate.
  - pose proof (FloatFacts.leb_trans _ _ _ Hlo' Hhi) as H.
    rewrite keys_disjoint in H by lia. discriminate.
Qed.

Section WithOracles.

Variable Math_random : nat -> float.
Variable Date_now : nat -> Z.

Abbreviation handleKeyCollision := (handleKeyCollision Math_random Date_now).
Abbreviation checkKey := (checkKey Math_random Date_now).
Abbreviation checkKeyCollisions := (checkKeyCollisions Math_random Date_now).
Abbreviation arrive := (arrive Math_random).
Abbreviation updateMarble := (updateMarble Math_random Date_now).
Abbreviation update := (update Math_random Date_now).

(** *** handleKeyCollision *)

Lemma handleKeyCollision_marbles i k key st :
  keys st !! k = Some key ->
  marbles (handleKeyCollision i k st)
  = alter (struck key (Math_random (randomCalls st))) i (marbles st).
Proof.
  intros Hk. unfold handleKeyCollision. rewrite Hk. cbn.
  rewrite !list_alter_alter_eq. reflexivity.
Qed.

Lemma handleKeyCollision_keys i k key st :
  keys st !! k = Some key ->
  keys (handleKeyCollision i k st)
  = alter (fun key => with_hit key true (Date_now (nowCalls st))) k (keys st).
Proof. intros Hk. unfold handleKeyCollision. rewrite Hk. reflexivity. Qed.

Lemma handleKeyCollision_synthCalls i k key st :
  keys st !! k = Some key ->
  synthCalls (handleKeyCollision i k st)
  = synthCalls st ++
    [(frequency key,
      noteVelocity (alter (nudged key (Math_random (randomCalls st))) i
                          (marbles st)))].
Proof.
  intros Hk. unfold handleKeyCollision, playNote. rewrite Hk.
  cbn [synthCalls marbles set_synthCalls modifyMarble set_marbles
       set_hitEffects createHitEffect set_randomCalls set_nowCalls
       modifyKey set_keys].
  rewrite !list_alter_alter_eq. reflexivity.
Qed.

(** *** checkKeyCollisions *)

Lemma checkKey_miss i j st m :
  marbles st !! i = Some m ->
  (forall key, keys st !! j = Some key -> collides m key = false) ->
  checkKey i j st = st.
Proof.
  intros Hm H. unfold checkKey. rewrite Hm.
  destruct (keys st !! j) as [key|]; [|reflexivity].
  now rewrite (H key eq_refl).
Qed.

(** No key is under the marble: nothing happens. *)
Lemma checkKeyCollisions_miss i st m :
  marbles st !! i = Some m ->
  (forall k key, keys st !! k = Some key -> collides m key = false) ->
  checkKeyCollisions i st = st.
Proof.
  intros Hm H. unfold checkKeyCollisions, countup.
  apply fold_left_fixed. intros j _. apply (checkKey_miss _ _ _ m); eauto.
Qed.

(** Key [k] is under the marble: that collision is handled, and no
    other. *)
Lemma checkKeyCollisions_hit i k st m key :
  keyboard (keys st) ->
  marbles st !! i = Some m ->
  keys st !! k = Some key ->
  collides m key = true ->
  checkKeyCollisions i st = handleKeyCollision i k st.
Proof.
  intros Hkb Hm Hk Hc.
  destruct (keyboard_lookup _ _ _ Hkb Hk) as [Hk7 Ek].
  unfold checkKeyCollisions, countup.
  rewrite (keyboard_length _ Hkb), (seq_split k 7 Hk7), fold_left_app.
  rewrite (fold_left_fixed _ (seq 0 k) st).
  2:{ intros j Hj. apply elem_of_seq in Hj.
      apply (checkKey_miss _ _ _ m Hm). intros kj Hkj.
      destruct (keyboard_lookup _ _ _ Hkb Hkj) as [Hj7 Ej].
      apply (collides_exclusive m m j k kj key); auto; lia. }
  cbn [fold_left]. unfold checkKey at 2. rewrite Hm, Hk, Hc.
  apply fold_left_fixed. intros j Hj. apply elem_of_seq in Hj.
  set (st' := handleKeyCollision i k st).
  assert (Hm' : marbles st' !! i
                = Some (struck key (Math_random (randomCalls st)) m)).
  { unfold st'. rewrite (handleKeyCollision_marbles _ _ key) by exact Hk.
    rewrite list_lookup_alter_eq, Hm. reflexivity. }
  apply (checkKey_miss _ _ _ _ Hm'). intros kj Hkj.
  assert (Hkb' : keyboard (keys st')).
  { unfold st'. rewrite (handleKeyCollision_keys _ _ key) by exact Hk.
    apply (keyboard_alter_hit _ _ true (fun _ => Date_now (nowCalls st))).
    exact Hkb. }
  destruct (keyboard_lookup _ _ _ Hkb' Hkj) as [Hj7 Ej].
  apply (collides_exclusive m _ j k kj key); auto; lia.
Qed.

(** *** arrive *)

Lemma arrive_marbles dt ad i st :
  marbles (arrive dt ad i st)
  = alter (arrival dt ad (Math_random (randomCalls st))
                         (Math_random (S (randomCalls st)))) i (marbles st).
Proof.
  unfold arrive, arrival, applyAudioInfluence, influenced.
  destruct ad as [a|].
  - destruct (0.3 <? getFrequencyLevel (frequencyData a) 10 50); cbn;
      rewrite !list_alter_alter_eq; reflexivity.
  - cbn. rewrite !list_alter_alter_eq. reflexivity.
Qed.

Lemma arrive_keys dt ad i st : keys (arrive dt ad i st) = keys st.
Proof.
  unfold arrive, applyAudioInfluence. destruct ad as [a|];
    [destruct (0.3 <? _)|]; reflexivity.
Qed.

Lemma arrive_synthCalls dt ad i st :
  synthCalls (arrive dt ad i st) = synthCalls st.
Proof.
  unfold arrive, applyAudioInfluence. destruct ad as [a|];
    [destruct (0.3 <? _)|]; reflexivity.
Qed.

Lemma arrival_radius dt ad r1 r2 m : radius (arrival dt ad r1 r2 m) = radius m.
Proof.
  unfold arrival, influenced. destruct ad as [a|];
    [destruct (0.3 <? _)|]; reflexivity.
Qed.

Lemma arrival_isActive dt ad r1 r2 m :
  isActive (arrival dt ad r1 r2 m) = isActive m.
Proof.
  unfold arrival, influenced. destruct ad as [a|];
    [destruct (0.3 <? _)|]; reflexivity.
Qed.

Lemma arrival_bounceCount dt ad r1 r2 m :
  bounceCount (arrival dt ad r1 r2 m) = bounceCount m.
Proof.
  unfold arrival, influenced. destruct ad as [a|];
    [destruct (0.3 <? _)|]; reflexivity.
Qed.

Lemma arrival_ok dt ad r1 r2 m : marble_ok m -> marble_ok (arrival dt ad r1 r2 m).
Proof.
  unfold marble_ok. now rewrite arrival_radius, arrival_isActive.
Qed.

Lemma struck_ok key r m : marble_ok m -> marble_ok (struck key r m).
Proof. exact (fun H => H). Qed.

(** A marble resting on a key is above the floor. *)
Lemma struck_above key k r m :
  geometry key = geometry (makeKey k) -> radius m = 0.3 ->
  belowFloor (struck key r m) = false.
Proof.
  unfold geometry. intros E Hr. injection E as Hp _ Hh _.
  unfold belowFloor, struck, nudged, bounce. cbn. rewrite Hp, Hh, Hr.
  reflexivity.
Qed.

(** A marble below the floor is under every key. *)
Lemma below_misses key k m :
  geometry key = geometry (makeKey k) -> radius m = 0.3 ->
  belowFloor m = true -> collides m key = false.
Proof.
  unfold geometry. intros E Hr Hb. injection E as Hp _ Hh _.
  unfold collides. rewrite Hp, Hh, Hr. cbn.
  destruct (_ <=? Vector3.y (position m)) eqn:Hy;
    [|now rewrite !andb_false_r].
  pose proof (FloatFacts.leb_ltb_trans _ _ _ Hy Hb) as H.
  vm_compute in H. discriminate.
Qed.

Lemma collides_dec m (ks : list XylophoneKey) :
  (exists k key, ks !! k = Some key /\ collides m key = true) \/
  (forall k key, ks !! k = Some key -> collides m key = false).
Proof.
  induction ks as [|key ks [(k & key' & Hk & Hc)|IH]].
  - right. intros k key Hk. discriminate.
  - left. exists (S k), key'. auto.
  - destruct (collides m key) eqn:Hc.
    + left. exists 0%nat, key. auto.
    + right. intros [|k] key' Hk; [injection Hk as <-; exact Hc|].
      exact (IH k key' Hk).
Qed.

(** *** updateMarble *)

Lemma delete_alter {A} (f : A -> A) i (l : list A) :
  delete i (alter f i l) = delete i l.
Proof.
  revert i. induction l as [|a l IH]; intros [|i]; cbn; try reflexivity.
  f_equal. apply IH.
Qed.

(** The marble of the loop body arrives over no key: it moves, and is
    retired if it is below the floor. *)
Lemma updateMarble_miss dt ad i st m0 :
  marbles st !! i = Some m0 -> isActive m0 = true ->
  let m := arrival dt ad (Math_random (randomCalls st))
             (Math_random (S (randomCalls st))) m0 in
  (forall k key, keys st !! k = Some key -> collides m key = false) ->
  updateMarble dt ad i st
  = let s := pushTrail (position m)
               (modifyMesh i (moveMesh dt m) (arrive dt ad i st)) in
    if belowFloor m then retire i s else s.
Proof.
  intros Hm Ha m Hmiss. unfold updateMarble. rewrite Hm, Ha. cbn [negb].
  assert (Hm1 : marbles (arrive dt ad i st) !! i = Some m).
  { rewrite arrive_marbles, list_lookup_alter_eq, Hm. reflexivity. }
  rewrite (checkKeyCollisions_miss _ _ m Hm1)
    by (rewrite arrive_keys; exact Hmiss).
  rewrite Hm1. reflexivity.
Qed.

(** The marble arrives over key [k]: it bounces and stays. *)
Lemma updateMarble_hit dt ad i k st m0 key :
  inv st ->
  marbles st !! i = Some m0 ->
  let m := arrival dt ad (Math_random (randomCalls st))
             (Math_random (S (randomCalls st))) m0 in
  keys st !! k = Some key -> collides m key = true ->
  updateMarble dt ad i st
  = let s := arrive dt ad i st in
    let m' := struck key (Math_random (randomCalls s)) m in
    pushTrail (position m')
      (modifyMesh i (moveMesh dt m') (handleKeyCollision i k s)).
Proof.
  intros [Hkb Hok] Hm m Hk Hc.
  destruct (Forall_lookup_1 _ _ _ _ Hok Hm) as [Hr Ha].
  destruct (keyboard_lookup _ _ _ Hkb Hk) as [_ Ek].
  unfold updateMarble. rewrite Hm, Ha. cbn [negb].
  assert (Hm1 : marbles (arrive dt ad i st) !! i = Some m).
  { rewrite arrive_marbles, list_lookup_alter_eq, Hm. reflexivity. }
  assert (Hk1 : keys (arrive dt ad i st) !! k = Some key)
    by (rewrite arrive_keys; exact Hk).
  rewrite (checkKeyCollisions_hit _ k _ m key); auto.
  2:{ rewrite arrive_keys. exact Hkb. }
  rewrite (handleKeyCollision_marbles _ _ key) by exact Hk1.
  rewrite list_lookup_alter_eq, Hm1. cbn [fmap option_fmap option_map].
  change (Vector3.y (position ?x) <? -10) with (belowFloor x).
  rewrite (struck_above key k)
    by (auto; unfold m; rewrite arrival_radius; exact Hr).
  reflexivity.
Qed.

(** *** The invariant *)

Lemma inv_new : inv new.
Proof. split; [reflexivity | constructor]. Qed.

Lemma inv_createMarble h st : inv st -> inv (createMarble Math_random h st).
Proof.
  intros [Hkb Hok]. split; [exact Hkb|]. cbn.
  apply Forall_app. split; [exact Hok|]. repeat constructor.
Qed.

Lemma inv_spawnMarbleFromAudio v b st :
  inv st -> inv (spawnMarbleFromAudio Math_random v b st).
Proof.
  intros H. unfold spawnMarbleFromAudio.
  destruct (_ && _); [apply inv_createMarble|]; exact H.
Qed.

Lemma inv_clearMarbles st : inv st -> inv (clearMarbles st).
Proof. intros [Hkb _]. split; [exact Hkb | constructor]. Qed.

Lemma inv_updateMarble dt ad i st : inv st -> inv (updateMarble dt ad i st).
Proof.
  intros Hinv. pose proof Hinv as [Hkb Hok].
  destruct (marbles st !! i) as [m0|] eqn:Hm;
    [|unfold updateMarble; rewrite Hm; exact Hinv].
  destruct (Forall_lookup_1 _ _ _ _ Hok Hm) as [Hr Ha].
  set (m := arrival dt ad (Math_random (randomCalls st))
              (Math_random (S (randomCalls st))) m0).
  assert (Hok1 : Forall marble_ok (marbles (arrive dt ad i st))).
  { rewrite arrive_marbles. apply Forall_alter; [exact Hok|].
    intros x _. apply arrival_ok. }
  destruct (collides_dec m (keys st)) as [(k & key & Hk & Hc)|Hmiss].
  - rewrite (updateMarble_hit dt ad i k st m0 key) by assumption.
    assert (Hk1 : keys (arrive dt ad i st) !! k = Some key)
      by (rewrite arrive_keys; exact Hk).
    split; cbv zeta; unfold pushTrail, modifyMesh;
      cbn [keys marbles set_trailPoints set_marbleMeshes].
    + rewrite (handleKeyCollision_keys _ _ key), arrive_keys by exact Hk1.
      apply (keyboard_alter_hit _ _ true (fun _ => Date_now (nowCalls _))).
      exact Hkb.
    + rewrite (handleKeyCollision_marbles _ _ key) by exact Hk1.
      apply Forall_alter; [exact Hok1|]. intros x _ H. exact H.
  - rewrite (updateMarble_miss dt ad i st m0) by assumption.
    fold m. cbv zeta. unfold pushTrail, modifyMesh, retire, modifyMarble.
    destruct (belowFloor m); split;
      cbn [keys marbles set_trailPoints set_marbleMeshes set_marbles];
      rewrite ?arrive_keys; auto.
    rewrite delete_alter. apply Forall_delete. exact Hok1.
Qed.

Lemma fold_left_preserves {S A} (P : S -> Prop) (f : S -> A -> S) l s :
  (forall s a, P s -> P (f s a)) -> P s -> P (fold_left f l s).
Proof.
  intros Hf. revert s. induction l as [|a l IH]; intros s Hs; [exact Hs|].
  cbn. apply IH, Hf, Hs.
Qed.

Lemma animateKey_marbles i st : marbles (animateKey Date_now i st) = marbles st.
Proof.
  unfold animateKey. destruct (keys st !! i) as [key|]; [|reflexivity].
  destruct (isHit key); [|reflexivity].
  destruct (500 <? _)%Z; reflexivity.
Qed.

Lemma animateKey_keyboard i st :
  keyboard (keys st) -> keyboard (keys (animateKey Date_now i st)).
Proof.
  intros H. unfold animateKey. destruct (keys st !! i) as [key|]; [|exact H].
  destruct (isHit key); [|exact H].
  destruct (500 <? _)%Z; [|exact H]. cbn.
  apply (keyboard_alter_hit _ _ false hitTime). exact H.
Qed.

Lemma update_marbles dt ad st :
  marbles (update dt ad st)
  = marbles (countdown (length (marbles st)) (updateMarble dt ad) st).
Proof.
  unfold update, updateKeyAnimations, countup.
  set (s := updateTrail _).
  transitivity (marbles s).
  - apply (fold_left_preserves (fun x => marbles x = marbles s)); [|reflexivity].
    intros x a <-. apply animateKey_marbles.
  - unfold s, updateTrail. destruct (1 <? _)%nat; reflexivity.
Qed.

Lemma inv_update dt ad st : inv st -> inv (update dt ad st).
Proof.
  intros Hinv.
  assert (H1 : inv (countdown (length (marbles st)) (updateMarble dt ad) st)).
  { apply (countdown_ind (fun _ s => inv s)); [exact Hinv|].
    intros i s _. apply inv_updateMarble. }
  unfold update, updateKeyAnimations, countup.
  apply fold_left_preserves.
  - intros s a [Hkb Hok]. split; [now apply animateKey_keyboard|].
    now rewrite animateKey_marbles.
  - unfold updateTrail. destruct (1 <? _)%nat; exact H1.
Qed.

Lemma animateKey_synthCalls i st :
  synthCalls (animateKey Date_now i st) = synthCalls st.
Proof.
  unfold animateKey. destruct (keys st !! i) as [key|]; [|reflexivity].
  destruct (isHit key); [|reflexivity].
  destruct (500 <? _)%Z; reflexivity.
Qed.

Lemma update_synthCalls dt ad st :
  synthCalls (update dt ad st)
  = synthCalls (countdown (length (marbles st)) (updateMarble dt ad) st).
Proof.
  unfold update, updateKeyAnimations, countup.
  set (s := updateTrail _).
  transitivity (synthCalls s).
  - apply (fold_left_preserves (fun x => synthCalls x = synthCalls s));
      [|reflexivity].
    intros x a <-. apply animateKey_synthCalls.
  - unfold s, updateTrail. destruct (1 <? _)%nat; reflexivity.
Qed.

(** *** One round of the loop, seen from the array of marbles *)

Lemma alter_insert {A} (f : A -> A) i (l : list A) a :
  l !! i = Some a -> alter f i l = <[i := f a]> l.
Proof.
  intros H. rewrite list_insert_alter. apply list_alter_ext; [|reflexivity].
  intros x Hx. congruence.
Qed.

(** The marble arrives below the floor: it leaves the array. *)
Lemma updateMarble_retires dt ad i st m0 :
  inv st -> marbles st !! i = Some m0 ->
  belowFloor (arrival dt ad (Math_random (randomCalls st))
                (Math_random (S (randomCalls st))) m0) = true ->
  marbles (updateMarble dt ad i st) = delete i (marbles st) /\
  marbleMeshes (updateMarble dt ad i st) = delete i (marbleMeshes st).
Proof.
  intros [Hkb Hok] Hm Hb.
  destruct (Forall_lookup_1 _ _ _ _ Hok Hm) as [Hr Ha].
  rewrite (updateMarble_miss dt ad i st m0 Hm Ha).
  - cbv zeta. rewrite Hb. unfold retire, pushTrail, modifyMesh, modifyMarble.
    cbn [marbles marbleMeshes set_trailPoints set_marbleMeshes set_marbles].
    rewrite !delete_alter, arrive_marbles, delete_alter. split; [reflexivity|].
    f_equal. unfold arrive, applyAudioInfluence.
    destruct ad as [a|]; [destruct (0.3 <? _)|]; reflexivity.
  - intros k key Hk. destruct (keyboard_lookup _ _ _ Hkb Hk) as [_ Ek].
    apply (below_misses key k); auto. now rewrite arrival_radius.
Qed.

(** Otherwise it stays, in its place, and is not below the floor. *)
Lemma updateMarble_stays dt ad i st m0 :
  inv st -> marbles st !! i = Some m0 ->
  belowFloor (arrival dt ad (Math_random (randomCalls st))
                (Math_random (S (randomCalls st))) m0) = false ->
  exists m', marbles (updateMarble dt ad i st) = <[i := m']> (marbles st) /\
             belowFloor m' = false.
Proof.
  intros Hinv Hm Hb. pose proof Hinv as [Hkb Hok].
  destruct (Forall_lookup_1 _ _ _ _ Hok Hm) as [Hr Ha].
  set (m := arrival dt ad _ _ m0) in *.
  destruct (collides_dec m (keys st)) as [(k & key & Hk & Hc)|Hmiss].
  - destruct (keyboard_lookup _ _ _ Hkb Hk) as [_ Ek].
    rewrite (updateMarble_hit dt ad i k st m0 key) by assumption.
    exists (struck key (Math_random (randomCalls (arrive dt ad i st))) m).
    split.
    + cbv zeta. unfold pushTrail, modifyMesh.
      cbn [marbles set_trailPoints set_marbleMeshes].
      rewrite (handleKeyCollision_marbles _ _ key)
        by (rewrite arrive_keys; exact Hk).
      rewrite arrive_marbles, list_alter_alter_eq.
      rewrite (alter_insert _ i _ m0 Hm). reflexivity.
    + apply (struck_above key k); auto. unfold m.
      now rewrite arrival_radius.
  - rewrite (updateMarble_miss dt ad i st m0) by assumption.
    exists m. split; [|exact Hb]. fold m. cbv zeta. rewrite Hb.
    unfold pushTrail, modifyMesh.
    cbn [marbles set_trailPoints set_marbleMeshes].
    rewrite arrive_marbles, (alter_insert _ i _ m0 Hm). reflexivity.
Qed.

(** The array shrinks by one for every marble that arrives below the
    floor, and not otherwise. *)
Lemma countdown_retirements dt ad n st :
  inv st -> (n <= length (marbles st))%nat ->
  (length (marbles (countdown n (updateMarble dt ad) st))
   + retirements Math_random Date_now dt ad n st)%nat
  = length (marbles st).
Proof.
  revert st. induction n as [|n IH]; intros st Hinv Hn; cbn; [lia|].
  destruct (lookup_lt_is_Some_2 (marbles st) n Hn) as [m0 Hm].
  pose proof (inv_updateMarble dt ad n st Hinv) as Hinv1.
  unfold arrivesBelow. rewrite Hm.
  destruct (belowFloor _) eqn:Hb.
  - destruct (updateMarble_retires dt ad n st m0 Hinv Hm Hb) as [E _].
    assert (Hl : length (marbles (updateMarble dt ad n st))
                 = (length (marbles st) - 1)%nat)
      by (rewrite E; apply length_delete; eauto).
    specialize (IH _ Hinv1). lia.
  - destruct (updateMarble_stays dt ad n st m0 Hinv Hm Hb) as (m' & E & _).
    assert (Hl : length (marbles (updateMarble dt ad n st))
                 = length (marbles st))
      by (rewrite E; apply length_insert).
    specialize (IH _ Hinv1). lia.
Qed.

(** After the loop no marble of the array is below the floor. *)
Lemma countdown_above dt ad st :
  inv st ->
  Forall (fun m => belowFloor m = false)
         (marbles (countdown (length (marbles st)) (updateMarble dt ad) st)).
Proof.
  intros Hinv.
  refine (proj2 (proj2 (countdown_ind
    (fun i s => inv s /\ (i <= length (marbles s))%nat /\
                Forall (fun m => belowFloor m = false) (drop i (marbles s)))
    (updateMarble dt ad) (length (marbles st)) st _ _))).
  - split; [exact Hinv|]. split; [lia|]. rewrite drop_all. constructor.
  - intros i s Hi (Hs & Hlen & Hall).
    destruct (lookup_lt_is_Some_2 (marbles s) i Hlen) as [m0 Hm].
    split; [now apply inv_updateMarble|].
    destruct (belowFloor (arrival dt ad (Math_random (randomCalls s))
                (Math_random (S (randomCalls s))) m0)) eqn:Hb.
    + destruct (updateMarble_retires dt ad i s m0 Hs Hm Hb) as [E _].
      rewrite E. split.
      * rewrite length_delete by eauto. lia.
      * rewrite delete_take_drop, drop_app_length'; [exact Hall|].
        rewrite length_take. lia.
    + destruct (updateMarble_stays dt ad i s m0 Hs Hm Hb) as (m' & E & Hb').
      rewrite E, length_insert. split; [lia|].
      rewrite (drop_S _ m' i) by (apply list_lookup_insert_eq; lia).
      constructor; [exact Hb'|].
      rewrite drop_insert_lt by lia. exact Hall.
Qed.

End WithOracles.

End MarbleFacts.


(** ** Properties of the marble physics *)

Module MarbleClaims.

Import MarblePhysics MarbleFacts.
Local Open Scope float_scope.

#[local] Arguments getFrequencyLevel : simpl never.

Section WithOracles.

Variable Math_random : nat -> float.
Variable Date_now : nat -> Z.

Abbreviation updateMarble := (updateMarble Math_random Date_now).
Abbreviation update := (update Math_random Date_now).
Abbreviation checkKeyCollisions := (checkKeyCollisions Math_random Date_now).
Abbreviation handleKeyCollision := (handleKeyCollision Math_random Date_now).

Lemma collides_geometry m key key' :
  geometry key = geometry key' -> collides m key = collides m key'.
Proof.
  unfold geometry, collides. intros E. injection E as -> -> -> _. reflexivity.
Qed.

Lemma clear_misses m ks :
  keyboard ks ->
  forallb (fun key => negb (collides m key)) (keys new) = true ->
  forall k key, ks !! k = Some key -> collides m key = false.
Proof.
  intros Hkb Hall k key Hk.
  destruct (keyboard_lookup _ _ _ Hkb Hk) as [Hk7 Ek].
  rewrite (collides_geometry _ _ _ Ek).
  rewrite forallb_forall in Hall.
  apply negb_true_iff, Hall, list_elem_of_In.
  rewrite keys_new. apply list_elem_of_fmap. exists k. split; [reflexivity|].
  apply elem_of_seq. lia.
Qed.

(** One step of a single marble that meets neither a key nor the floor. *)
Lemma update_single_clear dt st m :
  inv st -> marbles st = [m] -> clearPath dt 1 m = true ->
  marbles (update dt None st) = [fall dt 1 m].
Proof.
  intros Hinv Hm Hclear. pose proof Hinv as [Hkb Hok].
  rewrite update_marbles, Hm. cbn [length countdown].
  assert (Hm0 : marbles st !! 0%nat = Some m) by (rewrite Hm; reflexivity).
  assert (Ha : isActive m = true).
  { rewrite Hm in Hok. apply Forall_cons in Hok. apply Hok. }
  cbn [clearPath] in Hclear. rewrite andb_true_r in Hclear.
  apply andb_prop in Hclear as [Hkeys Hfloor].
  apply negb_true_iff in Hfloor.
  rewrite (updateMarble_miss Math_random Date_now dt None 0 st m Hm0 Ha).
  - cbv zeta.
    change (arrival dt None _ _ m) with (arrival dt None 0 0 m).
    rewrite Hfloor. unfold pushTrail, modifyMesh.
    cbn [marbles set_trailPoints set_marbleMeshes].
    rewrite arrive_marbles, Hm. reflexivity.
  - apply (clear_misses _ _ Hkb). exact Hkeys.
Qed.

Lemma update_fall dt n : forall st m,
  inv st -> marbles st = [m] -> clearPath dt n m = true ->
  marbles (Nat.iter n (update dt None) st) = [fall dt n m].
Proof.
  induction n as [|n IH]; intros st m Hinv Hm Hclear; [exact Hm|].
  rewrite Nat.iter_succ_r. unfold fall. rewrite Nat.iter_succ_r.
  cbn [clearPath] in Hclear. apply andb_prop in Hclear as [H1 Hrest].
  apply IH; [now apply inv_update| |exact Hrest].
  apply update_single_clear; auto. cbn [clearPath]. now rewrite H1.
Qed.

Lemma fall_velocity dt n m :
  Vector3.y (velocity (fall dt n m))
  = fallVelocity dt n (Vector3.y (velocity m)).
Proof.
  induction n as [|n IH]; [reflexivity|].
  unfold fall, fallVelocity in *. rewrite !Nat.iter_succ, <- IH. reflexivity.
Qed.

Lemma arrive_lookup dt ad i st m :
  marbles (arrive Math_random dt ad i st) !! i = Some m ->
  exists m0, marbles st !! i = Some m0 /\
    m = arrival dt ad (Math_random (randomCalls st))
          (Math_random (S (randomCalls st))) m0.
Proof.
  rewrite arrive_marbles, list_lookup_alter_eq.
  destruct (marbles st !! i) as [m0|]; [|discriminate].
  intros [= <-]. eauto.
Qed.

Lemma last_alter {A} (f : A -> A) i (l : list A) :
  S i = length l -> last (alter f i l) = f <$> l !! i.
Proof.
  intros H. rewrite last_lookup, length_alter, <- H. cbn [Init.Nat.pred].
  apply list_lookup_alter_eq.
Qed.

Lemma geometry_frequency key key' :
  geometry key = geometry key' -> frequency key = frequency key'.
Proof. intros E. exact (f_equal snd E). Qed.

(** The seven frequencies are different. *)
Lemma frequencies_distinct j k :
  (j < 7)%nat -> (k < 7)%nat -> j <> k ->
  frequency (makeKey j) <> frequency (makeKey k).
Proof.
  intros Hj Hk Hne.
  destruct (decide (j < k)%nat).
  - apply FloatFacts.ltb_neq.
    do 7 (destruct k as [|k];
          [do 7 (destruct j as [|j]; [try lia; reflexivity|]); lia|]).
    lia.
  - apply not_eq_sym, FloatFacts.ltb_neq.
    do 7 (destruct j as [|j];
          [do 7 (destruct k as [|k]; [try lia; reflexivity|]); lia|]).
    lia.
Qed.

(** C1 (as amended).  When the marble that strikes a key is the last
    marble of the array, [playNote] is called on the synthesizer with
    that key's fixed frequency and with velocity [min(1, |w| / 10)],
    where [w = |v| * 0.7] is the marble's vertical velocity after the
    bounce ([v] the vertical velocity it arrived with), read as 0 when it
    is 0 or NaN; with a single marble this is the one call of the whole
    step. *)
Theorem C1_note_velocity_after_bounce dt ad i k st m key :
  inv st ->
  S i = length (marbles st) ->
  marbles (arrive Math_random dt ad i st) !! i = Some m ->
  keys st !! k = Some key ->
  collides m key = true ->
  let note :=
    (frequency (makeKey k),
     JS.Math_min 1
       (JS.Math_abs
          (JS.or_else (JS.Math_abs (Vector3.y (velocity m)) * 0.7) 0) / 10)) in
  synthCalls (updateMarble dt ad i st) = synthCalls st ++ [note] /\
  (length (marbles st) = 1%nat ->
   synthCalls (update dt ad st) = synthCalls st ++ [note]).
Proof.
  intros Hinv Hlast Hm Hk Hc note. pose proof Hinv as [Hkb Hok].
  assert (Hround : synthCalls (updateMarble dt ad i st) = synthCalls st ++ [note]).
  { destruct (arrive_lookup _ _ _ _ _ Hm) as (m0 & Hm0 & ->).
    destruct (keyboard_lookup _ _ _ Hkb Hk) as [_ Ek].
    rewrite (updateMarble_hit Math_random Date_now dt ad i k st m0 key)
      by assumption.
    cbv zeta. unfold pushTrail, modifyMesh.
    cbn [synthCalls set_trailPoints set_marbleMeshes].
    rewrite (handleKeyCollision_synthCalls _ _ _ _ key)
      by (rewrite arrive_keys; exact Hk).
    rewrite arrive_synthCalls. unfold note. f_equal. f_equal. f_equal.
    - apply geometry_frequency, Ek.
    - unfold noteVelocity.
      rewrite last_alter by (rewrite arrive_marbles, length_alter; exact Hlast).
      rewrite Hm. reflexivity. }
  split; [exact Hround|]. intros Hone.
  rewrite update_synthCalls, Hone. cbn [countdown].
  replace i with 0%nat in Hround by lia. exact Hround.
Qed.

(** When the striking marble is not the last of the array, the velocity of
    the note is computed from the last marble, which the strike has not
    touched. *)
Lemma note_velocity_reads_last_marble dt ad i k st m key :
  inv st ->
  (S i < length (marbles st))%nat ->
  marbles (arrive Math_random dt ad i st) !! i = Some m ->
  keys st !! k = Some key ->
  collides m key = true ->
  synthCalls (updateMarble dt ad i st)
  = synthCalls st ++ [(frequency (makeKey k), noteVelocity (marbles st))].
Proof.
  intros Hinv Hlast Hm Hk Hc. pose proof Hinv as [Hkb Hok].
  destruct (arrive_lookup _ _ _ _ _ Hm) as (m0 & Hm0 & ->).
  destruct (keyboard_lookup _ _ _ Hkb Hk) as [_ Ek].
  rewrite (updateMarble_hit Math_random Date_now dt ad i k st m0 key)
    by assumption.
  cbv zeta. unfold pushTrail, modifyMesh.
  cbn [synthCalls set_trailPoints set_marbleMeshes].
  rewrite (handleKeyCollision_synthCalls _ _ _ _ key)
    by (rewrite arrive_keys; exact Hk).
  rewrite arrive_synthCalls. f_equal. f_equal. f_equal.
  - apply geometry_frequency, Ek.
  - unfold noteVelocity. rewrite arrive_marbles, list_alter_alter_eq.
    rewrite !last_lookup, length_alter, list_lookup_alter_ne by lia.
    reflexivity.
Qed.

(** C3 (as amended).  The collision test of a marble against a key
    succeeds, and the key's note is played, exactly when the marble's
    centre lies within the key's extent on X and within the key's extent
    widened by the radius on Y; the radius does not enter the X test, and
    the Z coordinates enter neither. *)
Theorem C3_collision_test_uses_centre_on_x i k st m key :
  keyboard (keys st) ->
  marbles st !! i = Some m ->
  keys st !! k = Some key ->
  let px := Vector3.x (position m) in
  let py := Vector3.y (position m) in
  let kx := Vector3.x (key_position key) in
  let ky := Vector3.y (key_position key) in
  ((kx - width key / 2 <=? px) && (px <=? kx + width key / 2)
   && (py <=? ky + height key / 2 + radius m)
   && (ky - height key / 2 - radius m <=? py) = true
   <-> exists v, synthCalls (checkKeyCollisions i st)
                 = synthCalls st ++ [(frequency key, v)])
  /\ (forall pz kz d,
        collides (with_position m (Vector3.with_z (position m) pz))
                 (mkKey (Vector3.with_z (key_position key) kz) (width key)
                        (height key) d (note key) (frequency key)
                        (color key) (isHit key) (hitTime key))
        = collides m key).
Proof.
  intros Hkb Hm Hk px py kx ky. split; [|reflexivity].
  change (_ && _ && _ && _) with (collides m key).
  destruct (keyboard_lookup _ _ _ Hkb Hk) as [Hk7 Ek].
  split.
  - intros Hc.
    rewrite (checkKeyCollisions_hit Math_random Date_now i k st m key)
      by assumption.
    rewrite (handleKeyCollision_synthCalls _ _ _ _ key) by exact Hk.
    eauto.
  - intros [v Hv].
    destruct (collides m key) eqn:Hc; [reflexivity|exfalso].
    destruct (collides_dec m (keys st)) as [(k' & key' & Hk' & Hc')|Hmiss].
    + destruct (keyboard_lookup _ _ _ Hkb Hk') as [Hk7' Ek'].
      rewrite (checkKeyCollisions_hit Math_random Date_now i k' st m key')
        in Hv by assumption.
      rewrite (handleKeyCollision_synthCalls _ _ _ _ key') in Hv by exact Hk'.
      apply app_inv_head in Hv. injection Hv as Hf _.
      assert (k' <> k) by (intros ->; congruence).
      apply (frequencies_distinct k' k); auto.
      rewrite <- (geometry_frequency _ _ Ek), <- (geometry_frequency _ _ Ek').
      exact Hf.
    + rewrite (checkKeyCollisions_miss Math_random Date_now i st m) in Hv
        by assumption.
      apply (f_equal length) in Hv. rewrite length_app in Hv. cbn in Hv. lia.
Qed.

(** C4.  After a marble collides with a key in a step, its [position.y]
    is [key.position.y + key.height / 2 + marble.radius], its vertical
    velocity is the absolute value of the velocity it arrived with times
    0.7, and its [bounceCount] has grown by one; this is the marble's state
    at the end of its round, and, for a single marble, at the end of the
    step. *)
Theorem C4_bounce dt ad i k st m key :
  inv st ->
  marbles (arrive Math_random dt ad i st) !! i = Some m ->
  keys st !! k = Some key ->
  collides m key = true ->
  exists m',
    marbles (updateMarble dt ad i st) !! i = Some m' /\
    Vector3.y (position m')
    = Vector3.y (key_position key) + height key / 2 + radius m /\
    Vector3.y (velocity m') = JS.Math_abs (Vector3.y (velocity m)) * 0.7 /\
    bounceCount m' = S (bounceCount m) /\
    (length (marbles st) = 1%nat -> marbles (update dt ad st) = [m']).
Proof.
  intros Hinv Hm Hk Hc.
  destruct (arrive_lookup _ _ _ _ _ Hm) as (m0 & Hm0 & ->).
  set (m := arrival dt ad _ _ m0) in *.
  set (m' := struck key (Math_random (randomCalls (arrive Math_random dt ad i st))) m).
  assert (Hround : marbles (updateMarble dt ad i st)
                   = alter (fun _ => m') i (marbles st)).
  { rewrite (updateMarble_hit Math_random Date_now dt ad i k st m0 key)
      by assumption.
    cbv zeta. unfold pushTrail, modifyMesh.
    cbn [marbles set_trailPoints set_marbleMeshes].
    rewrite (handleKeyCollision_marbles _ _ _ _ key)
      by (rewrite arrive_keys; exact Hk).
    rewrite arrive_marbles, list_alter_alter_eq.
    apply list_alter_ext; [|reflexivity]. intros x Hx.
    assert (x = m0) as -> by congruence. reflexivity. }
  exists m'. split; [|repeat split].
  - rewrite Hround, list_lookup_alter_eq, Hm0. reflexivity.
  - intros Hone. rewrite update_marbles, Hone. cbn [countdown].
    assert (i = 0%nat) as -> by (apply lookup_lt_Some in Hm0; lia).
    rewrite Hround. destruct (marbles st) as [|x [|y l]]; try discriminate.
    reflexivity.
Qed.

(** C5 (as amended).  Each step takes a marble from velocity [v] and
    position [p] to [v' = (v + a * dt) * 0.98] and [p' = p + v' * dt].  For
    a single marble without audio that meets neither a key nor the floor,
    the vertical velocity after [n] steps is the [n]-fold iterate of
    [v' = (v + (-9.8) * dt) * 0.98]: the recurrence itself, for which
    [-9.8 * t * 0.98^n] is not a closed form. *)
Theorem C5_discrete_recurrence dt n st m :
  inv st ->
  marbles st = [m] ->
  clearPath dt n m = true ->
  (forall m1,
     velocity (integrate dt m1)
     = Vector3.multiplyScalar
         (Vector3.add (velocity m1)
            (Vector3.multiplyScalar (acceleration m1) dt)) 0.98 /\
     position (integrate dt m1)
     = Vector3.add (position m1)
         (Vector3.multiplyScalar (velocity (integrate dt m1)) dt)) /\
  (forall ad i s,
     marbles (arrive Math_random dt ad i s)
     = alter (arrival dt ad (Math_random (randomCalls s))
                (Math_random (S (randomCalls s)))) i (marbles s)) /\
  marbles (Nat.iter n (update dt None) st) = [fall dt n m] /\
  Vector3.y (velocity (fall dt n m))
  = fallVelocity dt n (Vector3.y (velocity m)).
Proof.
  intros Hinv Hm Hclear. split; [|split; [|split]].
  - intros m1. split; reflexivity.
  - intros ad i s. apply arrive_marbles.
  - now apply update_fall.
  - apply fall_velocity.
Qed.

(** C7.  A marble that arrives below -10 in its round of the step leaves
    the array, and its mesh the mesh array, in that round; over the whole
    step the array shrinks by exactly the number of such marbles, and no
    marble left in the array is below -10; no number of further steps makes
    the array grow again.  The states meant are those the public methods
    produce. *)
Theorem C7_retirement dt ad st :
  inv st ->
  (forall i m,
     marbles (arrive Math_random dt ad i st) !! i = Some m ->
     belowFloor m = true ->
     marbles (updateMarble dt ad i st) = delete i (marbles st) /\
     marbleMeshes (updateMarble dt ad i st) = delete i (marbleMeshes st) /\
     S (length (marbles (updateMarble dt ad i st))) = length (marbles st)) /\
  (length (marbles (update dt ad st))
   + retirements Math_random Date_now dt ad (length (marbles st)) st)%nat
  = length (marbles st) /\
  Forall (fun m => belowFloor m = false) (marbles (update dt ad st)) /\
  (forall n, (length (marbles (Nat.iter n (update dt ad) st))
              <= length (marbles st))%nat) /\
  inv (update dt ad st).
Proof.
  intros Hinv. split; [|split; [|split; [|split]]].
  - intros i m Hm Hb.
    destruct (arrive_lookup _ _ _ _ _ Hm) as (m0 & Hm0 & ->).
    destruct (updateMarble_retires Math_random Date_now dt ad i st m0
                Hinv Hm0 Hb) as [E1 E2].
    split; [exact E1|]. split; [exact E2|].
    rewrite E1, length_delete by eauto.
    apply lookup_lt_Some in Hm0. lia.
  - rewrite update_marbles. now apply countdown_retirements.
  - rewrite update_marbles. now apply countdown_above.
  - intros n. induction n as [|n IH]; [reflexivity|].
    rewrite Nat.iter_succ.
    assert (Hn : inv (Nat.iter n (update dt ad) st))
      by (clear IH; induction n; [exact Hinv | now apply inv_update]).
    pose proof (countdown_retirements Math_random Date_now dt ad _ _ Hn
                  (Nat.le_refl _)) as H.
    rewrite <- update_marbles in H. lia.
  - now apply inv_update.
Qed.

(** The bass band of an array of fewer than ten values is empty. *)
Lemma short_band (data : list float) :
  (length data < 10)%nat ->
  JS.Math_floor ((0 / 100) * JS.length_of data) = 0 /\
  JS.Math_floor ((10 / 100) * JS.length_of data) = 0 /\
  getFrequencyLevel data 0 10 = nan.
Proof.
  intros H.
  do 10 (destruct data as [|? data]; [repeat split; reflexivity|]).
  cbn in H. lia.
Qed.

Lemma empty_bands :
  getFrequencyLevel [] 10 50 = nan /\ getFrequencyLevel [] 50 100 = nan.
Proof. split; reflexivity. Qed.

(** C10.  For audio data with fewer than ten frequency values the bass
    band is empty: start and end index are both 0, the level is 0 / 0, a
    NaN and so not a non-negative number, and [applyAudioInfluence] adds it
    into the marble's horizontal velocity, which becomes NaN; for the
    empty array the treble level and the third velocity component are NaN
    as well. *)
Theorem C10_short_frequency_data_gives_NaN i st m data vol :
  (length data < 10)%nat ->
  marbles st !! i = Some m ->
  JS.Math_floor ((10 / 100) * JS.length_of data)
  - JS.Math_floor ((0 / 100) * JS.length_of data) = 0 /\
  getFrequencyLevel data 0 10 = nan /\
  (0 <=? getFrequencyLevel data 0 10) = false /\
  (exists m',
     marbles (applyAudioInfluence Math_random i (mkAudioInput data vol) st) !! i
     = Some m' /\
     Vector3.x (velocity m') = nan /\
     (data = [] -> Vector3.z (velocity m') = nan)).
Proof.
  intros Hlen Hm. destruct (short_band data Hlen) as (E0 & E10 & Enan).
  split; [rewrite E0, E10; reflexivity|].
  split; [exact Enan|]. split; [rewrite Enan; reflexivity|].
  unfold applyAudioInfluence. cbn [frequencyData]. rewrite Enan.
  destruct (0.3 <? getFrequencyLevel data 10 50);
    cbn [marbles modifyMarble set_marbles set_randomCalls randomCalls];
    rewrite !list_alter_alter_eq, list_lookup_alter_eq, Hm;
    cbn [fmap option_fmap option_map]; eexists; (split; [reflexivity|]);
    cbn; rewrite FloatFacts.mul_nan_r, FloatFacts.mul_nan_l,
           FloatFacts.add_nan_r; (split; [reflexivity|]);
    intros ->; destruct empty_bands as [_ ->];
    now rewrite FloatFacts.mul_nan_r, FloatFacts.mul_nan_l,
          FloatFacts.add_nan_r.
Qed.

End WithOracles.

End MarbleClaims.


(** ** Properties of the audio analyzer *)

Module AnalyzerClaims.

Import AudioAnalyzer.
Local Open Scope float_scope.

Lemma blank_new outcome : blank (new outcome).
Proof.
  destruct outcome; split; cbn; intros; try discriminate; auto.
  repeat match goal with H : Some _ = Some _ |- _ => injection H as <- end.
  repeat split; eauto.
Qed.

Lemma blank_initAudioContext outcome a :
  audioContext a = false -> blank a -> blank (initAudioContext outcome a).
Proof.
  intros Hc [H1 H2]. destruct (H1 Hc) as (Hs & Hp & Hf).
  destruct a as [c an f w s g p id]. cbn in *. subst.
  destruct outcome; split; cbn; intros; try discriminate; auto.
  repeat match goal with H : Some _ = Some _ |- _ => injection H as <- end.
  repeat split; eauto.
Qed.

(** [stop] on the fields other than [animationId]. *)
Lemma stop_fields a :
  audioContext (stop a) = audioContext a /\ analyser (stop a) = analyser a /\
  frequencyData (stop a) = frequencyData a /\
  timeDomainData (stop a) = timeDomainData a /\ source (stop a) = None /\
  gainNode (stop a) = gainNode a /\ isPlaying (stop a) = false.
Proof.
  unfold stop, stopAnalysis. cbn [animationId].
  destruct (animationId a) as [[|id]|]; repeat split; reflexivity.
Qed.

Lemma blank_stop a : blank a -> blank (stop a).
Proof.
  intros [H1 H2]. destruct a as [c an f w s g p [[|id]|]]. all: cbn in *.
  all: split; cbn.
  all: try (intros Hc; destruct (H1 Hc) as (_ & _ & Hf); auto).
  all: intros f' w' -> ->;
    destruct (H2 _ _ eq_refl eq_refl) as (? & ? & _ & _ & ?); auto.
Qed.

Lemma blank_pause a : blank a -> blank (pause a).
Proof.
  intros Hb. pose proof Hb as [H1 H2]. unfold pause.
  destruct (source a) eqn:Hs; [|exact Hb].
  destruct (isPlaying a) eqn:Hp; [|exact Hb].
  unfold stopAnalysis. cbn [animationId].
  destruct (animationId a) as [[|id]|]. all: split; cbn.
  all: try (intros Hc; destruct (H1 Hc) as (? & _); discriminate).
  all: intros f' w' Hf Hw; destruct (H2 _ _ Hf Hw) as (_ & _ & ? & _);
    discriminate.
Qed.

Lemma blank_setVolume v a : blank a -> blank (fst (setVolume v a)).
Proof.
  intros Hb. pose proof Hb as [H1 H2]. unfold setVolume.
  destruct (gainNode a) eqn:Hg; [|exact Hb].
  destruct (JS.to_float _); [|exact Hb].
  split; cbn.
  - exact H1.
  - intros f' w' Hf Hw. destruct (H2 _ _ Hf Hw) as (? & ? & ? & ? & _).
    repeat split; eauto.
Qed.

Lemma blank_analyze s w frame a a' :
  blank a -> analyze s w frame a = Some a' -> blank a'.
Proof.
  intros [H1 H2]. unfold analyze.
  destruct (negb (isPlaying a) || negb (analyser a)) eqn:Hg;
    [intros [= <-]; split; assumption|].
  destruct (frequencyData a) as [f|] eqn:Hf; [|discriminate].
  destruct (timeDomainData a) as [t|] eqn:Ht; [|discriminate].
  destruct (H2 _ _ eq_refl eq_refl) as (_ & _ & _ & Hp & _).
  rewrite Hp in Hg. discriminate.
Qed.

Lemma blank_play b s w frame a : blank a -> blank (fst (play b s w frame a)).
Proof.
  intros Hb. pose proof Hb as [H1 H2]. unfold play.
  destruct (source a) as [d|] eqn:Hs; [|exact Hb].
  destruct (audioContext a) eqn:Hc; [|exact Hb]. cbn [negb].
  set (playing := mk _ _ _ _ _ _ true _).
  assert (Hplaying : blank playing).
  { split; cbn; [discriminate|].
    intros f' w' Hf Hw. destruct (H2 _ _ Hf Hw) as (_ & _ & ? & _).
    congruence. }
  assert (Hana : analyze s w frame playing = Some playing \/
                 analyze s w frame playing = None).
  { unfold analyze. cbn [isPlaying negb orb].
    destruct (negb (analyser playing)); [left; reflexivity|].
    destruct (frequencyData playing) as [f|] eqn:Hf; [|right; reflexivity].
    destruct (timeDomainData playing) as [t|] eqn:Ht; [|right; reflexivity].
    cbn in Hf, Ht. destruct (H2 _ _ Hf Ht) as (_ & _ & ? & _). congruence. }
  destruct Hana as [-> | ->]; destruct b; exact Hplaying.
Qed.

Lemma blank_rejected_load reinit decoded a a' :
  blank a -> loadAudioFile reinit decoded a = (a', false) -> blank a'.
Proof.
  intros Hb. unfold loadAudioFile.
  set (a1 := if audioContext a then a else initAudioContext reinit a).
  assert (Hb1 : blank a1).
  { unfold a1. destruct (audioContext a) eqn:Hc; [exact Hb|].
    now apply blank_initAudioContext. }
  clearbody a1. destruct (audioContext a1) eqn:Hc1; cbn [negb];
    [|now intros [= <-]].
  destruct decoded as [d|]; [|now intros [= <-]].
  pose proof (blank_stop _ Hb1) as [H1 H2]. cbn [gainNode].
  destruct (gainNode (stop a1)) eqn:Hg; [discriminate|].
  destruct (stop_fields a1) as (Ec & _ & _ & _ & _ & _ & _).
  intros [= <-]. split; cbn.
  - rewrite Ec, Hc1. discriminate.
  - intros f' w' Hf Hw. destruct (H2 _ _ Hf Hw) as (_ & _ & _ & _ & [? ?]).
    congruence.
Qed.

(** No audio loaded: the state is blank. *)
Lemma NoAudioLoaded_blank a : NoAudioLoaded a -> blank a.
Proof.
  induction 1; eauto using blank_new, blank_setVolume, blank_pause,
    blank_stop, blank_play, blank_analyze, blank_rejected_load.
Qed.

Lemma silent_allocated :
  getAudioData (new Initialised)
  = silent (JS.Float32Array_new frequencyBinCount).
Proof. reflexivity. Qed.

(** C6.  The beat flag of every feature vector is [volume > 0.3], whatever
    the volume, and whatever came before. *)
Theorem C6_beat_is_volume_above_threshold (a : t) :
  Types.beat (getAudioData a) = (0.3 <? Types.volume (getAudioData a)) /\
  (forall volume, detectBeat volume = (0.3 <? volume)).
Proof.
  split; [|reflexivity]. unfold getAudioData.
  destruct (frequencyData a); [destruct (timeDomainData a)|]; reflexivity.
Qed.

(** C9 (as amended).  If no audio has been loaded, or the analysis buffers
    could not be set up, the feature vector has zero band levels, zero
    volume and no beat; its raw buffers are empty when a buffer is missing,
    and otherwise are the two buffers as allocated, 1024 zeros each. *)
Theorem C9_silent_feature_vector (a : t) :
  NoAudioLoaded a \/ frequencyData a = None \/ timeDomainData a = None ->
  (frequencyData a = None \/ timeDomainData a = None ->
   getAudioData a = silent []) /\
  (is_Some (frequencyData a) /\ is_Some (timeDomainData a) ->
   getAudioData a = silent (replicate 1024 0)) /\
  (getAudioData a = silent [] \/ getAudioData a = silent (replicate 1024 0)).
Proof.
  intros H.
  assert (Hnone : frequencyData a = None \/ timeDomainData a = None ->
                  getAudioData a = silent []).
  { unfold getAudioData. intros [-> | ->]; [reflexivity|].
    destruct (frequencyData a); reflexivity. }
  assert (Hsome : NoAudioLoaded a ->
                  is_Some (frequencyData a) /\ is_Some (timeDomainData a) ->
                  getAudioData a = silent (replicate 1024 0)).
  { intros Hn [[f Hf] [w Hw]]. apply NoAudioLoaded_blank in Hn as [_ H2].
    destruct (H2 f w Hf Hw) as (-> & -> & _).
    unfold getAudioData. rewrite Hf, Hw. exact silent_allocated. }
  split; [exact Hnone|]. split.
  - intros [[f Hf] [w Hw]]. destruct H as [Hn | [Hf' | Hw']];
      [apply Hsome; eauto | congruence | congruence].
  - destruct (frequencyData a) as [f|] eqn:Hf; [|left; apply Hnone; auto].
    destruct (timeDomainData a) as [w|] eqn:Hw; [|left; apply Hnone; auto].
    right. destruct H as [Hn | [Hf' | Hw']]; [|congruence..].
    apply Hsome; eauto.
Qed.

End AnalyzerClaims.


(** ** Properties of the animation engine *)

Module EngineClaims.

Import AnimationEngine.
Local Open Scope float_scope.

(** *** The map of effects *)

Lemma Map_get_set {V} k (v : V) m : Map_get k (Map_set k v m) = Some v.
Proof.
  induction m as [|[k' v'] m IH]; cbn.
  - now rewrite String.eqb_refl.
  - destruct (String.eqb k' k) eqn:E; cbn.
    + now rewrite String.eqb_refl.
    + now rewrite E.
Qed.

Lemma Map_delete_absent {V} k (m : list (string * V)) :
  Map_get k m = None -> Map_delete k m = m.
Proof.
  induction m as [|[k' v'] m IH]; cbn; [reflexivity|].
  destruct (String.eqb k' k); [discriminate|]. intros H. now rewrite IH.
Qed.

Section WithPlatform.

Variable Math_random : nat -> float.
Variable Date_now : nat -> Z.
Variable marble_random : nat -> float.
Variable marble_now : nat -> Z.
Variable Math_sin : float -> float.
Variable PlaneGeometry : list float.
Variable IcosahedronGeometry : float -> list float.
Variable SphereGeometry : float -> list float.

Abbreviation addEffect :=
  (addEffect Math_random PlaneGeometry IcosahedronGeometry SphereGeometry).
Abbreviation updateEffect := (updateEffect Math_random Date_now Math_sin).
Abbreviation forEachEffect := (forEachEffect Math_random Date_now Math_sin).
Abbreviation updateEffects := (updateEffects Math_random Date_now Math_sin).
Abbreviation updateAudioData :=
  (updateAudioData Math_random Date_now marble_random Math_sin).

(** [updateEffect] looks at the id under which the object is stored, not
    at its variant: under any other id than the five type names the
    object is left alone. *)
Lemma updateEffect_other_id a o id rnd now :
  typeName id = false -> updateEffect a o id rnd now = Some (o, rnd, now).
Proof.
  unfold typeName, updateEffect. intros H.
  repeat (apply orb_false_elim in H; destruct H as [H ?]).
  repeat match goal with E : String.eqb _ _ = false |- _ => rewrite E; clear E end.
  reflexivity.
Qed.

Lemma forEachEffect_other_ids a m rnd now :
  Forall (fun entry => typeName (fst entry) = false) m ->
  forEachEffect a m rnd now = Some (m, rnd, now).
Proof.
  induction 1 as [|[id o] m Hid _ IH]; [reflexivity|]. cbn in *.
  rewrite (updateEffect_other_id _ _ _ _ _ Hid). now rewrite IH.
Qed.

(** An engine whose effects are all stored under generated ids never
    changes any of them. *)
Lemma updateEffects_other_ids e :
  Forall (fun entry => typeName (fst entry) = false) (effects e) ->
  effects <$> updateEffects e = Some (effects e).
Proof.
  intros H. unfold updateEffects. destruct (audioData e) as [a|]; [|reflexivity].
  now rewrite (forEachEffect_other_ids _ _ _ _ H).
Qed.

Lemma updateAudioData_effects a e :
  effects <$> updateAudioData a e
  = effects <$> updateEffects (set_audioData (Some a) e).
Proof.
  unfold updateAudioData.
  destruct (updateEffects _) as [e'|]; [|reflexivity].
  destruct (marblePhysics e'); reflexivity.
Qed.

(** The object of a neural effect is a point cloud, which
    [updateNeuralEffect] skips: it is not updated under any id. *)
Lemma neural_object_not_updated effect rnd bassLevel trebleLevel now :
  updateNeuralEffect Date_now Math_sin
    (fst (createNeuralEffect Math_random effect rnd)) bassLevel trebleLevel now
  = (fst (createNeuralEffect Math_random effect rnd), now).
Proof.
  unfold createNeuralEffect. destruct (fold_left _ _ _). reflexivity.
Qed.

(** C2.  The wave effect of the effect selector, stored under its
    generated id: after it is added, an update with any feature vector
    leaves its grid mesh exactly as created, whatever the bass level. *)
Theorem C2_wave_effect_under_generated_id_is_not_updated (a : Types.AudioData) :
  effects <$> (addEffect Examples.waveEffect (new [])
               ≫= updateAudioData a)
  = Some [(Types.id Examples.waveEffect,
           Mesh PlaneGeometry (MeshLambertMaterial "#3b82f6") 0 0 0)].
Proof.
  change (addEffect Examples.waveEffect (new []))
    with (Some (register Examples.waveEffect
                  (createWaveEffect PlaneGeometry Examples.waveEffect) (new []))).
  cbn [mbind option_bind]. rewrite updateAudioData_effects.
  apply updateEffects_other_ids. repeat constructor.
Qed.

Lemma removeEffect_effects id e :
  effects (removeEffect id e) = Map_delete id (effects e).
Proof.
  unfold removeEffect.
  destruct (Map_get id (effects e)) eqn:Hget;
    destruct (find _ _) as [c|]; try destruct (String.eqb (Types.type c) _);
    try destruct (marblePhysics _); cbn;
    rewrite ?(Map_delete_absent _ _ Hget); reflexivity.
Qed.

Lemma removeEffect_absent id e :
  Map_get id (effects e) = None ->
  removeEffect id e
  = match find (fun c => String.eqb (Types.id c) id) (configEffects e) with
    | Some c =>
        if String.eqb (Types.type c) "marble"
        then set_marblePhysics
               (MarblePhysics.clearMarbles <$> marblePhysics e) e
        else e
    | None => e
    end.
Proof.
  intros Hget. unfold removeEffect. rewrite Hget.
  destruct (find _ _) as [c|]; [|reflexivity].
  destruct (String.eqb (Types.type c) _); [|reflexivity].
  destruct e as [m a c' [p|] r n]; reflexivity.
Qed.

Lemma addEffect_effects effect e :
  effects e = [] ->
  effects (default e (addEffect effect e)) = [] \/
  exists o, effects (default e (addEffect effect e)) = [(Types.id effect, o)].
Proof.
  intros He. unfold addEffect, register.
  repeat match goal with
    | |- context [if String.eqb ?a ?b then _ else _] =>
        destruct (String.eqb a b)
    end;
    try destruct (createParticleEffect _ _ _) as [[o rnd]|];
    try destruct (createNeuralEffect _ _ _) as [o rnd];
    cbn; rewrite ?He; eauto.
Qed.

(** The physics after [removeEffect], for an id that the configuration
    lists first for the effect [c]. *)
Lemma removeEffect_clears id c e :
  find (fun c => String.eqb (Types.id c) id) (configEffects e) = Some c ->
  marblePhysics (removeEffect id e)
  = if String.eqb (Types.type c) "marble"
    then MarblePhysics.clearMarbles <$> marblePhysics e
    else marblePhysics e.
Proof.
  intros Hfind. unfold removeEffect.
  set (e1 := match Map_get id (effects e) with
             | Some _ => _
             | None => e
             end).
  assert (E1 : configEffects e1 = configEffects e /\
               marblePhysics e1 = marblePhysics e)
    by (unfold e1; destruct (Map_get _ _); split; reflexivity).
  destruct E1 as [Ec Ep]. rewrite Ec, Hfind, <- Ep.
  destruct (String.eqb _ _); [|reflexivity].
  destruct (marblePhysics e1) eqn:E; [reflexivity|]. cbn. exact E.
Qed.

(** C8 (as amended).  From an empty map, [addEffect] followed by
    [removeEffect] of the same id leaves the map empty (an [addEffect]
    that throws has added nothing).  [removeEffect] never throws; for an
    id that is not in the map it leaves the map as it is, and it leaves
    the whole engine as it is unless the configuration lists the id for a
    marble effect, in which case it clears the marbles: the engine is as
    before but for its physics, which holds no marble, no marble mesh and
    no trail point. *)
Theorem C8_add_then_remove (effect : Types.AnimationEffect) (id : string) (e : t) :
  (effects e = [] ->
   effects (removeEffect (Types.id effect) (default e (addEffect effect e)))
   = []) /\
  (Map_get id (effects e) = None ->
   effects (removeEffect id e) = effects e /\
   (removeEffect id e = e \/
    removeEffect id e
    = set_marblePhysics (MarblePhysics.clearMarbles <$> marblePhysics e) e) /\
   ((forall c, find (fun c => String.eqb (Types.id c) id) (configEffects e)
               = Some c -> String.eqb (Types.type c) "marble" = false) ->
    removeEffect id e = e) /\
   (forall c, find (fun c => String.eqb (Types.id c) id) (configEffects e)
              = Some c -> String.eqb (Types.type c) "marble" = true ->
    removeEffect id e
    = set_marblePhysics (MarblePhysics.clearMarbles <$> marblePhysics e) e)) /\
  (forall c, find (fun c => String.eqb (Types.id c) id) (configEffects e)
             = Some c -> String.eqb (Types.type c) "marble" = true ->
   marblePhysics (removeEffect id e)
   = MarblePhysics.clearMarbles <$> marblePhysics e /\
   forall p, marblePhysics (removeEffect id e) = Some p ->
     MarblePhysics.marbles p = [] /\ MarblePhysics.marbleMeshes p = [] /\
     MarblePhysics.trailPoints p = []).
Proof.
  split; [|split].
  - intros He. rewrite removeEffect_effects.
    destruct (addEffect_effects effect e He) as [-> | [o ->]]; [reflexivity|].
    cbn. now rewrite String.eqb_refl.
  - intros Hget. split; [|split; [|split]].
    + rewrite removeEffect_effects. now apply Map_delete_absent.
    + rewrite (removeEffect_absent _ _ Hget).
      destruct (find _ _) as [c|]; [|now left].
      destruct (String.eqb _ _); [now right | now left].
    + intros Hc. rewrite (removeEffect_absent _ _ Hget).
      destruct (find _ _) as [c|]; [|reflexivity].
      now rewrite (Hc c eq_refl).
    + intros c Hfind Hmarble. rewrite (removeEffect_absent _ _ Hget), Hfind.
      now rewrite Hmarble.
  - intros c Hfind Hmarble. rewrite (removeEffect_clears id c e Hfind), Hmarble.
    split; [reflexivity|]. intros p Hp.
    destruct (marblePhysics e) as [p0|]; [|discriminate].
    injection Hp as <-. repeat split; reflexivity.
Qed.

End WithPlatform.

End EngineClaims.


(** ** The properties at concrete inputs *)

Module Checks.

Import MarblePhysics MarbleFacts MarbleClaims Examples.
Local Open Scope float_scope.

Lemma inv_stateWith_one m : marble_ok m -> inv (stateWith [m]).
Proof. intros H. split; [reflexivity | repeat constructor; apply H]. Defined.

(** C1, counterexample.  A single marble arrives over the F key with
    vertical velocity -5; the step calls [playNote(349.23, 0.35)], not
    [playNote(349.23, 0.5)]. *)
Lemma C1_counterexample :
  (exists m,
     marbles (arrive half 0.1 None 0 (stateWith [striker])) !! 0%nat = Some m /\
     Vector3.y (velocity m) = -5 /\
     collides m (makeKey 3) = true) /\
  spec_noteVelocity (-5) = 0.5 /\
  synthCalls (update half ticks 0.1 None (stateWith [striker]))
  = [(349.23, 0.35)] /\
  synthCalls (update half ticks 0.1 None (stateWith [striker]))
  <> [(349.23, spec_noteVelocity (-5))].
Proof.
  split; [eexists; repeat split; reflexivity|].
  split; [reflexivity|]. split; [reflexivity|].
  intros H.
  apply (f_equal (fun calls => match calls with
                               | [(_, v)] => v
                               | _ => 0
                               end)) in H.
  revert H. apply FloatFacts.ltb_neq. reflexivity.
Qed.

(** C1, at the same input. *)
Lemma C1_witness :
  inv (stateWith [striker]) /\
  synthCalls (update half ticks 0.1 None (stateWith [striker]))
  = [(349.23, 0.35)].
Proof.
  split; [apply inv_stateWith_one; split; reflexivity|].
  apply (C1_note_velocity_after_bounce half ticks 0.1 None 0 3
           (stateWith [striker]) (arrival 0.1 None 0.5 0.5 striker) (makeKey 3));
    [apply inv_stateWith_one; split; reflexivity | reflexivity..].
Defined.

(** C3, counterexample.  The marble's extent on X, from 0.6 to 1.2,
    overlaps the F key's, from -0.75 to 0.75, and so does its extent on Y;
    its centre is beside the key, and the collision test lets it pass. *)
Lemma C3_counterexample :
  spec_extentOverlaps grazer (makeKey 3) = true /\
  collides grazer (makeKey 3) = false /\
  checkKeyCollisions half ticks 0 (stateWith [grazer]) = stateWith [grazer].
Proof. repeat split; reflexivity. Qed.

Lemma C3_witness :
  keyboard (keys (stateWith [arrival 0.1 None 0.5 0.5 striker])) /\
  exists v,
    synthCalls (checkKeyCollisions half ticks 0
                  (stateWith [arrival 0.1 None 0.5 0.5 striker]))
    = [(349.23, v)].
Proof.
  split; [reflexivity|].
  apply (proj1 (proj1 (C3_collision_test_uses_centre_on_x half ticks 0 3
           (stateWith [arrival 0.1 None 0.5 0.5 striker])
           (arrival 0.1 None 0.5 0.5 striker) (makeKey 3)
           eq_refl eq_refl eq_refl))).
  reflexivity.
Defined.

Lemma C4_witness :
  inv (stateWith [striker]) /\
  exists m',
    marbles (updateMarble half ticks 0.1 None 0 (stateWith [striker])) !! 0%nat
    = Some m' /\
    Vector3.y (position m') = 0 + 0.3 / 2 + 0.3 /\
    Vector3.y (velocity m') = 3.5 /\
    bounceCount m' = 1%nat /\
    marbles (update half ticks 0.1 None (stateWith [striker])) = [m'].
Proof.
  split; [apply inv_stateWith_one; split; reflexivity|].
  destruct (C4_bounce half ticks 0.1 None 0 3 (stateWith [striker])
              (arrival 0.1 None 0.5 0.5 striker) (makeKey 3)
              (inv_stateWith_one striker (conj eq_refl eq_refl))
              eq_refl eq_refl eq_refl)
    as (m' & H1 & H2 & H3 & H4 & H5).
  exists m'. repeat split; try assumption. apply H5. reflexivity.
Defined.

(** C5, counterexample.  After two steps of 0.1 s from rest the vertical
    velocity is -9.8 * 0.1 * (0.98 + 0.98^2), about -1.9016; the closed form
    gives -9.8 * 0.2 * 0.98^2, about -1.8824. *)
Lemma C5_counterexample :
  clearPath 0.1 2 dropped = true /\
  exists m,
    marbles (Nat.iter 2 (update half ticks 0.1 None) (stateWith [dropped])) = [m] /\
    (Vector3.y (velocity m) <? -1.90) = true /\
    (-1.89 <? spec_closedForm 0.1 2) = true /\
    Vector3.y (velocity m) <> spec_closedForm 0.1 2.
Proof.
  split; [vm_compute; reflexivity|]. exists (fall 0.1 2 dropped).
  split; [vm_compute; reflexivity|].
  split; [vm_compute; reflexivity|]. split; [vm_compute; reflexivity|].
  apply FloatFacts.ltb_neq. vm_compute. reflexivity.
Qed.

Lemma C5_witness :
  inv (stateWith [dropped]) /\ clearPath 0.1 3 dropped = true /\
  marbles (Nat.iter 3 (update half ticks 0.1 None) (stateWith [dropped]))
  = [fall 0.1 3 dropped] /\
  Vector3.y (velocity (fall 0.1 3 dropped)) = fallVelocity 0.1 3 0.
Proof.
  split; [apply inv_stateWith_one; split; reflexivity|].
  split; [reflexivity|].
  apply (C5_discrete_recurrence half ticks 0.1 3 (stateWith [dropped]) dropped);
    [apply inv_stateWith_one; split; reflexivity | reflexivity..].
Defined.

Lemma C7_witness :
  inv (stateWith [dropped; sinking]) /\
  retirements half ticks 0.1 None 2 (stateWith [dropped; sinking]) = 1%nat /\
  (length (marbles (update half ticks 0.1 None (stateWith [dropped; sinking])))
   + retirements half ticks 0.1 None 2 (stateWith [dropped; sinking]))%nat
  = 2%nat.
Proof.
  assert (H : inv (stateWith [dropped; sinking]))
    by (split; [reflexivity | repeat constructor]).
  split; [exact H|]. split; [reflexivity|].
  exact (proj1 (proj2 (C7_retirement half ticks 0.1 None
                         (stateWith [dropped; sinking]) H))).
Defined.

Lemma C10_witness :
  (length (Types.frequencyData
             (AudioAnalyzer.getAudioData
                (AudioAnalyzer.new AudioAnalyzer.ContextFails))) < 10)%nat /\
  getFrequencyLevel [] 0 10 = nan /\
  exists m',
    marbles (applyAudioInfluence half 0 (mkAudioInput [] 0) (stateWith [dropped]))
      !! 0%nat = Some m' /\
    Vector3.x (velocity m') = nan /\ Vector3.z (velocity m') = nan.
Proof.
  split; [cbn; lia|].
  destruct (C10_short_frequency_data_gives_NaN half 0 (stateWith [dropped])
              dropped [] 0 ltac:(cbn; lia) eq_refl)
    as (_ & E & _ & m' & Hm & Hx & Hz).
  split; [exact E|]. exists m'. auto.
Defined.

(** C9, counterexample.  A freshly constructed analyzer whose audio
    context initialised: nothing has been loaded, and the raw buffers of
    its feature vector hold 1024 zeros each. *)
Lemma C9_counterexample :
  AudioAnalyzer.NoAudioLoaded (AudioAnalyzer.new AudioAnalyzer.Initialised) /\
  length (Types.frequencyData
            (AudioAnalyzer.getAudioData
               (AudioAnalyzer.new AudioAnalyzer.Initialised))) = 1024%nat /\
  Types.frequencyData
    (AudioAnalyzer.getAudioData (AudioAnalyzer.new AudioAnalyzer.Initialised))
  <> [].
Proof.
  split; [constructor|]. split; [reflexivity|]. discriminate.
Qed.

Lemma C9_witness :
  AudioAnalyzer.getAudioData (AudioAnalyzer.new AudioAnalyzer.GainFails)
  = AudioAnalyzer.silent [] /\
  AudioAnalyzer.getAudioData (AudioAnalyzer.new AudioAnalyzer.Initialised)
  = AudioAnalyzer.silent (replicate 1024 0).
Proof.
  split.
  - apply (AnalyzerClaims.C9_silent_feature_vector
             (AudioAnalyzer.new AudioAnalyzer.GainFails));
      [right; left; reflexivity | left; reflexivity].
  - apply (AnalyzerClaims.C9_silent_feature_vector
             (AudioAnalyzer.new AudioAnalyzer.Initialised));
      [left; constructor | split; eexists; reflexivity].
Defined.

(** C8, counterexample.  The id of the configured marble effect is not in
    the map, and removing it empties the array of marbles. *)
Lemma C8_counterexample :
  AnimationEngine.Map_get (Types.id marbleEffect)
    (AnimationEngine.effects engineWithMarble) = None /\
  AnimationEngine.removeEffect (Types.id marbleEffect) engineWithMarble
  <> engineWithMarble.
Proof.
  split; [reflexivity|]. intros H.
  apply (f_equal (fun e => length <$> (marbles <$> AnimationEngine.marblePhysics e)))
    in H.
  discriminate H.
Qed.

(** C8, at the wave effect of the selector on a new engine, and at the
    configured marble effect on the engine that holds the test marble:
    removing it leaves the engine as it was but for the physics, which has
    lost its marble. *)
Lemma C8_witness :
  AnimationEngine.effects
    (AnimationEngine.removeEffect (Types.id waveEffect)
       (default (AnimationEngine.new [])
          (AnimationEngine.addEffect half [] (fun _ => []) (fun _ => [])
             waveEffect (AnimationEngine.new [])))) = [] /\
  AnimationEngine.removeEffect (Types.id waveEffect) (AnimationEngine.new [])
  = AnimationEngine.new [] /\
  (length <$> (marbles <$> AnimationEngine.marblePhysics engineWithMarble)
   = Some 1%nat /\
   AnimationEngine.removeEffect (Types.id marbleEffect) engineWithMarble
   = AnimationEngine.set_marblePhysics
       (clearMarbles <$> AnimationEngine.marblePhysics engineWithMarble)
       engineWithMarble /\
   marbles <$> AnimationEngine.marblePhysics
                 (AnimationEngine.removeEffect (Types.id marbleEffect)
                    engineWithMarble)
   = Some []).
Proof.
  split; [|split; [|split; [|split]]].
  - apply (EngineClaims.C8_add_then_remove half [] (fun _ => []) (fun _ => [])
             waveEffect (Types.id waveEffect) (AnimationEngine.new [])).
    reflexivity.
  - apply (EngineClaims.C8_add_then_remove half [] (fun _ => []) (fun _ => [])
             waveEffect (Types.id waveEffect) (AnimationEngine.new []));
      [reflexivity | discriminate].
  - reflexivity.
  - apply (proj2 (proj2 (proj2
             (proj1 (proj2 (EngineClaims.C8_add_then_remove half []
                              (fun _ => []) (fun _ => []) marbleEffect
                              (Types.id marbleEffect) engineWithMarble))
                eq_refl)))
             marbleEffect eq_refl eq_refl).
  - rewrite (proj1 (proj2 (proj2 (EngineClaims.C8_add_then_remove half []
                                    (fun _ => []) (fun _ => []) marbleEffect
                                    (Types.id marbleEffect) engineWithMarble))
                      marbleEffect eq_refl eq_refl)).
    reflexivity.
Defined.

End Checks.


(** ** Signs of sums, quotients and roots *)

Module SignFacts.

Import JS.
Local Open Scope float_scope.

(** *** Rounding keeps the sign *)

Lemma round_aux_notNegative m e l :
  notNegative (binary_round_aux prec emax false m e l).
Proof.
  unfold binary_round_aux. destruct (shr_fexp _ _ _ _ _) as [r1 e1].
  destruct (shr_fexp _ _ _ _ _) as [r2 e2].
  destruct (shr_m r2); [exact I | | exact I].
  destruct (_ <=? _)%Z; exact I.
Qed.

Lemma round_aux_signPlus m e l :
  signPlus (binary_round_aux prec emax false m e l).
Proof.
  unfold binary_round_aux. destruct (shr_fexp _ _ _ _ _) as [r1 e1].
  destruct (shr_fexp _ _ _ _ _) as [r2 e2].
  destruct (shr_m r2); [exact I | | exact I].
  destruct (_ <=? _)%Z; exact I.
Qed.

Lemma round_signPlus m e : signPlus (binary_round prec emax false m e).
Proof.
  unfold binary_round. destruct (shl_align _ _ _) as [mz ez].
  apply round_aux_signPlus.
Qed.

Lemma signPlus_notNegative x : signPlus x -> notNegative x.
Proof. destruct x as [[]|[]| |[] m e]; cbn; tauto. Qed.

(** *** The operations *)

Lemma SFadd_signPlus x y : signPlus x -> signPlus y -> signPlus (SF64add x y).
Proof.
  destruct x as [[]|[]| |[] mx ex], y as [[]|[]| |[] my ey];
    try contradiction; try exact (fun _ _ => I).
  intros _ _. unfold SF64add, SFadd, cond_Zopp.
  change (Z.pos ?a + Z.pos ?b)%Z with (Z.pos (a + b)).
  apply round_signPlus.
Qed.

Lemma SFabs_signPlus x : signPlus (SFabs x).
Proof. destruct x; exact I. Qed.

Lemma SFabs_zeroOrAbove x : x <> S754_nan -> zeroOrAbove (SFabs x).
Proof. destruct x; try exact (fun _ => I). congruence. Qed.

Lemma SFmul_signPlus x y : signPlus x -> signPlus y -> signPlus (SF64mul x y).
Proof.
  destruct x as [[]|[]| |[] mx ex], y as [[]|[]| |[] my ey];
    try contradiction; try exact (fun _ _ => I).
  intros _ _. unfold SF64mul, SFmul. apply round_aux_signPlus.
Qed.

Lemma SFsqrt_notNegative x : notNegative (SF64sqrt x).
Proof.
  destruct x as [s|[]| |[] m e]; try exact I.
  unfold SF64sqrt, SFsqrt.
  destruct (SFsqrt_core_binary _ _ _ _) as [[mz ez] lz].
  apply round_aux_notNegative.
Qed.

(** A quotient by a number whose sign bit is clear has the sign of the
    dividend. *)
Lemma SFdiv_notNegative x y :
  notNegative x -> signPlus y -> notNegative (SF64div x y).
Proof.
  destruct x as [[]|[]| |[] mx ex], y as [[]|[]| |[] my ey];
    try contradiction; try exact (fun _ _ => I).
  intros _ _. unfold SF64div, SFdiv.
  destruct (SFdiv_core_binary _ _ _ _ _ _) as [[mz ez] lz].
  apply round_aux_notNegative.
Qed.

(** *** Rounding a mantissa that is not negative does not give NaN *)

Lemma shr_1_nonneg r : (0 <= shr_m r)%Z -> (0 <= shr_m (shr_1 r))%Z.
Proof. destruct r as [[|[p|p|]|[p|p|]] b c]; cbn; lia. Qed.

Lemma iter_pos_preserves {A} (P : A -> Prop) (f : A -> A) :
  (forall a, P a -> P (f a)) ->
  forall p a, P a -> P (SpecFloat.iter_pos f p a).
Proof. intros Hf. induction p as [p IH|p IH|]; cbn; auto. Qed.

Lemma shr_fexp_nonneg m e l :
  (0 <= m)%Z -> (0 <= shr_m (fst (shr_fexp prec emax m e l)))%Z.
Proof.
  intros Hm. unfold shr_fexp, shr.
  assert (H0 : (0 <= shr_m (shr_record_of_loc m l))%Z)
    by (destruct l as [|[]]; exact Hm).
  destruct (_ - _)%Z; cbn [fst]; try exact H0.
  apply (iter_pos_preserves (fun r => (0 <= shr_m r)%Z)); [|exact H0].
  apply shr_1_nonneg.
Qed.

Lemma round_nearest_even_nonneg m l :
  (0 <= m)%Z -> (0 <= round_nearest_even m l)%Z.
Proof.
  intros Hm. destruct l as [|[]]; cbn; try destruct (Z.even m); lia.
Qed.

Lemma round_aux_zeroOrAbove m e l :
  (0 <= m)%Z -> zeroOrAbove (binary_round_aux prec emax false m e l).
Proof.
  intros Hm. unfold binary_round_aux.
  pose proof (shr_fexp_nonneg m e l Hm) as H1.
  destruct (shr_fexp _ _ _ _ _) as [r1 e1]. cbn [fst] in H1.
  pose proof (shr_fexp_nonneg
                (round_nearest_even (shr_m r1) (loc_of_shr_record r1)) e1
                loc_Exact (round_nearest_even_nonneg _ _ H1)) as H2.
  destruct (shr_fexp _ _ _ _ _) as [r2 e2]. cbn [fst] in H2.
  destruct (shr_m r2); [exact I | | lia].
  destruct (_ <=? _)%Z; exact I.
Qed.

Lemma SFdiv_core_nonneg mx ex my ey :
  (0 <= fst (fst (SFdiv_core_binary prec emax (Z.pos mx) ex (Z.pos my) ey)))%Z.
Proof.
  unfold SFdiv_core_binary. cbv zeta.
  match goal with |- context [Z.div_eucl ?a ?b] =>
    assert (Ha : (0 <= a)%Z);
    [|pose proof (Z.div_pos a b Ha ltac:(lia)) as Hq; unfold Z.div in Hq;
      destruct (Z.div_eucl a b) as [q r]; exact Hq]
  end.
  destruct (_ - _ - _)%Z; [lia | apply Z.shiftl_nonneg; lia | lia].
Qed.

(** A quotient of a number that is zero or above by a positive finite
    number is zero or above. *)
Lemma SFdiv_zeroOrAbove x m e :
  zeroOrAbove x -> zeroOrAbove (SF64div x (S754_finite false m e)).
Proof.
  destruct x as [[]|[]| |[] mx ex]; try contradiction; try exact (fun _ => I).
  intros _. unfold SF64div, SFdiv.
  pose proof (SFdiv_core_nonneg mx ex m e) as H.
  destruct (SFdiv_core_binary _ _ _ _ _ _) as [[mz ez] lz]. cbn [fst] in H.
  now apply round_aux_zeroOrAbove.
Qed.

(** *** Comparisons *)

Lemma SFeqb_refl x : x <> S754_nan -> SFeqb x x = true.
Proof.
  unfold SFeqb, SFcompare. destruct x as [s|s| |s m e]; try congruence;
    intros _; try (destruct s; reflexivity).
  rewrite Z.compare_refl, Pos.compare_cont_refl. destruct s; reflexivity.
Qed.

Lemma is_nan_false x : Prim2SF x <> S754_nan -> is_nan x = false.
Proof.
  intros H. unfold is_nan. rewrite FloatAxioms.eqb_spec. rewrite (SFeqb_refl _ H).
  reflexivity.
Qed.

Lemma is_nan_true x : is_nan x = true -> x = nan.
Proof.
  unfold is_nan. rewrite FloatAxioms.eqb_spec. intros H.
  apply FloatFacts.Prim2SF_inj. change (Prim2SF nan) with S754_nan.
  destruct (Prim2SF x) as [s|s| |s m e] eqn:E; [| |reflexivity|];
    (rewrite SFeqb_refl in H; [discriminate H | discriminate]).
Qed.

Lemma zeroOrAbove_leb x : zeroOrAbove (Prim2SF x) -> (0 <=? x) = true.
Proof.
  rewrite leb_spec. change (Prim2SF 0) with (S754_zero false).
  destruct (Prim2SF x) as [s|[]| |[] m e]; try contradiction; reflexivity.
Qed.

Lemma notNegative_ltb x : notNegative (Prim2SF x) -> (x <? 0) = false.
Proof.
  rewrite ltb_spec. change (Prim2SF 0) with (S754_zero false).
  destruct (Prim2SF x) as [s|[]| |[] m e]; try contradiction; reflexivity.
Qed.

Lemma ltb_leb a b : (a <? b) = true -> (a <=? b) = true.
Proof.
  rewrite ltb_spec, leb_spec. unfold SFltb, SFleb.
  destruct (SFcompare _ _) as [[]|]; auto.
Qed.

Lemma SFltb_asym a b : SFltb a b = true -> SFltb b a = false.
Proof.
  unfold SFltb, SFcompare.
  destruct a as [sa|sa| |sa ma ea], b as [sb|sb| |sb mb eb];
    try discriminate; try reflexivity; FloatFacts.sf_cases.
Qed.

Lemma ltb_asym a b : (a <? b) = true -> (b <? a) = false.
Proof. rewrite !ltb_spec. apply SFltb_asym. Qed.

Lemma SFltb_trans a b c :
  SFltb a b = true -> SFltb b c = true -> SFltb a c = true.
Proof.
  unfold SFltb, SFcompare.
  destruct a as [sa|sa| |sa ma ea], b as [sb|sb| |sb mb eb],
           c as [sc|sc| |sc mc ec];
    try discriminate; try reflexivity; FloatFacts.sf_cases.
Qed.

Lemma ltb_trans a b c : (a <? b) = true -> (b <? c) = true -> (a <? c) = true.
Proof. rewrite !ltb_spec. apply SFltb_trans. Qed.

Lemma ltb_not_nan_l a b : (a <? b) = true -> is_nan a = false.
Proof.
  intros H. apply is_nan_false. intros E. rewrite ltb_spec, E in H.
  discriminate.
Qed.

Lemma ltb_not_nan_r a b : (a <? b) = true -> is_nan b = false.
Proof.
  intros H. apply is_nan_false. intros E. rewrite ltb_spec, E in H.
  unfold SFltb, SFcompare in H. destruct (Prim2SF a); discriminate.
Qed.

(** At most and not below a finite number: equal to it. *)
Lemma leb_not_ltb a b s m e :
  Prim2SF b = S754_finite s m e ->
  (a <=? b) = true -> (a <? b) = false -> a = b.
Proof.
  intros Eb. rewrite leb_spec, ltb_spec, Eb. intros Hle Hlt.
  apply FloatFacts.Prim2SF_inj. rewrite Eb. revert Hle Hlt.
  unfold SFleb, SFltb, SFcompare.
  destruct (Prim2SF a) as [sa|sa| |sa ma ea]; try discriminate;
    destruct sa, s; try discriminate.
  - destruct (Z.compare_spec ea e); try discriminate. subst.
    rewrite Pos.compare_cont_spec.
    destruct (Pos.compare_spec ma m); try discriminate. now subst.
  - destruct (Z.compare_spec ea e); try discriminate. subst.
    rewrite Pos.compare_cont_spec.
    destruct (Pos.compare_spec ma m); try discriminate. now subst.
Qed.

(** *** Numbers *)

Lemma of_Z_signPlus n : signPlus (Prim2SF (of_Z n)).
Proof.
  unfold of_Z. rewrite of_uint63_spec. unfold binary_normalize.
  pose proof (Uint63.to_Z_bounded (Uint63.of_Z n)) as H.
  destruct (Uint63Axioms.to_Z _); [exact I | apply round_signPlus | lia].
Qed.

Lemma add_signPlus a b :
  signPlus (Prim2SF a) -> signPlus (Prim2SF b) -> signPlus (Prim2SF (a + b)).
Proof. rewrite add_spec. apply SFadd_signPlus. Qed.

Lemma abs_signPlus a : signPlus (Prim2SF (Math_abs a)).
Proof. unfold Math_abs. rewrite abs_spec. apply SFabs_signPlus. Qed.

Lemma mul_signPlus a b :
  signPlus (Prim2SF a) -> signPlus (Prim2SF b) -> signPlus (Prim2SF (a * b)).
Proof. rewrite mul_spec. apply SFmul_signPlus. Qed.

Lemma div_notNegative a b :
  notNegative (Prim2SF a) -> signPlus (Prim2SF b) -> notNegative (Prim2SF (a / b)).
Proof. rewrite div_spec. apply SFdiv_notNegative. Qed.

Lemma sqrt_notNegative a : notNegative (Prim2SF (Math_sqrt a)).
Proof. unfold Math_sqrt. rewrite sqrt_spec. apply SFsqrt_notNegative. Qed.

(** A sum of terms with a clear sign bit, from such a start. *)
Lemma fold_sum_signPlus {A} (f : A -> float) (l : list A) (s : float) :
  (forall a, signPlus (Prim2SF (f a))) -> signPlus (Prim2SF s) ->
  signPlus (Prim2SF (fold_left (fun sum a => sum + f a) l s)).
Proof.
  intros Hf. revert s. induction l as [|a l IH]; intros s Hs; [exact Hs|].
  cbn. apply IH, add_signPlus; [exact Hs | apply Hf].
Qed.

(** *** The clamp of [setVolume] *)

Lemma clamp01_above v : (1 <? v) = true -> clamp01 v = 1.
Proof.
  intros H. unfold clamp01, Math_min.
  rewrite (ltb_not_nan_r _ _ H), H. reflexivity.
Qed.

Lemma clamp01_below v : (v <? 0) = true -> clamp01 v = 0.
Proof.
  intros H. unfold clamp01, Math_min.
  assert (H1 : (v <? 1) = true) by (apply (ltb_trans _ 0); [exact H | reflexivity]).
  rewrite (ltb_not_nan_l _ _ H), (ltb_asym _ _ H1), H1.
  change (is_nan 1 || false) with false. cbv iota.
  unfold Math_max. rewrite (ltb_not_nan_l _ _ H), (ltb_asym _ _ H), H.
  reflexivity.
Qed.

Lemma clamp01_inside v :
  (0 <? v) = true -> (v <=? 1) = true -> clamp01 v = v.
Proof.
  intros H0 H1. destruct (v <? 1) eqn:Hlt.
  - unfold clamp01, Math_min.
    rewrite (ltb_not_nan_r _ _ H0), (ltb_asym _ _ Hlt), Hlt.
    change (is_nan 1 || false) with false. cbv iota.
    unfold Math_max. rewrite (ltb_not_nan_r _ _ H0), H0. reflexivity.
  - assert (E : v = 1)
      by (apply (leb_not_ltb v 1 false 4503599627370496 (-52));
          [reflexivity | exact H1 | exact Hlt]).
    subst v. reflexivity.
Qed.

(** Whatever the argument, the clamp is NaN (for NaN), 0, 1, or the
    argument itself when that is between 0 and 1. *)
Lemma clamp01_cases v :
  (v = nan /\ clamp01 v = nan) \/ clamp01 v = 0 \/ clamp01 v = 1 \/
  (clamp01 v = v /\ (0 <? v) = true /\ (v <? 1) = true).
Proof.
  destruct (is_nan v) eqn:Hn.
  { left. rewrite (is_nan_true _ Hn). split; reflexivity. }
  destruct (1 <? v) eqn:H1.
  { right. right. left. now apply clamp01_above. }
  destruct (v <? 0) eqn:H0.
  { right. left. now apply clamp01_below. }
  destruct (0 <? v) eqn:H0'; destruct (v <? 1) eqn:H1'.
  - right. right. right. split; [|auto].
    apply clamp01_inside; [exact H0' | now apply ltb_leb].
  - right. right. left. unfold clamp01, Math_min. rewrite Hn, H1, H1'. reflexivity.
  - right. left. unfold clamp01, Math_min. rewrite Hn, H1, H1'.
    change (is_nan 1 || false) with false. cbv iota.
    unfold Math_max. rewrite Hn, H0', H0. reflexivity.
  - right. right. left. unfold clamp01, Math_min. rewrite Hn, H1, H1'. reflexivity.
Qed.

Lemma clamp01_notOutside v : notOutside01 (clamp01 v).
Proof.
  destruct (clamp01_cases v) as [[_ ->] | [-> | [-> | (-> & H0 & H1)]]];
    try (split; reflexivity).
  split; now apply ltb_asym.
Qed.

(** *** The velocity of a note *)

Lemma or_else_0_not_nan a : Prim2SF (or_else a 0) <> S754_nan.
Proof.
  unfold or_else, truthy. destruct (is_zero a); [discriminate|].
  destruct (is_nan a) eqn:Hn; [discriminate|]. cbn [orb negb].
  intros E. assert (a = nan) by (apply FloatFacts.Prim2SF_inj; exact E).
  subst a. discriminate Hn.
Qed.

Lemma Math_min_1_within01 q :
  zeroOrAbove (Prim2SF q) -> within01 (Math_min 1 q).
Proof.
  intros Hq. unfold Math_min.
  assert (Hn : is_nan q = false)
    by (apply is_nan_false; intros E; rewrite E in Hq; exact Hq).
  rewrite Hn. change (is_nan 1 || false) with false. cbv iota.
  destruct (1 <? q); [split; reflexivity|].
  destruct (q <? 1) eqn:Hlt; [|split; reflexivity].
  split; [now apply zeroOrAbove_leb | now apply ltb_leb].
Qed.

Lemma noteVelocity_within01 ms : within01 (MarblePhysics.noteVelocity ms).
Proof.
  unfold MarblePhysics.noteVelocity.
  set (vy := match last ms with Some m => _ | None => _ end).
  assert (Hvy : Prim2SF vy <> S754_nan).
  { unfold vy. destruct (last ms); [apply or_else_0_not_nan | discriminate]. }
  apply Math_min_1_within01. unfold Math_abs. rewrite div_spec, abs_spec.
  change (Prim2SF 10) with (S754_finite false 5629499534213120 (-49)).
  apply SFdiv_zeroOrAbove, SFabs_zeroOrAbove, Hvy.
Qed.

End SignFacts.


(** ** Rounding to binary32 *)

Module Float32Facts.

Import JS.
Local Open Scope Z_scope.

(** What the bits shifted out add when the mantissa is rounded up. *)
Definition carry (r : shr_record) : Z := if shr_r r || shr_s r then 1 else 0.

Lemma shr_1_halves r N :
  0 <= shr_m r -> shr_m r + carry r <= 2 * N ->
  0 <= shr_m (shr_1 r) /\ shr_m (shr_1 r) + carry (shr_1 r) <= N.
Proof.
  destruct r as [[|[p|p|]|p] [] []]; unfold carry; cbn; lia.
Qed.

Lemma iter_pos_nat {A} (f : A -> A) p x :
  SpecFloat.iter_pos f p x = Nat.iter (Pos.to_nat p) f x.
Proof.
  revert x. induction p as [p IH|p IH|]; intros x; cbn [SpecFloat.iter_pos].
  - rewrite !IH, <- Nat.iter_add, <- Nat.iter_succ_r. f_equal. lia.
  - rewrite !IH, <- Nat.iter_add. f_equal. lia.
  - reflexivity.
Qed.

Lemma iter_shr_1_bound k r N :
  0 <= shr_m r -> shr_m r + carry r <= 2 ^ Z.of_nat k * N ->
  0 <= shr_m (Nat.iter k shr_1 r) /\
  shr_m (Nat.iter k shr_1 r) + carry (Nat.iter k shr_1 r) <= N.
Proof.
  revert N. induction k as [|k IH]; intros N H0 H.
  - cbn in *. lia.
  - cbn [Nat.iter]. rewrite Nat2Z.inj_succ, Z.pow_succ_r in H by lia.
    destruct (IH (2 * N) H0 ltac:(lia)) as [H1 H2].
    now apply shr_1_halves.
Qed.

Lemma digits2_pos_pow p : 2 ^ (Z.pos (digits2_pos p) - 1) <= Z.pos p.
Proof.
  induction p as [p IH|p IH|]; cbn [digits2_pos]; [| |cbn; lia];
    rewrite Pos2Z.inj_succ;
    replace (Z.succ (Z.pos (digits2_pos p)) - 1)
      with (Z.succ (Z.pos (digits2_pos p) - 1)) by lia;
    rewrite Z.pow_succ_r by lia; lia.
Qed.

Lemma Zdigits2_bound m k : 0 <= m -> 0 <= k -> m <= 2 ^ k -> Zdigits2 m <= k + 1.
Proof.
  intros H0 Hk H. destruct m as [|p|p]; cbn [Zdigits2]; [lia| |lia].
  pose proof (digits2_pos_pow p) as Hp.
  destruct (Z_le_gt_dec (Z.pos (digits2_pos p)) (k + 1)) as [|Hgt]; [assumption|].
  assert (2 ^ (k + 1) <= 2 ^ (Z.pos (digits2_pos p) - 1))
    by (apply Z.pow_le_mono_r; lia).
  rewrite Z.pow_add_r in H1 by lia. lia.
Qed.

Lemma fexp32_bound m e :
  0 <= m -> e <= 0 -> m <= 2 ^ (- e) -> fexp 24 128 (Zdigits2 m + e) <= -23.
Proof.
  intros H0 He H. pose proof (Zdigits2_bound m (- e) H0 ltac:(lia) H).
  unfold fexp, emin. lia.
Qed.

Lemma shr_fexp_bound m e :
  0 <= m -> e <= -23 -> m <= 2 ^ (- e) ->
  let '(r, e') := shr_fexp 24 128 m e loc_Exact in
  e' <= -23 /\ 0 <= shr_m r /\ shr_m r + carry r <= 2 ^ (- e').
Proof.
  intros H0 He H. unfold shr_fexp, shr.
  pose proof (fexp32_bound m e H0 ltac:(lia) H) as Hf.
  cbn [shr_record_of_loc].
  destruct (fexp 24 128 (Zdigits2 m + e) - e) as [|p|p] eqn:En;
    try (unfold carry; cbn; split; [lia|]; split; lia).
  rewrite iter_pos_nat. split; [lia|].
  apply iter_shr_1_bound; [exact H0|]. unfold carry; cbn.
  rewrite positive_nat_Z, <- Z.pow_add_r by lia.
  replace (Z.pos p + - (e + Z.pos p)) with (- e) by lia. lia.
Qed.

Lemma round_nearest_even_bound r :
  0 <= shr_m r ->
  0 <= round_nearest_even (shr_m r) (loc_of_shr_record r)
  <= shr_m r + carry r.
Proof.
  destruct r as [m [] []]; unfold carry; cbn; try destruct (Z.even m); lia.
Qed.

Lemma round_aux_unit m e :
  0 <= m -> e <= -23 -> m <= 2 ^ (- e) ->
  unit32 (binary_round_aux 24 128 false m e loc_Exact).
Proof.
  intros H0 He H. unfold binary_round_aux.
  pose proof (shr_fexp_bound m e H0 He H) as H1.
  destruct (shr_fexp 24 128 m e loc_Exact) as [r1 e1].
  destruct H1 as (He1 & H1 & H1').
  pose proof (round_nearest_even_bound r1 H1) as Hr.
  pose proof (shr_fexp_bound _ e1 (proj1 Hr) He1 ltac:(lia)) as H2.
  destruct (shr_fexp 24 128 _ e1 loc_Exact) as [r2 e2].
  destruct H2 as (He2 & H2 & H2').
  destruct (shr_m r2) as [|m2|m2] eqn:Em; [exact I| |lia].
  destruct (Z.leb_spec e2 (128 - 24)); [|lia].
  unfold unit32, one32, SFleb, SFcompare.
  destruct (Z.compare_spec e2 (-23)) as [->| |]; [|reflexivity|lia].
  assert (Hm : Z.pos m2 <= 8388608).
  { change 8388608 with (2 ^ (- -23)). unfold carry in H2'.
    destruct (shr_r r2 || shr_s r2); lia. }
  rewrite Pos.compare_cont_spec. cbn [Pos.switch_Eq].
  destruct (Pos.compare_spec m2 8388608); try reflexivity. lia.
Qed.

Lemma shl_align_bound m e e' :
  e <= 0 -> Z.pos m <= 2 ^ (- e) ->
  let '(mz, ez) := shl_align m e e' in
  ez <= Z.min e e' /\ Z.pos mz <= 2 ^ (- ez).
Proof.
  intros He H. unfold shl_align.
  destruct (e' - e) as [|d|d] eqn:Ed; try (split; [lia | exact H]).
  split; [lia|].
  change (Pos.iter xO m d) with (shift_pos d m).
  rewrite shift_pos_correct, Zpower_pos_nat, Zpower_nat_Z, positive_nat_Z.
  replace (- e') with (Z.pos d + - e) by lia.
  rewrite Z.pow_add_r by lia. nia.
Qed.

(** The binary32 number nearest to a positive number that is at most
    [2 ^ 0] is a zero or at most [one32]. *)
Lemma round_unit m e :
  e <= 0 -> Z.pos m <= 2 ^ (- e) -> unit32 (binary_round 24 128 false m e).
Proof.
  intros He H. unfold binary_round.
  pose proof (shl_align_bound m e (fexp 24 128 (Z.pos (digits2_pos m) + e)) He H)
    as Hs.
  pose proof (fexp32_bound (Z.pos m) e ltac:(lia) He H) as Hf.
  cbn [Zdigits2] in Hf.
  destruct (shl_align _ _ _) as [mz ez]. destruct Hs as [Hez Hmz].
  apply round_aux_unit; lia.
Qed.

Lemma digits2_pos_gt p : Z.pos p < 2 ^ Z.pos (digits2_pos p).
Proof.
  induction p as [p IH|p IH|]; cbn [digits2_pos]; [| |cbn; lia];
    rewrite Pos2Z.inj_succ, Z.pow_succ_r by lia; lia.
Qed.

(** A positive binary64 number that is not above 1, by its mantissa and
    exponent. *)
Lemma finite_le_1 m e :
  valid_binary (S754_finite false m e) = true ->
  SFltb (Prim2SF 1%float) (S754_finite false m e) = false ->
  e <= 0 /\ Z.pos m <= 2 ^ (- e).
Proof.
  change (Prim2SF 1%float) with (S754_finite false 4503599627370496 (-52)).
  unfold valid_binary, bounded, canonical_mantissa, fexp, SFltb, SFcompare.
  intros Hv Hlt. apply andb_prop in Hv as [Hc _]. apply Z.eqb_eq in Hc.
  unfold emin, prec, emax in Hc.
  pose proof (digits2_pos_gt m) as Hd.
  destruct (Z.compare_spec (-52) e) as [<-| |Hgt]; [|discriminate|].
  - split; [lia|]. rewrite Pos.compare_cont_spec in Hlt. cbn [Pos.switch_Eq] in Hlt.
    change (2 ^ (- -52)) with 4503599627370496.
    destruct (Pos.compare_spec 4503599627370496 m) as [E|L|G].
    + rewrite <- E. reflexivity.
    + discriminate Hlt.
    + apply Pos2Z.pos_le_pos, Pos.lt_le_incl, G.
  - split; [lia|].
    assert (2 ^ Z.pos (digits2_pos m) <= 2 ^ (- e))
      by (apply Z.pow_le_mono_r; lia).
    lia.
Qed.

Local Open Scope float_scope.

(** A number that is not below 0 and not above 1 is NaN, which cannot be
    assigned, or is rounded to a binary32 number from 0 to 1. *)
Lemma to_float_notOutside01 v :
  notOutside01 v ->
  (v = nan /\ to_float v = None) \/
  exists g, to_float v = Some g /\ unit32 g.
Proof.
  intros [H0 H1]. rewrite ltb_spec in H0, H1. unfold to_float.
  pose proof (Prim2SF_valid v) as Hv.
  destruct (Prim2SF v) as [s|[]| |[] m e] eqn:E; try discriminate.
  - right. eexists. split; [reflexivity | exact I].
  - left. split; [|reflexivity]. apply FloatFacts.Prim2SF_inj. exact E.
  - right. destruct (finite_le_1 m e Hv H1) as [He Hm].
    pose proof (round_unit m e He Hm) as Hu.
    destruct (binary_round 24 128 false m e) as [s|s| |[] m' e'];
      try contradiction; eexists; split; try reflexivity; exact Hu.
Qed.

Lemma to_float_clamp01 v :
  (v = nan /\ to_float (clamp01 v) = None) \/
  exists g, to_float (clamp01 v) = Some g /\ unit32 g.
Proof.
  destruct (SignFacts.clamp01_cases v) as [[-> ->]|H]; [left; split; reflexivity|].
  right.
  destruct (to_float_notOutside01 _ (SignFacts.clamp01_notOutside v))
    as [[E _]|Hg]; [|exact Hg].
  exfalso. destruct H as [H|[H|(H & H0 & _)]]; rewrite E in H.
  - discriminate (f_equal is_nan H).
  - discriminate (f_equal is_nan H).
  - rewrite <- H in H0. discriminate H0.
Qed.

End Float32Facts.

(** ** Rounds of the marble loop *)

Module MarbleRounds.

Import MarblePhysics MarbleFacts.
Local Open Scope float_scope.

#[local] Arguments getFrequencyLevel : simpl never.

Section WithOracles.

Variable Math_random : nat -> float.
Variable Date_now : nat -> Z.

Abbreviation handleKeyCollision := (handleKeyCollision Math_random Date_now).
Abbreviation arrive := (arrive Math_random).
Abbreviation updateMarble := (updateMarble Math_random Date_now).
Abbreviation updateKeyAnimations := (updateKeyAnimations Date_now).
Abbreviation update := (update Math_random Date_now).
Abbreviation Reachable := (Reachable Math_random Date_now).
Abbreviation afterAnimation := (afterAnimation Date_now).

(** *** What [arrive] and [handleKeyCollision] leave alone *)

Lemma arrive_rest dt ad i st :
  marbleMeshes (arrive dt ad i st) = marbleMeshes st /\
  trailPoints (arrive dt ad i st) = trailPoints st /\
  trailGeometry (arrive dt ad i st) = trailGeometry st /\
  hitEffects (arrive dt ad i st) = hitEffects st.
Proof.
  unfold MarblePhysics.arrive, applyAudioInfluence. destruct ad as [a|];
    [destruct (0.3 <? _)|]; repeat split; reflexivity.
Qed.

Lemma handleKeyCollision_rest i k key st :
  keys st !! k = Some key ->
  marbleMeshes (handleKeyCollision i k st) = marbleMeshes st /\
  trailPoints (handleKeyCollision i k st) = trailPoints st /\
  trailGeometry (handleKeyCollision i k st) = trailGeometry st /\
  hitEffects (handleKeyCollision i k st)
  = hitEffects st ++ [hitPositions Math_random (key_position key)
                        (S (randomCalls st))].
Proof.
  intros Hk. unfold MarblePhysics.handleKeyCollision. rewrite Hk.
  repeat split; reflexivity.
Qed.

Lemma key_frequency_listed ks k key :
  keyboard ks -> ks !! k = Some key -> frequency key ∈ frequencies.
Proof.
  intros Hkb Hk. destruct (keyboard_lookup _ _ _ Hkb Hk) as [Hk7 E].
  apply (f_equal snd) in E. cbn in E. rewrite E.
  do 7 (destruct k as [|k]; [cbn; set_solver|]). lia.
Qed.

Lemma pushed_length ps p :
  (length ps <= 100)%nat ->
  length (pushed ps p) = Nat.min 100 (length ps + 1).
Proof.
  intros H. unfold pushed. rewrite length_app. cbn [length].
  destruct (Nat.ltb_spec 100 (length ps + 1)).
  - rewrite length_drop, length_app. cbn [length]. lia.
  - rewrite length_app. cbn [length]. lia.
Qed.

(** *** One round of the loop, field by field

    The marble of round [i] ends as [m']: it stays in its place, its mesh
    moved to it, or it has left the array together with its mesh.  Its
    position is pushed on the trail.  At most one note is played, with one
    burst of particles. *)
Lemma updateMarble_round dt ad i st m0 :
  inv st -> marbles st !! i = Some m0 ->
  exists m' notes bursts,
    roundOf dt ad m0 m' /\
    trailPoints (updateMarble dt ad i st) = pushed (trailPoints st) (position m') /\
    trailGeometry (updateMarble dt ad i st) = trailGeometry st /\
    synthCalls (updateMarble dt ad i st) = synthCalls st ++ notes /\
    hitEffects (updateMarble dt ad i st) = hitEffects st ++ bursts /\
    length notes = length bursts /\ (length notes <= 1)%nat /\
    Forall noteOk notes /\ Forall (fun b => length b = 60%nat) bursts /\
    ((stays m' = true /\
      marbles (updateMarble dt ad i st) = <[i := m']> (marbles st) /\
      marbleMeshes (updateMarble dt ad i st)
      = alter (moveMesh dt m') i (marbleMeshes st)) \/
     (stays m' = false /\
      marbles (updateMarble dt ad i st) = delete i (marbles st) /\
      marbleMeshes (updateMarble dt ad i st) = delete i (marbleMeshes st))).
Proof.
  intros Hinv Hm. pose proof Hinv as [Hkb Hok].
  destruct (Forall_lookup_1 _ _ _ _ Hok Hm) as [Hr Ha].
  set (m := arrival dt ad (Math_random (randomCalls st))
              (Math_random (S (randomCalls st))) m0).
  destruct (arrive_rest dt ad i st) as (Em & Et & Eg & Eh).
  destruct (collides_dec m (keys st)) as [(k & key & Hk & Hc)|Hmiss].
  - rewrite (updateMarble_hit Math_random Date_now dt ad i k st m0 key)
      by assumption.
    assert (Hk1 : keys (arrive dt ad i st) !! k = Some key)
      by (rewrite arrive_keys; exact Hk).
    destruct (handleKeyCollision_rest i k key _ Hk1) as (Em' & Et' & Eg' & Eh').
    pose proof (arrive_synthCalls Math_random dt ad i st) as Es.
    pose proof (arrive_marbles Math_random dt ad i st) as Ems.
    set (s := arrive dt ad i st) in *.
    exists (struck key (Math_random (randomCalls s)) m),
           [(frequency key,
             noteVelocity (alter (nudged key (Math_random (randomCalls s))) i
                                 (marbles s)))],
           [hitPositions Math_random (key_position key) (S (randomCalls s))].
    cbv zeta. unfold pushTrail, modifyMesh.
    cbn [trailPoints trailGeometry synthCalls hitEffects marbles marbleMeshes
         set_trailPoints set_marbleMeshes].
    rewrite Et', Et, Eg', Eg, Eh', Eh, Em', Em.
    rewrite (handleKeyCollision_synthCalls _ _ _ _ key) by exact Hk1.
    rewrite (handleKeyCollision_marbles _ _ _ _ key) by exact Hk1.
    rewrite Es, Ems.
    split.
    { exists (Math_random (randomCalls st)), (Math_random (S (randomCalls st))).
      right. exists key, (Math_random (randomCalls s)). split; [exact Hc|].
      reflexivity. }
    split; [reflexivity|]. split; [reflexivity|]. split; [reflexivity|].
    split; [reflexivity|]. split; [reflexivity|]. split; [cbn; lia|].
    split.
    { apply Forall_cons. split; [|constructor]. split; cbn [fst snd].
      - exact (key_frequency_listed _ _ _ Hkb Hk).
      - apply SignFacts.noteVelocity_within01. }
    split; [repeat constructor|].
    left. split; [|split; [|reflexivity]].
    + unfold stays.
      rewrite (struck_above key k)
        by (try apply (keyboard_lookup _ _ _ Hkb Hk);
            unfold m; rewrite arrival_radius; exact Hr).
      reflexivity.
    + rewrite list_alter_alter_eq, (alter_insert _ i _ m0 Hm). reflexivity.
  - rewrite (updateMarble_miss Math_random Date_now dt ad i st m0)
      by assumption.
    fold m. exists m, [], []. cbv zeta.
    split.
    { exists (Math_random (randomCalls st)), (Math_random (S (randomCalls st))).
      left. reflexivity. }
    unfold pushTrail, modifyMesh, retire, modifyMarble, stays.
    destruct (belowFloor m);
      cbn [trailPoints trailGeometry synthCalls hitEffects marbles marbleMeshes
           set_trailPoints set_marbleMeshes set_marbles];
      rewrite ?delete_alter, Et, Eg, Eh, Em, arrive_synthCalls, arrive_marbles,
        ?delete_alter, !app_nil_r;
      (split; [reflexivity|]); (split; [reflexivity|]); (split; [reflexivity|]);
      (split; [reflexivity|]); (split; [reflexivity|]); (split; [cbn; lia|]);
      (split; [constructor|]); (split; [constructor|]).
    + right. repeat split; reflexivity.
    + left. split; [reflexivity|]. split; [|reflexivity].
      rewrite (alter_insert _ i _ m0 Hm). reflexivity.
Qed.

(** *** After the loop: [updateTrail] and [updateKeyAnimations] *)

Lemma animateKey_rest i st :
  marbleMeshes (animateKey Date_now i st) = marbleMeshes st /\
  trailPoints (animateKey Date_now i st) = trailPoints st /\
  trailGeometry (animateKey Date_now i st) = trailGeometry st /\
  hitEffects (animateKey Date_now i st) = hitEffects st /\
  randomCalls (animateKey Date_now i st) = randomCalls st.
Proof.
  unfold animateKey. destruct (keys st !! i) as [key|]; [|repeat split; reflexivity].
  destruct (isHit key); [|repeat split; reflexivity].
  destruct (500 <? _)%Z; repeat split; reflexivity.
Qed.

Lemma updateKeyAnimations_rest st :
  marbles (updateKeyAnimations st) = marbles st /\
  marbleMeshes (updateKeyAnimations st) = marbleMeshes st /\
  trailPoints (updateKeyAnimations st) = trailPoints st /\
  trailGeometry (updateKeyAnimations st) = trailGeometry st /\
  hitEffects (updateKeyAnimations st) = hitEffects st /\
  synthCalls (updateKeyAnimations st) = synthCalls st /\
  randomCalls (updateKeyAnimations st) = randomCalls st.
Proof.
  unfold MarblePhysics.updateKeyAnimations, countup.
  apply (fold_left_preserves
           (fun s => marbles s = marbles st /\
                     marbleMeshes s = marbleMeshes st /\
                     trailPoints s = trailPoints st /\
                     trailGeometry s = trailGeometry st /\
                     hitEffects s = hitEffects st /\
                     synthCalls s = synthCalls st /\
                     randomCalls s = randomCalls st));
    [|repeat split; reflexivity].
  intros s i (H1 & H2 & H3 & H4 & H5 & H6 & H7).
  destruct (animateKey_rest i s) as (E2 & E3 & E4 & E5 & E7).
  rewrite animateKey_marbles, animateKey_synthCalls, E2, E3, E4, E5, E7.
  auto 10.
Qed.

Lemma updateTrail_rest st :
  marbles (updateTrail st) = marbles st /\
  marbleMeshes (updateTrail st) = marbleMeshes st /\
  trailPoints (updateTrail st) = trailPoints st /\
  hitEffects (updateTrail st) = hitEffects st /\
  synthCalls (updateTrail st) = synthCalls st /\
  keys (updateTrail st) = keys st.
Proof. unfold updateTrail. destruct (1 <? _)%nat; repeat split; reflexivity. Qed.

(** [update] is its loop, as far as these fields go. *)
Lemma update_loop dt ad st :
  let s := countdown (length (marbles st)) (updateMarble dt ad) st in
  marbles (update dt ad st) = marbles s /\
  marbleMeshes (update dt ad st) = marbleMeshes s /\
  trailPoints (update dt ad st) = trailPoints s /\
  hitEffects (update dt ad st) = hitEffects s /\
  synthCalls (update dt ad st) = synthCalls s.
Proof.
  intros s. unfold MarblePhysics.update. fold s.
  destruct (updateKeyAnimations_rest (updateTrail s))
    as (E1 & E2 & E3 & _ & E5 & E6 & _).
  destruct (updateTrail_rest s) as (F1 & F2 & F3 & F5 & F6 & _).
  rewrite E1, E2, E3, E5, E6, F1, F2, F3, F5, F6. auto.
Qed.

(** *** The loop *)

Lemma drop_delete_same {A} i (l : list A) : drop i (delete i l) = drop (S i) l.
Proof.
  revert i. induction l as [|a l IH]; intros [|i]; cbn; try reflexivity.
  apply IH.
Qed.

Lemma countdown_duringLoop dt ad st :
  inv st ->
  duringLoop (length (marbles st)) st 0
    (countdown (length (marbles st)) (updateMarble dt ad) st).
Proof.
  intros Hinv. set (n := length (marbles st)).
  apply (countdown_ind (duringLoop n st)).
  - split; [exact Hinv|]. split; [reflexivity|]. split; [intros; lia|].
    split.
    + intros Hal. split; [exact Hal|]. unfold n.
      rewrite drop_all. unfold aligned in Hal. rewrite <- Hal, drop_all.
      reflexivity.
    + exists [], []. rewrite !app_nil_r. repeat split; auto; cbn; lia.
  - intros i s Hi (Hs & Hlen & Htrail & Hmesh & notes & bursts & En & Eb & Hnb
                   & Hcount & Hnotes & Hbursts).
    destruct (lookup_lt_is_Some_2 (marbles s) i Hlen) as [m0 Hm].
    destruct (updateMarble_round dt ad i s m0 Hs Hm)
      as (m' & notes' & bursts' & _ & Et & _ & En' & Eb' & Hnb' & Hcount'
          & Hnotes' & Hbursts' & Hcase).
    split; [now apply inv_updateMarble|].
    split.
    { destruct Hcase as [(_ & E & _)|(_ & E & _)]; rewrite E.
      - rewrite length_insert. lia.
      - rewrite length_delete by eauto. lia. }
    split.
    { intros H100. specialize (Htrail H100). rewrite Et, pushed_length by lia.
      lia. }
    split.
    { intros Hal. destruct (Hmesh Hal) as [Hal' Hdrop]. unfold aligned in *.
      assert (Hmesh_i : is_Some (marbleMeshes s !! i))
        by (apply lookup_lt_is_Some_2; lia).
      destruct Hmesh_i as [mesh Hmesh_i].
      destruct Hcase as [(_ & E & E')|(_ & E & E')]; rewrite E, E'.
      - split; [now rewrite length_alter, length_insert|].
        rewrite (drop_S _ m' i) by (apply list_lookup_insert_eq; lia).
        rewrite (drop_S _ (moveMesh dt m' mesh) i)
          by (rewrite list_lookup_alter_eq, Hmesh_i; reflexivity).
        rewrite drop_insert_lt by lia.
        rewrite drop_alter_lt by lia.
        cbn [map]. f_equal. exact Hdrop.
      - split; [rewrite !length_delete by eauto; lia|].
        rewrite !drop_delete_same. exact Hdrop. }
    exists (notes ++ notes'), (bursts ++ bursts').
    rewrite En', Eb', En, Eb, !app_assoc, !length_app.
    repeat split; auto; try lia; apply Forall_app; auto.
Qed.

(** What one call of [update] does to the trail, the meshes and the
    logs. *)
Lemma update_duringLoop dt ad st :
  inv st ->
  exists s, duringLoop (length (marbles st)) st 0 s /\
    marbles (update dt ad st) = marbles s /\
    marbleMeshes (update dt ad st) = marbleMeshes s /\
    trailPoints (update dt ad st) = trailPoints s /\
    hitEffects (update dt ad st) = hitEffects s /\
    synthCalls (update dt ad st) = synthCalls s.
Proof.
  intros Hinv. eexists. split; [exact (countdown_duringLoop dt ad st Hinv)|].
  exact (update_loop dt ad st).
Qed.

(** *** The marbles round by round

    [fates] lists the marbles of the array as their rounds leave them. *)

Lemma pushed_keepLast ps p :
  pushed (keepLast 100 ps) p = keepLast 100 (ps ++ [p]).
Proof.
  unfold pushed, keepLast.
  destruct (Nat.le_gt_cases (length ps) 100) as [Hle|Hgt].
  - assert (E : (length ps - 100 = 0)%nat) by lia. rewrite E, drop_0.
    rewrite length_app. cbn [length].
    destruct (Nat.ltb_spec 100 (length ps + 1)).
    + replace (length ps + 1 - 100)%nat with 1%nat by lia. reflexivity.
    + replace (length ps + 1 - 100)%nat with 0%nat by lia. reflexivity.
  - assert (E : (100 <? length (drop (length ps - 100) ps ++ [p]))%nat = true).
    { apply Nat.ltb_lt. rewrite length_app, length_drop. cbn [length]. lia. }
    rewrite E, <- (drop_app_le ps [p]) by lia. rewrite drop_drop.
    f_equal. rewrite length_app. cbn [length]. lia.
Qed.

Lemma ownMeshes_cons dt m' fates mesh meshes :
  ownMeshes dt (m' :: fates) (mesh :: meshes)
  = if stays m' then moveMesh dt m' mesh :: ownMeshes dt fates meshes
    else ownMeshes dt fates meshes.
Proof. unfold ownMeshes. cbn. destruct (stays m'); reflexivity. Qed.

Lemma countdown_fates dt ad st :
  inv st ->
  let s := countdown (length (marbles st)) (updateMarble dt ad) st in
  exists fates,
    Forall2 (roundOf dt ad) (marbles st) fates /\
    marbles s = List.filter stays fates /\
    ((length (trailPoints st) <= 100)%nat ->
     trailPoints s
     = keepLast 100 (trailPoints st ++ map position (rev fates))) /\
    (aligned st -> marbleMeshes s = ownMeshes dt fates (marbleMeshes st)).
Proof.
  intros Hinv. cbv zeta. set (n := length (marbles st)).
  enough (H : inv (countdown n (updateMarble dt ad) st) /\
              exists fates,
                Forall2 (roundOf dt ad) (drop 0 (marbles st)) fates /\
                marbles (countdown n (updateMarble dt ad) st)
                = take 0 (marbles st) ++ List.filter stays fates /\
                ((length (trailPoints st) <= 100)%nat ->
                 trailPoints (countdown n (updateMarble dt ad) st)
                 = keepLast 100 (trailPoints st ++ map position (rev fates))) /\
                (aligned st ->
                 marbleMeshes (countdown n (updateMarble dt ad) st)
                 = take 0 (marbleMeshes st)
                   ++ ownMeshes dt fates (drop 0 (marbleMeshes st)))).
  { destruct H as (_ & fates & H1 & H2 & H3 & H4). exists fates. auto. }
  apply (countdown_ind
           (fun i s =>
              inv s /\
              exists fates,
                Forall2 (roundOf dt ad) (drop i (marbles st)) fates /\
                marbles s = take i (marbles st) ++ List.filter stays fates /\
                ((length (trailPoints st) <= 100)%nat ->
                 trailPoints s
                 = keepLast 100 (trailPoints st ++ map position (rev fates))) /\
                (aligned st ->
                 marbleMeshes s
                 = take i (marbleMeshes st)
                   ++ ownMeshes dt fates (drop i (marbleMeshes st))))).
  - split; [exact Hinv|]. exists []. unfold n.
    rewrite drop_all, firstn_all, app_nil_r. split; [constructor|].
    split; [reflexivity|]. split.
    + intros H100. unfold keepLast. cbn [rev map]. rewrite app_nil_r.
      replace (length (trailPoints st) - 100)%nat with 0%nat by lia.
      reflexivity.
    + intros Hal. unfold aligned in Hal.
      rewrite <- Hal, firstn_all, drop_all, app_nil_r. reflexivity.
  - intros i s Hi (Hs & fates & Hround & Hms & Htrail & Hmesh).
    destruct (lookup_lt_is_Some_2 (marbles st) i Hi) as [m0 Hm0].
    assert (Hlen : length (take i (marbles st)) = i)
      by (rewrite length_take; fold n; lia).
    assert (Hm : marbles s !! i = Some m0).
    { rewrite Hms, (take_S_r _ _ _ Hm0), <- app_assoc.
      rewrite <- Hlen at 1. apply list_lookup_middle. reflexivity. }
    destruct (updateMarble_round dt ad i s m0 Hs Hm)
      as (m' & _ & _ & Hm' & Et & _ & _ & _ & _ & _ & _ & _ & Hcase).
    split; [now apply inv_updateMarble|].
    exists (m' :: fates).
    split.
    { rewrite (drop_S _ _ _ Hm0). constructor; assumption. }
    split.
    { rewrite Hms, (take_S_r _ _ _ Hm0), <- app_assoc in *. cbn [app] in *.
      cbn [List.filter].
      destruct Hcase as [(Hst & E & _)|(Hst & E & _)]; rewrite E, Hst.
      - rewrite <- Hlen at 1. rewrite <- (Nat.add_0_r (length _)).
        rewrite insert_app_r. reflexivity.
      - rewrite <- Hlen at 1. apply delete_middle. }
    split.
    { intros H100. rewrite Et, (Htrail H100), pushed_keepLast.
      cbn [rev]. now rewrite map_app, app_assoc. }
    intros Hal. specialize (Hmesh Hal). unfold aligned in Hal.
    destruct (lookup_lt_is_Some_2 (marbleMeshes st) i ltac:(lia))
      as [mesh Hmesh_i].
    assert (Hlen' : length (take i (marbleMeshes st)) = i)
      by (rewrite length_take; lia).
    rewrite (drop_S _ _ _ Hmesh_i), ownMeshes_cons.
    rewrite (take_S_r _ _ _ Hmesh_i), <- app_assoc in Hmesh. cbn [app] in Hmesh.
    destruct Hcase as [(Hst & _ & E)|(Hst & _ & E)]; rewrite E, Hst, Hmesh.
    + rewrite <- Hlen' at 1. rewrite <- (Nat.add_0_r (length _)).
      rewrite alter_app_r. reflexivity.
    + rewrite <- Hlen' at 1. apply delete_middle.
Qed.

(** What one call of [update] makes of the marbles, their meshes and the
    trail. *)
Lemma update_fates dt ad st :
  inv st ->
  exists fates,
    Forall2 (roundOf dt ad) (marbles st) fates /\
    marbles (update dt ad st) = List.filter stays fates /\
    ((length (trailPoints st) <= 100)%nat ->
     trailPoints (update dt ad st)
     = keepLast 100 (trailPoints st ++ map position (rev fates))) /\
    (aligned st ->
     marbleMeshes (update dt ad st) = ownMeshes dt fates (marbleMeshes st)).
Proof.
  intros Hinv. destruct (update_loop dt ad st) as (E1 & E2 & E3 & _).
  rewrite E1, E2, E3. exact (countdown_fates dt ad st Hinv).
Qed.

(** X1.  The trail after [update].  Every marble of the array pushes the
    position it has at the end of its own round, the last marble first,
    whether it stays in the array or is retired in that round; the
    positions of the marbles that are left are among the points pushed;
    and of the old points followed by the new ones the trail keeps the
    last 100. *)
Theorem update_trail dt ad st :
  inv st -> (length (trailPoints st) <= 100)%nat ->
  exists fates,
    Forall2 (roundOf dt ad) (marbles st) fates /\
    marbles (update dt ad st) = List.filter stays fates /\
    trailPoints (update dt ad st)
    = keepLast 100 (trailPoints st ++ map position (rev fates)) /\
    length (trailPoints (update dt ad st))
    = Nat.min 100 (length (trailPoints st) + length (marbles st)).
Proof.
  intros Hinv H100.
  destruct (update_fates dt ad st Hinv) as (fates & H1 & H2 & H3 & _).
  exists fates. split; [exact H1|]. split; [exact H2|].
  split; [exact (H3 H100)|].
  rewrite (H3 H100). unfold keepLast.
  rewrite length_drop, length_app, length_map, length_rev.
  rewrite <- (Forall2_length _ _ _ H1). lia.
Qed.

(** X2.  The meshes after [update], when every marble has its mesh.  The
    marble at each index ends its round above the floor or below it.  The
    marbles that end above it are the marbles left, in their order, and
    the meshes left are the meshes that stood at the same indexes, each
    put where its own marble is and turned by its own marble's velocity;
    the mesh of a marble that ends below the floor is gone with it.  So
    every marble left has its mesh, at its position. *)
Theorem update_own_meshes dt ad st :
  inv st -> aligned st ->
  exists fates,
    Forall2 (roundOf dt ad) (marbles st) fates /\
    marbles (update dt ad st) = List.filter stays fates /\
    marbleMeshes (update dt ad st) = ownMeshes dt fates (marbleMeshes st) /\
    aligned (update dt ad st) /\ meshesFollow (update dt ad st).
Proof.
  intros Hinv Hal.
  destruct (update_fates dt ad st Hinv) as (fates & H1 & H2 & _ & H4).
  exists fates. split; [exact H1|]. split; [exact H2|].
  split; [exact (H4 Hal)|].
  destruct (update_duringLoop dt ad st Hinv)
    as (s & (_ & _ & _ & Hm & _) & E1 & E2 & _).
  destruct (Hm Hal) as [Hal' Hdrop].
  unfold aligned, meshesFollow. rewrite E1, E2. split; [exact Hal'|].
  exact Hdrop.
Qed.

(** X3.  The notes of one [update]: the synthesizer log and the list of
    particle bursts only grow; there is one burst of 20 particles (60
    coordinates) for every note, at most one note for every marble of the
    array, and every note has the frequency of one of the seven keys and a
    velocity from 0 to 1. *)
Theorem update_notes dt ad st :
  inv st ->
  exists notes bursts,
    synthCalls (update dt ad st) = synthCalls st ++ notes /\
    hitEffects (update dt ad st) = hitEffects st ++ bursts /\
    length notes = length bursts /\
    (length notes <= length (marbles st))%nat /\
    Forall noteOk notes /\ Forall (fun b => length b = 60%nat) bursts.
Proof.
  intros Hinv.
  destruct (update_duringLoop dt ad st Hinv)
    as (s & (_ & _ & _ & _ & notes & bursts & H) & _ & _ & _ & -> & ->).
  exists notes, bursts. rewrite Nat.sub_0_r in H. exact H.
Qed.

(** *** Reachable states *)

Lemma createMarble_fields h st :
  marbles (createMarble Math_random h st)
  = marbles st ++ [mkMarble (Vector3.mk ((Math_random (randomCalls st) - 0.5) * 2) h 0)
                     (Vector3.mk ((Math_random (S (randomCalls st)) - 0.5) * 2) 0 0)
                     (Vector3.mk 0 0 0) 0.3 1 0 true] /\
  marbleMeshes (createMarble Math_random h st)
  = marbleMeshes st
    ++ [mkMesh (Vector3.mk ((Math_random (randomCalls st) - 0.5) * 2) h 0) 0 0] /\
  trailPoints (createMarble Math_random h st) = trailPoints st /\
  hitEffects (createMarble Math_random h st) = hitEffects st /\
  synthCalls (createMarble Math_random h st) = synthCalls st /\
  keys (createMarble Math_random h st) = keys st.
Proof. repeat split; reflexivity. Qed.

Lemma wellFormed_createMarble h st :
  wellFormed st -> wellFormed (createMarble Math_random h st).
Proof.
  intros (Hinv & Hal & Hfol & Ht & Hl & Hn & Hb).
  destruct (createMarble_fields h st) as (E1 & E2 & E3 & E4 & E5 & _).
  split; [now apply inv_createMarble|].
  unfold aligned, meshesFollow in *. rewrite E1, E2, E3, E4, E5.
  rewrite !length_app, !map_app, Hal, Hfol. repeat split; auto.
Qed.

Lemma wellFormed_clearMarbles st : wellFormed st -> wellFormed (clearMarbles st).
Proof.
  intros (Hinv & Hal & Hfol & Ht & Hl & Hn & Hb).
  split; [now apply inv_clearMarbles|]. repeat split; auto. cbn. lia.
Qed.

Lemma wellFormed_update dt ad st : wellFormed st -> wellFormed (update dt ad st).
Proof.
  intros (Hinv & Hal & Hfol & Ht & Hl & Hn & Hb).
  destruct (update_duringLoop dt ad st Hinv)
    as (s & (_ & _ & Htr & Hm & notes & bursts & En & Eb & Hnb & _ & Hno & Hbu)
        & E1 & E2 & E3 & E4 & E5).
  destruct (Hm Hal) as [Hal' Hdrop].
  split; [now apply inv_update|].
  unfold aligned, meshesFollow. rewrite E1, E2, E3, E4, E5, En, Eb.
  rewrite (Htr Ht), !length_app.
  repeat split; auto; try lia; apply Forall_app; auto.
Qed.

Lemma reachable_physics_wellFormed st : Reachable st -> wellFormed st.
Proof.
  induction 1 as [|h st _ IH|dt ad st _ IH|v b st _ IH|st _ IH|st _ IH|st _ IH].
  - split; [apply inv_new|]. repeat split; auto; cbn; lia.
  - now apply wellFormed_createMarble.
  - now apply wellFormed_update.
  - unfold spawnMarbleFromAudio.
    destruct (_ && _); [now apply wellFormed_createMarble | exact IH].
  - now apply wellFormed_clearMarbles.
  - now apply wellFormed_createMarble.
  - now apply wellFormed_clearMarbles.
Qed.

(** X4.  What holds of every state the constructor and the public methods
    ([createMarble], [update], [spawnMarbleFromAudio], [clearMarbles],
    [createTestMarble], [dispose]) produce: the seven keys are where the
    constructor put them, every marble is active with radius 0.3 and has
    its mesh at its own position, the trail holds at most 100 points, and
    every note of the log has a key's frequency, a velocity from 0 to 1
    and its burst of 20 particles. *)
Theorem reachable_state st :
  Reachable st ->
  inv st /\ aligned st /\ meshesFollow st /\
  (length (trailPoints st) <= 100)%nat /\
  length (hitEffects st) = length (synthCalls st) /\
  Forall noteOk (synthCalls st) /\
  Forall (fun b => length b = 60%nat) (hitEffects st).
Proof. exact (reachable_physics_wellFormed st). Qed.

(** X5.  [playNote] calls the synthesizer once, with a velocity that is a
    number from 0 to 1 whatever the marbles are: never NaN, never
    negative, never above 1. *)
Theorem playNote_velocity frequency st :
  exists velocity,
    synthCalls (playNote frequency st) = synthCalls st ++ [(frequency, velocity)] /\
    JS.within01 velocity.
Proof.
  exists (noteVelocity (marbles st)). split; [reflexivity|].
  apply SignFacts.noteVelocity_within01.
Qed.

(** X6.  A marble leaves a key upwards or not at all: after
    [handleKeyCollision] its vertical velocity is not negative, whatever
    it was before. *)
Theorem struck_never_downward key r m :
  (Vector3.y (velocity (struck key r m)) <? 0) = false.
Proof.
  change (Vector3.y (velocity (struck key r m)))
    with (JS.Math_abs (Vector3.y (velocity m)) * bounceDamping).
  apply SignFacts.notNegative_ltb, SignFacts.signPlus_notNegative.
  apply SignFacts.mul_signPlus; [apply SignFacts.abs_signPlus | exact I].
Qed.

(** X7.  [clearMarbles] empties the array of trail points but not the
    line that is drawn: the next [update] finds no marble and fewer than
    two points, and leaves the trail geometry as it was. *)
Theorem clearMarbles_keeps_trail_drawn dt ad st :
  trailPoints (clearMarbles st) = [] /\
  trailGeometry (update dt ad (clearMarbles st)) = trailGeometry st /\
  marbles (update dt ad (clearMarbles st)) = [].
Proof.
  split; [reflexivity|].
  set (c := clearMarbles st). unfold MarblePhysics.update.
  change (length (marbles c)) with 0%nat. cbn [countdown].
  destruct (updateKeyAnimations_rest (updateTrail c)) as (E1 & _ & _ & E4 & _).
  rewrite E1, E4. split; reflexivity.
Qed.

(** *** updateKeyAnimations *)

Lemma filter_take_S {A} (f : A -> bool) j (l : list A) a :
  l !! j = Some a ->
  length (List.filter f (take (S j) l))
  = (length (List.filter f (take j l)) + (if f a then 1 else 0))%nat.
Proof.
  intros H. rewrite (take_S_r _ _ _ H), List.filter_app, length_app. cbn.
  destruct (f a); reflexivity.
Qed.

Lemma animateKey_loop st j :
  (j <= length (keys st))%nat ->
  let s := fold_left (fun s i => animateKey Date_now i s) (seq 0 j) st in
  nowCalls s
  = (nowCalls st + length (List.filter isHit (take j (keys st))))%nat /\
  forall i, keys s !! i
            = if decide (i < j)%nat then afterAnimation st i <$> keys st !! i
              else keys st !! i.
Proof.
  induction j as [|j IH]; intros Hj.
  - cbn. split; [rewrite take_0; cbn; lia|]. intros i.
    destruct (decide (i < 0)%nat); [lia | reflexivity].
  - rewrite seq_S, fold_left_app. cbn [fold_left Nat.add].
    destruct (IH ltac:(lia)) as [Hnow Hkeys]. clear IH.
    set (s := fold_left _ (seq 0 j) st) in *.
    destruct (lookup_lt_is_Some_2 (keys st) j ltac:(lia)) as [key Hkey].
    assert (Hsj : keys s !! j = Some key).
    { rewrite Hkeys. destruct (decide (j < j)%nat); [lia | exact Hkey]. }
    rewrite (filter_take_S _ _ _ _ Hkey).
    unfold animateKey. rewrite Hsj.
    assert (Hafter : afterAnimation st j key
                     = if isHit key
                       then if (500 <? Date_now (nowCalls s) - hitTime key)%Z
                            then with_hit key false (hitTime key) else key
                       else key).
    { unfold afterAnimation, released, readingFor. rewrite Hnow.
      destruct (isHit key); [|reflexivity]. cbn [andb]. reflexivity. }
    destruct (isHit key).
    + destruct (500 <? _)%Z eqn:Hlate.
      * cbn [nowCalls modifyKey set_keys set_nowCalls keys]. split; [lia|].
        intros i. destruct (decide (i = j)) as [->|Hne].
        -- rewrite list_lookup_alter_eq, Hsj, Hkey.
           destruct (decide (j < S j)%nat); [|lia]. cbn. now rewrite Hafter.
        -- rewrite list_lookup_alter_ne by auto. rewrite Hkeys.
           destruct (decide (i < j)%nat), (decide (i < S j)%nat);
             try lia; reflexivity.
      * cbn [nowCalls set_nowCalls keys]. split; [lia|].
        intros i. rewrite Hkeys. destruct (decide (i = j)) as [->|Hne].
        -- destruct (decide (j < j)%nat), (decide (j < S j)%nat); try lia.
           rewrite Hkey. cbn. now rewrite Hafter.
        -- destruct (decide (i < j)%nat), (decide (i < S j)%nat);
             try lia; reflexivity.
    + split; [lia|]. intros i. rewrite Hkeys.
      destruct (decide (i = j)) as [->|Hne].
      * destruct (decide (j < j)%nat), (decide (j < S j)%nat); try lia.
        rewrite Hkey. cbn. now rewrite Hafter.
      * destruct (decide (i < j)%nat), (decide (i < S j)%nat);
          try lia; reflexivity.
Qed.

(** X8.  [updateKeyAnimations] reads the clock once for every lit key and
    not at all for the others; it changes nothing of a key but [isHit],
    and it puts out a lit key exactly when its own reading of the clock is
    more than 500 ms after the key's [hitTime]. *)
Theorem updateKeyAnimations_keys st :
  nowCalls (updateKeyAnimations st)
  = (nowCalls st + length (List.filter isHit (keys st)))%nat /\
  forall i, keys (updateKeyAnimations st) !! i
            = afterAnimation st i <$> keys st !! i.
Proof.
  destruct (animateKey_loop st (length (keys st)) (le_n _)) as [Hnow Hkeys].
  unfold MarblePhysics.updateKeyAnimations, countup.
  split; [now rewrite Hnow, firstn_all|].
  intros i. rewrite Hkeys. destruct (decide (i < length (keys st))%nat) as [|Hge];
    [reflexivity|].
  rewrite (lookup_ge_None_2 (keys st) i) by lia. reflexivity.
Qed.

End WithOracles.

End MarbleRounds.


(** ** The analyzer over its life *)

Module AnalyzerLife.

Import AudioAnalyzer.
Local Open Scope float_scope.

(** *** The bands of a buffer of 1024 bins *)

Lemma bands_1024 data :
  length data = 1024%nat ->
  calculateFrequencyBand data 0 10 = meanAbs data 0 102 /\
  calculateFrequencyBand data 10 50 = meanAbs data 102 512 /\
  calculateFrequencyBand data 50 100 = meanAbs data 512 1024.
Proof.
  intros H. unfold calculateFrequencyBand, meanAbs, JS.length_of. rewrite H.
  repeat split; f_equal; vm_compute; reflexivity.
Qed.

Lemma sumAbs_signPlus data first last :
  JS.signPlus (Prim2SF (sumAbs data first last)).
Proof.
  unfold sumAbs. apply SignFacts.fold_sum_signPlus; [|exact I].
  intros i. apply SignFacts.abs_signPlus.
Qed.

Lemma meanAbs_notNegative data first last :
  (meanAbs data first last <? 0) = false.
Proof.
  apply SignFacts.notNegative_ltb, SignFacts.div_notNegative.
  - apply SignFacts.signPlus_notNegative, sumAbs_signPlus.
  - apply SignFacts.of_Z_signPlus.
Qed.

Lemma calculateRMS_notNegative data : (calculateRMS data <? 0) = false.
Proof.
  apply SignFacts.notNegative_ltb. unfold calculateRMS.
  apply SignFacts.sqrt_notNegative.
Qed.

(** *** The invariant *)

Lemma copy_into_length src dst : length (JS.copy_into src dst) = length dst.
Proof.
  unfold JS.copy_into. rewrite length_app, length_take, length_drop, length_map.
  lia.
Qed.

Ltac wf_split :=
  unfold wellFormed; cbn;
  repeat match goal with
    | |- _ /\ _ => split
    | |- _ <-> _ => split
    end;
  intros;
  repeat match goal with
    | H : is_Some None |- _ => destruct H as [? H]; discriminate H
    | H : Some _ = None |- _ => discriminate H
    | H : None = Some _ |- _ => discriminate H
    | H : true = false |- _ => discriminate H
    | H : false = true |- _ => discriminate H
    | H : Some _ = Some _ |- _ => injection H as H; subst
    end;
  eauto.

Lemma wellFormed_initAudioContext outcome a :
  audioContext a = false -> wellFormed a -> wellFormed (initAudioContext outcome a).
Proof.
  intros Hc (H1 & H2 & H3 & H4 & H5 & H6 & H7).
  destruct a as [c an f w s g p id]. cbn in *. subst c.
  assert (Hs : s = None).
  { destruct s; [|reflexivity]. discriminate (H4 (mk_is_Some _ _ eq_refl)). }
  subst s.
  assert (Hp : p = false).
  { destruct p; [|reflexivity]. destruct (H5 eq_refl) as [? ?]. discriminate. }
  subst p.
  destruct outcome; wf_split; try tauto; try (split; reflexivity);
    try (rewrite length_replicate; reflexivity).
Qed.

Lemma wellFormed_new outcome : wellFormed (new outcome).
Proof.
  apply wellFormed_initAudioContext; [reflexivity|]. wf_split.
Qed.

(** [stopAnalysis] leaves no frame pending but one with the id 0. *)
Lemma stopAnalysis_fields a :
  audioContext (stopAnalysis a) = audioContext a /\
  analyser (stopAnalysis a) = analyser a /\
  frequencyData (stopAnalysis a) = frequencyData a /\
  timeDomainData (stopAnalysis a) = timeDomainData a /\
  source (stopAnalysis a) = source a /\
  gainNode (stopAnalysis a) = gainNode a /\
  isPlaying (stopAnalysis a) = isPlaying a /\
  animationId (stopAnalysis a)
  = match animationId a with Some O => Some O | _ => None end.
Proof.
  unfold stopAnalysis. destruct (animationId a) as [[|id]|] eqn:E;
    repeat split; cbn; try reflexivity; exact E.
Qed.

(** After [stopAnalysis] nothing needs to be playing. *)
Lemma wellFormed_stopAnalysis a :
  (frequencyData a = None <-> timeDomainData a = None) ->
  (forall f, frequencyData a = Some f -> length f = frequencyBinCount) ->
  (forall w, timeDomainData a = Some w -> length w = frequencyBinCount) ->
  (is_Some (source a) -> audioContext a = true) ->
  (isPlaying a = true -> is_Some (source a)) ->
  (forall g, gainNode a = Some g -> JS.unit32 g) ->
  wellFormed (stopAnalysis a).
Proof.
  intros H1 H2 H3 H4 H5 H7.
  destruct (stopAnalysis_fields a) as (E1 & E2 & E3 & E4 & E5 & E6 & E7 & E8).
  unfold wellFormed. rewrite E1, E3, E4, E5, E6, E7, E8.
  repeat match goal with |- _ /\ _ => split end; try assumption.
  intros id Hid Hne. destruct (animationId a) as [[|id']|]; congruence.
Qed.

Lemma wellFormed_stop a : wellFormed a -> wellFormed (stop a).
Proof.
  intros (H1 & H2 & H3 & H4 & H5 & H6 & H7). unfold stop.
  apply wellFormed_stopAnalysis; cbn; try assumption.
  - intros [? ?]; discriminate.
  - discriminate.
Qed.

Lemma wellFormed_pause a : wellFormed a -> wellFormed (pause a).
Proof.
  intros H. pose proof H as (H1 & H2 & H3 & H4 & H5 & H6 & H7). unfold pause.
  destruct (source a) eqn:Hs; [|exact H].
  destruct (isPlaying a) eqn:Hp; [|exact H].
  apply wellFormed_stopAnalysis; cbn; try assumption. discriminate.
Qed.

Lemma wellFormed_setVolume v a :
  wellFormed a -> wellFormed (fst (setVolume v a)).
Proof.
  intros H. pose proof H as (H1 & H2 & H3 & H4 & H5 & H6 & H7). unfold setVolume.
  destruct (gainNode a) eqn:Hg; [|exact H].
  fold (JS.clamp01 v).
  destruct (Float32Facts.to_float_clamp01 v) as [[_ ->]|(g & -> & Hu)];
    [exact H|].
  wf_split; try tauto.
Qed.

Lemma wellFormed_dispose a : wellFormed a -> wellFormed (dispose a).
Proof.
  intros H. pose proof (wellFormed_stop a H) as (H1 & H2 & H3 & H4 & H5 & H6 & H7).
  destruct (AnalyzerClaims.stop_fields a) as (_ & _ & _ & _ & Es & _ & Ep).
  unfold dispose, wellFormed.
  cbn [audioContext analyser frequencyData timeDomainData source gainNode
       isPlaying animationId].
  repeat match goal with |- _ /\ _ => split end; try assumption.
  rewrite Es. intros [? ?]; discriminate.
Qed.

Lemma wellFormed_analyze spectrum waveform frame a a' :
  wellFormed a -> analyze spectrum waveform frame a = Some a' -> wellFormed a'.
Proof.
  intros H. pose proof H as (H1 & H2 & H3 & H4 & H5 & H6 & H7). unfold analyze.
  destruct (isPlaying a) eqn:Hp; [|intros [= <-]; exact H].
  destruct (analyser a); [|intros [= <-]; exact H]. cbn [negb orb].
  destruct (frequencyData a) as [f|] eqn:Hf; [|discriminate].
  destruct (timeDomainData a) as [w|] eqn:Hw; [|discriminate].
  intros [= <-]. wf_split; rewrite ?copy_into_length; auto.
Qed.

Lemma wellFormed_playing a :
  wellFormed a -> is_Some (source a) -> audioContext a = true ->
  wellFormed (mk (audioContext a) (analyser a) (frequencyData a)
                 (timeDomainData a) (source a) (gainNode a) true (animationId a)).
Proof.
  intros (H1 & H2 & H3 & H4 & H5 & H6 & H7) Hs Hc. wf_split; try tauto.
Qed.

Lemma wellFormed_play startThrows spectrum waveform frame a :
  wellFormed a -> wellFormed (fst (play startThrows spectrum waveform frame a)).
Proof.
  intros H. unfold play.
  destruct (source a) as [d|] eqn:Hs; [|exact H].
  destruct (audioContext a) eqn:Hc; [|exact H]. cbn [negb].
  assert (Hplaying := wellFormed_playing a H
                        ltac:(rewrite Hs; eauto) Hc).
  rewrite Hs, Hc in Hplaying.
  destruct (analyze _ _ _ _) as [a'|] eqn:Ha.
  - pose proof (wellFormed_analyze _ _ _ _ _ Hplaying Ha).
    destruct startThrows; assumption.
  - destruct startThrows; exact Hplaying.
Qed.

Lemma wellFormed_loadAudioFile reinit decoded a :
  wellFormed a -> wellFormed (fst (loadAudioFile reinit decoded a)).
Proof.
  intros H. unfold loadAudioFile.
  set (a1 := if audioContext a then a else initAudioContext reinit a).
  assert (H1 : wellFormed a1).
  { unfold a1. destruct (audioContext a) eqn:Hc; [exact H|].
    now apply wellFormed_initAudioContext. }
  destruct (audioContext a1) eqn:Hc1; [|exact H1]. cbn [negb].
  destruct decoded as [d|]; [|exact H1].
  assert (H2 : wellFormed
                 (mk (audioContext (stop a1)) (analyser (stop a1))
                     (frequencyData (stop a1)) (timeDomainData (stop a1))
                     (Some d) (gainNode (stop a1)) (isPlaying (stop a1))
                     (animationId (stop a1)))).
  { destruct (wellFormed_stop a1 H1) as (G1 & G2 & G3 & G4 & G5 & G6 & G7).
    destruct (AnalyzerClaims.stop_fields a1) as (Ec & _ & _ & _ & _ & _ & Ep).
    unfold wellFormed.
    cbn [audioContext analyser frequencyData timeDomainData source gainNode
         isPlaying animationId].
    repeat match goal with |- _ /\ _ => split end; try assumption.
    - intros _. now rewrite Ec.
    - rewrite Ep. discriminate. }
  cbn [gainNode]. destruct (gainNode (stop a1)); exact H2.
Qed.

Lemma reachable_analyzer_wellFormed a : Reachable a -> wellFormed a.
Proof.
  induction 1; eauto using wellFormed_new, wellFormed_loadAudioFile,
    wellFormed_play, wellFormed_analyze, wellFormed_pause, wellFormed_stop,
    wellFormed_setVolume, wellFormed_dispose.
Qed.

(** X9.  What holds of every state of an analyzer, whatever was called and
    whatever failed: the two buffers exist together and hold 1024 values
    each; a source is loaded only in a live context; audio plays only
    from a loaded source; a frame with an id other than 0 is pending only
    while playing (the id 0 is falsy, so [stopAnalysis] would leave it);
    and the gain is a binary32 number from 0 to 1. *)
Theorem reachable_analyzer a :
  Reachable a ->
  (frequencyData a = None <-> timeDomainData a = None) /\
  (forall f, frequencyData a = Some f -> length f = 1024%nat) /\
  (forall w, timeDomainData a = Some w -> length w = 1024%nat) /\
  (is_Some (source a) -> audioContext a = true) /\
  (isPlaying a = true -> is_Some (source a)) /\
  (forall id, animationId a = Some id -> id <> 0%nat -> isPlaying a = true) /\
  (forall g, gainNode a = Some g -> JS.unit32 g).
Proof. exact (reachable_analyzer_wellFormed a). Qed.

(** X10.  The feature vector of an analyzer in any reachable state: the raw
    buffers hold 1024 values, or the vector is the silent one; with
    buffers, the three levels are the means of the absolute values over
    the bins 0-101, 102-511 and 512-1023; and neither a level nor the
    volume is ever negative. *)
Theorem reachable_feature_vector a :
  Reachable a ->
  let d := getAudioData a in
  (length (Types.frequencyData d) = 1024%nat \/ d = silent []) /\
  (Types.frequencyData d <> [] ->
   Types.bassLevel d = meanAbs (Types.frequencyData d) 0 102 /\
   Types.midLevel d = meanAbs (Types.frequencyData d) 102 512 /\
   Types.trebleLevel d = meanAbs (Types.frequencyData d) 512 1024) /\
  (Types.bassLevel d <? 0) = false /\ (Types.midLevel d <? 0) = false /\
  (Types.trebleLevel d <? 0) = false /\ (Types.volume d <? 0) = false.
Proof.
  intros Hr. destruct (reachable_analyzer_wellFormed a Hr) as (_ & Hf & _).
  unfold getAudioData.
  destruct (frequencyData a) as [f|]; [destruct (timeDomainData a) as [w|]|];
    cbv zeta; cbn [Types.frequencyData Types.bassLevel Types.midLevel
                   Types.trebleLevel Types.volume];
    try (split; [right; reflexivity|]; split; [intros []; reflexivity|];
         repeat split; reflexivity).
  destruct (bands_1024 f (Hf f eq_refl)) as (-> & -> & ->).
  split; [left; apply Hf; reflexivity|]. split; [auto|].
  repeat split; try apply meanAbs_notNegative. apply calculateRMS_notNegative.
Qed.

(** X11.  The physics computes its three levels from the raw spectrum with
    the analyzer's own formula.  They are the levels of the feature vector
    when the analyzer has its buffers; when it has not, the feature vector
    says 0 and the physics computes NaN from the empty spectrum. *)
Theorem physics_levels_agree a :
  let d := getAudioData a in
  let level := MarblePhysics.getFrequencyLevel (Types.frequencyData d) in
  (forall data start end_,
     MarblePhysics.getFrequencyLevel data start end_
     = calculateFrequencyBand data start end_) /\
  match frequencyData a, timeDomainData a with
  | Some _, Some _ =>
      level 0 10 = Types.bassLevel d /\ level 10 50 = Types.midLevel d /\
      level 50 100 = Types.trebleLevel d
  | _, _ =>
      (Types.bassLevel d = 0 /\ Types.midLevel d = 0 /\ Types.trebleLevel d = 0) /\
      level 0 10 = nan /\ level 10 50 = nan /\ level 50 100 = nan
  end.
Proof.
  cbv zeta. split; [reflexivity|]. unfold getAudioData.
  destruct (frequencyData a) as [f|]; [destruct (timeDomainData a) as [w|]|];
    cbn [Types.frequencyData Types.bassLevel Types.midLevel Types.trebleLevel];
    repeat split; reflexivity.
Qed.

(** X12.  [stop] forgets the audio: the duration reads 0, and [play],
    [pause], another [stop] and the frame callback do nothing. *)
Theorem stop_forgets_audio startThrows spectrum waveform frame a :
  getDuration (stop a) = 0 /\ isAudioPlaying (stop a) = false /\
  play startThrows spectrum waveform frame (stop a) = (stop a, true) /\
  analyze spectrum waveform frame (stop a) = Some (stop a) /\
  stop (stop a) = stop a /\ pause (stop a) = stop a.
Proof.
  unfold getDuration, isAudioPlaying, play, analyze, pause, stop, stopAnalysis.
  cbn [animationId]. destruct (animationId a) as [[|id]|]; repeat split; reflexivity.
Qed.

(** X13.  [loadAudioFile]: when the promise resolves, the file was decoded,
    [getDuration] returns the duration of the decoded buffer, nothing is
    playing, no frame is pending (but one with the id 0, which
    [stopAnalysis] takes for none), and there are a context and a gain
    node; when reading or decoding fails, the promise is rejected, and an
    analyzer that had its context is left as it was. *)
Theorem loadAudioFile_outcome reinit decoded a a' resolves :
  loadAudioFile reinit decoded a = (a', resolves) ->
  (resolves = true ->
   exists duration,
     decoded = Some duration /\ getDuration a' = duration /\
     isAudioPlaying a' = false /\
     animationId a' = match animationId a with Some O => Some O | _ => None end /\
     audioContext a' = true /\ is_Some (gainNode a')) /\
  (decoded = None -> resolves = false /\
   (audioContext a = true -> a' = a)).
Proof.
  unfold loadAudioFile.
  set (a1 := if audioContext a then a else initAudioContext reinit a).
  assert (Hid : animationId a1 = animationId a)
    by (unfold a1; destruct (audioContext a); [|destruct reinit]; reflexivity).
  destruct (AnalyzerClaims.stop_fields a1) as (Ec & _ & _ & _ & _ & Eg & Ep).
  assert (Eid : animationId (stop a1)
                = match animationId a with Some O => Some O | _ => None end).
  { unfold stop. rewrite (proj2 (proj2 (proj2 (proj2 (proj2 (proj2 (proj2
              (stopAnalysis_fields _)))))))). cbn [animationId].
    now rewrite Hid. }
  destruct (audioContext a1) eqn:Hc1; cbn [negb].
  - destruct decoded as [d|].
    + cbn [gainNode]. destruct (gainNode (stop a1)) eqn:Hg; intros [= <- <-].
      * split; [|discriminate]. intros _. exists d. cbn.
        rewrite Ec, Ep, Eid. repeat split; eauto.
      * split; discriminate.
    + intros [= <- <-]. split; [discriminate|]. intros _. split; [reflexivity|].
      unfold a1. now intros ->.
  - intros [= <- <-]. split; [discriminate|]. intros _. split; [reflexivity|].
    unfold a1. now intros ->.
Qed.

(** X14.  [setVolume] on an analyzer with a gain node.  A volume of NaN
    makes the assignment to [gain.value] throw, and the analyzer is left
    as it was.  Any other volume is clamped to [0, 1] (the volume itself
    when it is above 0 and at most 1, 1 when it is above 1, 0 when it is
    below 0), and the gain becomes the binary32 number nearest to the
    clamped volume, a number from 0 to 1; nothing else changes.  The
    volumes 0 and 1 are stored exactly. *)
Theorem setVolume_gain volume a :
  is_Some (gainNode a) ->
  (volume = nan -> setVolume volume a = (a, false)) /\
  (volume <> nan ->
   exists gain,
     JS.to_float (JS.clamp01 volume) = Some gain /\ JS.unit32 gain /\
     setVolume volume a
     = (mk (audioContext a) (analyser a) (frequencyData a) (timeDomainData a)
           (source a) (Some gain) (isPlaying a) (animationId a), true)) /\
  ((0 <? volume) = true -> (volume <=? 1) = true -> JS.clamp01 volume = volume) /\
  ((1 <? volume) = true -> JS.clamp01 volume = 1) /\
  ((volume <? 0) = true -> JS.clamp01 volume = 0) /\
  JS.to_float 0 = Some (S754_zero false) /\ JS.to_float 1 = Some JS.one32.
Proof.
  intros [g Hg]. unfold setVolume. rewrite Hg. fold (JS.clamp01 volume).
  split; [intros ->; reflexivity|].
  split.
  { intros Hn.
    destruct (Float32Facts.to_float_clamp01 volume) as [[E _]|(gain & E & Hu)];
      [contradiction|].
    exists gain. rewrite E. auto. }
  split; [apply SignFacts.clamp01_inside|].
  split; [apply SignFacts.clamp01_above|].
  split; [apply SignFacts.clamp01_below|].
  split; reflexivity.
Qed.

End AnalyzerLife.


(** ** The synthesizer *)

Module SynthFacts.

Import XylophoneSynth.
Local Open Scope float_scope.

(** *** The volume *)

Lemma mirrors_initAudioContext outcome s :
  mirrors s -> mirrors (initAudioContext outcome s).
Proof.
  intros [H1 H2]. destruct outcome; try (split; assumption).
  all: split; [exact H1|]; cbn [initAudioContext gainNode masterVolume];
    intros g [= <-].
  all: destruct (Float32Facts.to_float_notOutside01 _ H1)
         as [[E E']|(g & E' & Hu)]; rewrite E'; cbn [default];
       [split; [reflexivity | right; exact E] | split; [exact Hu | left; reflexivity]].
Qed.

Lemma mirrors_createXylophoneSound frequency velocity s :
  mirrors s -> mirrors (createXylophoneSound frequency velocity s).
Proof.
  intros H. unfold createXylophoneSound. destruct (negb _); exact H.
Qed.

Lemma mirrors_fromStateTest suspended frequency velocity s :
  mirrors s -> mirrors (fst (fromStateTest suspended frequency velocity s)).
Proof.
  intros H. unfold fromStateTest. destruct suspended; [exact H|].
  now apply mirrors_createXylophoneSound.
Qed.

Lemma reachable_mirrors s : Reachable s -> mirrors s.
Proof.
  induction 1 as [outcome|outcome suspended f v s _ IH|suspended f v s _ IH
                  |resolved f v s _ IH|volume s _ IH|s _ IH].
  - apply mirrors_initAudioContext. split; [split; reflexivity | discriminate].
  - unfold playNote. destruct (ready s).
    + now apply mirrors_fromStateTest.
    + now apply mirrors_initAudioContext.
  - unfold afterInit. destruct (ready s); [|exact IH].
    now apply mirrors_fromStateTest.
  - unfold afterResume. destruct resolved; [|exact IH].
    now apply mirrors_createXylophoneSound.
  - destruct IH as [_ IH]. unfold setVolume. fold (JS.clamp01 volume).
    pose proof (SignFacts.clamp01_notOutside volume) as Hc.
    destruct (gainNode s) as [g|] eqn:Hg; [|split; [exact Hc | discriminate]].
    destruct (Float32Facts.to_float_notOutside01 _ Hc) as [[E E']|(g' & E' & Hu)];
      rewrite E'; (split; [exact Hc|]); cbn [fst gainNode masterVolume];
      intros g0 [= <-].
    + split; [exact (proj1 (IH g eq_refl)) | right; exact E].
    + split; [exact Hu | left; exact E'].
  - exact IH.
Qed.

(** X15.  In every state of a synthesizer the master volume is never below
    0 or above 1, and the gain of the node, when there is one, is a
    binary32 number from 0 to 1: the one nearest to the master volume,
    unless the master volume is NaN.  That happens: [setVolume(NaN)]
    overwrites the master volume with NaN before the assignment to
    [gain.value] throws, and the gain stays what it was. *)
Theorem reachable_synth_volume s :
  Reachable s ->
  JS.notOutside01 (getVolume s) /\
  (forall g, gainNode s = Some g ->
     JS.unit32 g /\ (JS.to_float (getVolume s) = Some g \/ getVolume s = nan)) /\
  getVolume (fst (setVolume nan s)) = nan /\
  gainNode (fst (setVolume nan s)) = gainNode s /\
  (is_Some (gainNode s) -> snd (setVolume nan s) = false).
Proof.
  intros Hr. destruct (reachable_mirrors s Hr) as [H1 H2].
  split; [exact H1|]. split; [exact H2|].
  unfold setVolume. destruct (gainNode s) as [g|]; cbn.
  - repeat split; reflexivity.
  - repeat split; try reflexivity. intros [? ?]; discriminate.
Qed.

(** *** The notes *)

Lemma ready_sounds frequency velocity s :
  ready s = true ->
  createXylophoneSound frequency velocity s
  = mk true (gainNode s) (masterVolume s) (sounds s ++ [(frequency, velocity)]).
Proof.
  intros Hr. unfold createXylophoneSound. rewrite Hr. cbn [negb].
  unfold ready in Hr. apply andb_prop in Hr as [-> _]. reflexivity.
Qed.

Lemma ready_initAudioContext outcome s :
  ready (initAudioContext outcome s)
  = match outcome with
    | ContextFails => ready s
    | GainFails => bool_decide (is_Some (gainNode s))
    | ConnectFails | Initialised => true
    end.
Proof.
  destruct outcome; unfold ready; cbn; try reflexivity;
    apply bool_decide_eq_true_2; eauto.
Qed.

Lemma initAudioContext_sounds outcome s :
  sounds (initAudioContext outcome s) = sounds s.
Proof. destruct outcome; reflexivity. Qed.

(** X16.  One call of [playNote], followed to its end with nothing in
    between.  The note sounds, and there is a live context afterwards,
    exactly when the context and the gain node exist or the
    initialisation gets as far as the gain node, and the context is not
    suspended or [resume()] resolves; in every other case the sounds are
    as before.  Within the call itself the note sounds only when the
    context and the gain node exist and the context is not suspended:
    otherwise the call gives up control at an [await] with nothing
    sounded.  A note that waits for [resume()] is lost when [dispose] runs
    in between. *)
Theorem playNote_sounds outcome suspended resolved frequency velocity s :
  let started := ready s || ready (initAudioContext outcome s) in
  let resumed := negb suspended || resolved in
  let s' := playNoteAlone outcome suspended resolved frequency velocity s in
  (started && resumed = true ->
   sounds s' = sounds s ++ [(frequency, velocity)] /\ audioContext s' = true) /\
  (started && resumed = false -> sounds s' = sounds s) /\
  ready (initAudioContext outcome s)
  = match outcome with
    | ContextFails => ready s
    | GainFails => bool_decide (is_Some (gainNode s))
    | ConnectFails | Initialised => true
    end /\
  (ready s && negb suspended = true ->
   playNote outcome suspended frequency velocity s
   = (mk true (gainNode s) (masterVolume s)
         (sounds s ++ [(frequency, velocity)]), Returned)) /\
  (ready s && negb suspended = false ->
   sounds (fst (playNote outcome suspended frequency velocity s)) = sounds s /\
   snd (playNote outcome suspended frequency velocity s) <> Returned) /\
  afterResume true frequency velocity (dispose s) = dispose s.
Proof.
  cbv zeta. split; [|split; [|split; [|split; [|split]]]].
  - unfold playNoteAlone, playNote, afterInit, fromStateTest, afterResume.
    destruct (ready s) eqn:Hr; cbn [orb andb].
    + destruct suspended, resolved; cbn; try discriminate; intros _;
        rewrite (ready_sounds _ _ _ Hr); split; reflexivity.
    + destruct (ready (initAudioContext outcome s)) eqn:Hr'; [|discriminate].
      destruct suspended, resolved; cbn; try discriminate; intros _;
        rewrite (ready_sounds _ _ _ Hr'); cbn;
        rewrite initAudioContext_sounds; split; reflexivity.
  - unfold playNoteAlone, playNote, afterInit, fromStateTest, afterResume.
    destruct (ready s) eqn:Hr; cbn [orb andb].
    + destruct suspended, resolved; cbn; try discriminate; reflexivity.
    + destruct (ready (initAudioContext outcome s)) eqn:Hr'.
      * destruct suspended, resolved; cbn; try discriminate; intros _;
          apply initAudioContext_sounds.
      * intros _. cbn. apply initAudioContext_sounds.
  - apply ready_initAudioContext.
  - intros H. apply andb_prop in H as [Hr Hs].
    unfold playNote, fromStateTest. rewrite Hr.
    destruct suspended; [discriminate|]. now rewrite (ready_sounds _ _ _ Hr).
  - unfold playNote, fromStateTest. destruct (ready s); cbn [andb].
    + destruct suspended; [|discriminate]. intros _. split; [reflexivity|].
      discriminate.
    + intros _. split; [apply initAudioContext_sounds | discriminate].
  - reflexivity.
Qed.

Lemma playAll_ready outcome calls s :
  ready s = true ->
  sounds (playAll outcome calls s) = sounds s ++ calls /\
  ready (playAll outcome calls s) = true.
Proof.
  unfold playAll. revert s. induction calls as [|[f v] calls IH]; intros s Hr.
  - now rewrite app_nil_r.
  - cbn [fold_left fst snd].
    assert (E : fst (playNote outcome false f v s)
                = mk true (gainNode s) (masterVolume s) (sounds s ++ [(f, v)])).
    { unfold playNote, fromStateTest. rewrite Hr. cbn [fst].
      now apply ready_sounds. }
    assert (Hr' : ready (mk true (gainNode s) (masterVolume s)
                            (sounds s ++ [(f, v)])) = true).
    { unfold ready in *. cbn. apply andb_prop in Hr as [_ Hg]. exact Hg. }
    rewrite E. destruct (IH _ Hr') as [E1 E2]. rewrite E1, E2. cbn.
    now rewrite <- app_assoc.
Qed.

(** X17.  Calls of [playNote] made one after the other without a break
    (as the collisions of one physics step make them), each finding the
    context running.  On a synthesizer with a context and a gain node
    every call sounds before it returns, in order.  On one without, when
    the initialisation gets as far as the gain node, the first call stops
    at its [await] and the others overtake it: its note sounds last. *)
Theorem playAll_sounds outcome first calls s :
  (ready s = true ->
   sounds (playAll outcome calls s) = sounds s ++ calls) /\
  (ready s = false -> ready (initAudioContext outcome s) = true ->
   let s1 := fst (playNote outcome false (fst first) (snd first) s) in
   snd (playNote outcome false (fst first) (snd first) s) = AwaitsInit /\
   sounds s1 = sounds s /\
   sounds (fst (afterInit false (fst first) (snd first)
                  (playAll outcome calls s1)))
   = sounds s ++ calls ++ [first]).
Proof.
  split; [intros Hr; apply (playAll_ready outcome calls s Hr)|].
  intros Hr Hr'. cbv zeta. unfold playNote at 1 2 3. rewrite Hr. cbn [fst snd].
  split; [reflexivity|]. split; [apply initAudioContext_sounds|].
  destruct (playAll_ready outcome calls _ Hr') as [E1 E2].
  unfold afterInit, fromStateTest. rewrite E2. cbn [fst].
  rewrite (ready_sounds _ _ _ E2). cbn [sounds].
  rewrite E1, initAudioContext_sounds, <- app_assoc. now destruct first.
Qed.

End SynthFacts.

(** ** The video exporter *)

Module ExporterFacts.

Import VideoExporter.
Local Open Scope float_scope.

Lemma deliver_fields events r :
  mediaRecorder (deliver events r) = mediaRecorder r /\
  isRecording (deliver events r) = isRecording r /\
  recordedChunks (deliver events r)
  = recordedChunks r ++ List.filter (fun data => (0 <? length data)%nat) events.
Proof.
  unfold deliver. revert r. induction events as [|data events IH]; intros r.
  - cbn. now rewrite app_nil_r.
  - cbn [fold_left List.filter]. destruct (IH (ondataavailable data r))
      as (-> & -> & ->).
    unfold ondataavailable. destruct (0 <? length data)%nat; cbn; auto.
    now rewrite <- app_assoc.
Qed.

(** Leaving out the empty chunks loses no byte. *)
Lemma concat_filter_nonempty (parts : list Blob) :
  concat (List.filter (fun data => (0 <? length data)%nat) parts) = concat parts.
Proof.
  induction parts as [|[|b data] parts IH]; cbn; [reflexivity | exact IH |].
  do 2 f_equal. exact IH.
Qed.

Lemma stopRecording_recording pending r :
  mediaRecorder r = Some recording -> isRecording r = true ->
  stopRecording pending r
  = let chunks := recordedChunks r
                  ++ List.filter (fun data => (0 <? length data)%nat) pending in
    (mk (Some inactive) chunks false, Some (Blob_of chunks)).
Proof.
  intros Hm Hr. unfold stopRecording. rewrite Hm, Hr. cbn [negb].
  now destruct (deliver_fields pending r) as (_ & _ & ->).
Qed.

(** X18.  One recording.  After [startRecording] and any chunks, the
    exporter says that it records; [stopRecording] resolves with the bytes
    of all chunks delivered since the start, in order, the empty ones
    included without loss; after it the exporter does not record, a
    second [stopRecording] is rejected, and the duration reported is 0.1
    s for every chunk that was not empty. *)
Theorem recording_session r events pending more :
  let r1 := fst (startRecording Started r) in
  let r2 := deliver events r1 in
  let r3 := fst (stopRecording pending r2) in
  snd (stopRecording pending r2) = Some (Blob_of (events ++ pending)) /\
  isCurrentlyRecording r2 = true /\ isCurrentlyRecording r3 = false /\
  stopRecording more r3 = (r3, None) /\
  getRecordingDuration r3
  = JS.length_of (List.filter (fun data => (0 <? length data)%nat)
                    (events ++ pending)) * 0.1.
Proof.
  cbv zeta. cbn [startRecording fst].
  destruct (deliver_fields events (mk (Some recording) [] true)) as (Em & Er & Ec).
  cbn [mediaRecorder isRecording recordedChunks app] in Em, Er, Ec.
  rewrite (stopRecording_recording pending _ Em Er). cbv zeta. cbn [fst snd].
  rewrite Ec, <- List.filter_app. unfold Blob_of, isCurrentlyRecording.
  rewrite concat_filter_nonempty, Er.
  repeat split; reflexivity.
Qed.

(** X19.  A start that fails.  When the failure comes before the recorder
    exists, nothing has changed; when [mediaRecorder.start] throws, the
    promise is rejected but the exporter is left saying that it records,
    with no chunks, and [stopRecording] does not resolve and does not
    change that. *)
Theorem startRecording_failure outcome pending r r' :
  startRecording outcome r = (r', false) ->
  (outcome = CaptureFails \/ outcome = RecorderFails) /\ r' = r \/
  outcome = StartFails /\ isCurrentlyRecording r' = true /\
  recordedChunks r' = [] /\ stopRecording pending r' = (r', None).
Proof.
  destruct outcome; cbn [startRecording]; intros [= <-];
    [left; auto | left; auto |].
  right. repeat split; reflexivity.
Qed.

End ExporterFacts.

(** ** The effect selector *)

Module SelectorFacts.

Import EffectSelector.
Local Open Scope float_scope.

Lemma selectorMade_edited e edit : selectorMade e -> selectorMade (edited e edit).
Proof. destruct edit; exact (fun H => H). Qed.

Lemma offered_made effects :
  Offered effects -> Forall selectorMade effects.
Proof.
  induction 1 as [|stamp suffix tmpl effects _ IH Hin|id effects _ IH
                  |sel edit effects _ IH Hin].
  - constructor.
  - apply Forall_app. split; [exact IH|]. constructor; [|constructor].
    split; [now exists stamp, suffix|]. now exists tmpl.
  - unfold removeEffect. rewrite Forall_forall in *. intros e He.
    apply list_elem_of_In, List.filter_In in He. destruct He as [He _].
    apply IH, list_elem_of_In, He.
  - unfold updateEffect. rewrite Forall_forall in *. intros e He.
    apply list_elem_of_In, List.in_map_iff in He.
    destruct He as (e0 & <- & He0). destruct (String.eqb _ _).
    + apply selectorMade_edited, IH, Hin.
    + apply IH, list_elem_of_In, He0.
Qed.

Lemma generatedId_typeName stamp suffix :
  AnimationEngine.typeName (generatedId stamp suffix) = false.
Proof. reflexivity. Qed.

Lemma template_not_marble tmpl :
  tmpl ∈ defaultEffects -> String.eqb (type tmpl) "marble" = false.
Proof.
  unfold defaultEffects. rewrite !elem_of_cons, elem_of_nil.
  intros [->|[->|[->|[->|[->|[]]]]]]; reflexivity.
Qed.

Lemma selectorMade_engine e :
  selectorMade e ->
  AnimationEngine.typeName (Types.id e) = false /\
  String.eqb (Types.type e) "marble" = false.
Proof.
  intros [(stamp & suffix & ->) (tmpl & Hin & _ & ->)].
  split; [apply generatedId_typeName | now apply template_not_marble].
Qed.

End SelectorFacts.


(** ** The engine over its life *)

Module EngineFacts.

Import AnimationEngine.
Local Open Scope float_scope.

(** *** The map *)

Lemma Map_set_keys {V} k (v : V) m :
  Map_get k m = None -> map fst (Map_set k v m) = map fst m ++ [k].
Proof.
  induction m as [|[k' v'] m IH]; cbn; [reflexivity|].
  destruct (String.eqb k' k); [discriminate|]. intros H. cbn. now rewrite IH.
Qed.

Lemma Map_set_keys_present {V} k (v : V) m :
  Map_get k m <> None -> map fst (Map_set k v m) = map fst m.
Proof.
  induction m as [|[k' v'] m IH]; cbn; [congruence|].
  destruct (String.eqb k' k) eqn:E; intros H; cbn.
  - apply String.eqb_eq in E. now subst.
  - now rewrite IH.
Qed.

Lemma Map_get_None {V} k (m : list (string * V)) :
  Map_get k m = None <-> k ∉ map fst m.
Proof.
  induction m as [|[k' v'] m IH]; cbn.
  - split; [intros _; apply not_elem_of_nil | reflexivity].
  - rewrite not_elem_of_cons. destruct (String.eqb k' k) eqn:E.
    + apply String.eqb_eq in E. subst. split; [discriminate | intros [[] _]; reflexivity].
    + apply String.eqb_neq in E. rewrite IH. split; [auto | tauto].
Qed.

Lemma Map_set_NoDup {V} k (v : V) m :
  NoDup (map fst m) -> NoDup (map fst (Map_set k v m)).
Proof.
  intros H. destruct (Map_get k m) eqn:E.
  - rewrite Map_set_keys_present by congruence. exact H.
  - rewrite Map_set_keys by exact E. apply NoDup_app. split; [exact H|].
    split; [|apply NoDup_singleton].
    intros x Hx Hk. apply list_elem_of_singleton in Hk. subst.
    now apply Map_get_None in E.
Qed.

Lemma Map_delete_keys {V} k (m : list (string * V)) :
  NoDup (map fst m) ->
  NoDup (map fst (Map_delete k m)) /\ (k ∉ map fst (Map_delete k m)) /\
  forall k', k' <> k -> Map_get k' (Map_delete k m) = Map_get k' m.
Proof.
  induction m as [|[k1 v1] m IH]; cbn.
  - intros _. split; [constructor|]. split; [apply not_elem_of_nil | reflexivity].
  - intros H. apply NoDup_cons in H. destruct H as [Hk1 Hm].
    destruct (IH Hm) as (IH1 & IH2 & IH3).
    destruct (String.eqb k1 k) eqn:E.
    + apply String.eqb_eq in E. subst. split; [exact Hm|]. split; [exact Hk1|].
      intros k' Hne. cbn. destruct (String.eqb k k') eqn:E'; [|reflexivity].
      apply String.eqb_eq in E'. congruence.
    + apply String.eqb_neq in E. cbn. split.
      * apply NoDup_cons. split; [|exact IH1]. intros Hin. apply Hk1.
        clear -Hin. induction m as [|[k2 v2] m IH]; cbn in *; [exact Hin|].
        destruct (String.eqb k2 k); [now right|]. cbn in Hin.
        apply elem_of_cons in Hin. destruct Hin as [->|Hin]; [left | right; auto].
      * split; [rewrite not_elem_of_cons; auto|].
        intros k' Hne. destruct (String.eqb k1 k'); [reflexivity | now apply IH3].
Qed.

Lemma Map_set_elem {V} k (v : V) m : (k, v) ∈ Map_set k v m.
Proof.
  induction m as [|[k' v'] m IH]; cbn; [left|].
  destruct (String.eqb k' k); [left | right; exact IH].
Qed.

Section WithPlatform.

Variable Math_random : nat -> float.
Variable Date_now : nat -> Z.
Variable marble_random : nat -> float.
Variable marble_now : nat -> Z.
Variable Math_sin : float -> float.
Variable PlaneGeometry : list float.
Variable IcosahedronGeometry : float -> list float.
Variable SphereGeometry : float -> list float.

Abbreviation addEffect :=
  (addEffect Math_random PlaneGeometry IcosahedronGeometry SphereGeometry).
Abbreviation updateEffect := (updateEffect Math_random Date_now Math_sin).
Abbreviation forEachEffect := (forEachEffect Math_random Date_now Math_sin).
Abbreviation updateEffects := (updateEffects Math_random Date_now Math_sin).
Abbreviation updateAudioData :=
  (updateAudioData Math_random Date_now marble_random Math_sin).
Abbreviation updateAudioDataAll :=
  (updateAudioDataAll Math_random Date_now marble_random Math_sin).
Abbreviation animate := (animate marble_random marble_now).
Abbreviation Reachable :=
  (Reachable Math_random Date_now marble_random marble_now Math_sin
     PlaneGeometry IcosahedronGeometry SphereGeometry).

(** *** The update functions keep the shape of an object *)

Lemma put_length a i v : length (JS.put a i v) = length a.
Proof. apply length_insert. Qed.

Lemma updateWaveEffect_shape o bassLevel now :
  shape (fst (updateWaveEffect Date_now Math_sin o bassLevel now)) = shape o.
Proof.
  destruct o as [positions material rx ry tw|positions colors]; [|reflexivity].
  unfold updateWaveEffect.
  match goal with |- context [fold_left ?f ?l ?s] =>
    assert (H : length (fst (fold_left f l s)) = length positions)
      by (apply (MarbleFacts.fold_left_preserves (fun st => length (fst st) = length positions));
          [intros [p n] i Hp; cbn; now rewrite put_length | reflexivity])
  end.
  destruct (fold_left _ _ _) as [positions' now']. cbn in *. now rewrite H.
Qed.

Lemma updateNeuralEffect_shape o bassLevel trebleLevel now :
  shape (fst (updateNeuralEffect Date_now Math_sin o bassLevel trebleLevel now))
  = shape o.
Proof.
  destruct o as [positions material rx ry tw|positions colors]; [|reflexivity].
  unfold updateNeuralEffect.
  match goal with |- context [fold_left ?f ?l ?s] =>
    assert (H : length (fst (fold_left f l s)) = length positions)
      by (apply (MarbleFacts.fold_left_preserves (fun st => length (fst st) = length positions));
          [intros [p n] i Hp; cbn; now rewrite put_length | reflexivity])
  end.
  destruct (fold_left _ _ _) as [positions' now']. cbn in *. now rewrite H.
Qed.

Lemma updateParticleEffect_shape o volume beat rnd o' rnd' :
  updateParticleEffect Math_random o volume beat rnd = Some (o', rnd') ->
  shape o' = shape o.
Proof.
  destruct o as [positions material rx ry tw|positions [colors|]];
    [intros [= <- _]; reflexivity | | discriminate].
  unfold updateParticleEffect.
  match goal with |- context [fold_left ?f ?l ?s] =>
    assert (H : length (fst (fst (fold_left f l s))) = length positions /\
                length (snd (fst (fold_left f l s))) = length colors)
      by (apply (MarbleFacts.fold_left_preserves
                   (fun st => length (fst (fst st)) = length positions /\
                              length (snd (fst st)) = length colors));
          [intros [[p c] n] i [Hp Hc]; destruct beat; cbn;
           rewrite ?put_length; auto
          | split; reflexivity])
  end.
  destruct (fold_left _ _ _) as [[positions' colors'] rnd''].
  intros [= <- _]. cbn in *. destruct H as [-> ->]. reflexivity.
Qed.

Lemma updateEffect_shape a o id rnd now o' rnd' now' :
  updateEffect a o id rnd now = Some (o', rnd', now') -> shape o' = shape o.
Proof.
  unfold AnimationEngine.updateEffect.
  destruct (String.eqb id "wave").
  { pose proof (updateWaveEffect_shape o (Types.bassLevel a) now) as H.
    destruct (updateWaveEffect _ _ _ _ _). now intros [= <- _ _]. }
  destruct (String.eqb id "particle").
  { destruct (updateParticleEffect _ _ _ _ _) as [[o1 r1]|] eqn:E; [|discriminate].
    intros [= <- _ _]. exact (updateParticleEffect_shape _ _ _ _ _ _ E). }
  destruct (String.eqb id "geometric").
  { intros [= <- _ _]. now destruct o. }
  destruct (String.eqb id "fluid").
  { destruct (updateFluidEffect _ _ _ _ _) as [o1 n1] eqn:E. intros [= <- _ _].
    destruct o as [p [| | |] rx ry tw|]; cbn in E; injection E as <- _;
      reflexivity. }
  destruct (String.eqb id "neural").
  { pose proof (updateNeuralEffect_shape o (Types.bassLevel a)
                  (Types.trebleLevel a) now) as H.
    destruct (updateNeuralEffect _ _ _ _ _ _). now intros [= <- _ _]. }
  now intros [= <- _ _].
Qed.

Lemma forEachEffect_shapes a m rnd now m' rnd' now' :
  forEachEffect a m rnd now = Some (m', rnd', now') -> shapes m' = shapes m.
Proof.
  revert rnd now m' rnd' now'.
  induction m as [|[id o] m IH]; intros rnd now m' rnd' now'; cbn.
  - now intros [= <- _ _].
  - destruct (updateEffect a o id rnd now) as [[[o1 r1] n1]|] eqn:E;
      [|discriminate].
    destruct (forEachEffect a m r1 n1) as [[[m1 r2] n2]|] eqn:E'; [|discriminate].
    intros [= <- _ _]. unfold shapes in *. cbn [map fst snd].
    rewrite (IH _ _ _ _ _ E').
    now rewrite (updateEffect_shape _ _ _ _ _ _ _ _ E).
Qed.

Lemma shapes_keys m m' : shapes m' = shapes m -> map fst m' = map fst m.
Proof.
  intros H. apply (f_equal (map fst)) in H. unfold shapes in H.
  rewrite !map_map in H. exact H.
Qed.

(** X20.  An update of the effects that does not throw keeps the ids of
    the map and their order, the class of every object and the lengths of
    its position and colour arrays; it leaves the configuration alone and
    stores the feature vector. *)
Theorem updateAudioData_shapes a e e' :
  updateAudioData a e = Some e' ->
  shapes (effects e') = shapes (effects e) /\
  configEffects e' = configEffects e /\ audioData e' = Some a.
Proof.
  unfold AnimationEngine.updateAudioData, AnimationEngine.updateEffects.
  cbn [audioData set_audioData effects randomCalls nowCalls].
  destruct (forEachEffect a (effects e) (randomCalls e) (nowCalls e))
    as [[[m r] n]|] eqn:E; [|discriminate].
  cbn [marblePhysics set_nowCalls set_randomCalls set_effects set_audioData].
  pose proof (forEachEffect_shapes _ _ _ _ _ _ _ E) as Hs.
  destruct (marblePhysics e); intros [= <-]; cbn; auto.
Qed.

Lemma updateAudioData_keys a e e' :
  updateAudioData a e = Some e' -> map fst (effects e') = map fst (effects e).
Proof.
  unfold AnimationEngine.updateAudioData, AnimationEngine.updateEffects.
  cbn [audioData set_audioData effects randomCalls nowCalls].
  destruct (forEachEffect a (effects e) (randomCalls e) (nowCalls e))
    as [[[m r] n]|] eqn:E; [|discriminate].
  cbn [marblePhysics set_nowCalls set_randomCalls set_effects set_audioData].
  pose proof (shapes_keys _ _ (forEachEffect_shapes _ _ _ _ _ _ _ E)) as Hk.
  destruct (marblePhysics e); intros [= <-]; exact Hk.
Qed.

(** *** When an update throws *)

Lemma updateEffect_None a o id rnd now :
  updateEffect a o id rnd now = None <->
  id = "particle"%string /\ exists positions, o = Points positions None.
Proof.
  unfold AnimationEngine.updateEffect.
  destruct (String.eqb id "wave") eqn:E1.
  { apply String.eqb_eq in E1. subst.
    destruct (updateWaveEffect _ _ _ _ _). split; [discriminate | now intros [? _]]. }
  destruct (String.eqb id "particle") eqn:E2.
  { apply String.eqb_eq in E2. subst.
    destruct o as [p m rx ry tw|p [c|]]; cbn.
    - split; [discriminate | intros [_ [? ?]]; discriminate].
    - destruct (fold_left _ _ _) as [[? ?] ?].
      split; [discriminate | intros [_ [? ?]]; discriminate].
    - split; eauto. }
  apply String.eqb_neq in E2.
  destruct (String.eqb id "geometric");
    [split; [discriminate | intros [? _]; contradiction]|].
  destruct (String.eqb id "fluid").
  { destruct (updateFluidEffect _ _ _ _ _).
    split; [discriminate | intros [? _]; contradiction]. }
  destruct (String.eqb id "neural").
  { destruct (updateNeuralEffect _ _ _ _ _ _).
    split; [discriminate | intros [? _]; contradiction]. }
  split; [discriminate | intros [? _]; contradiction].
Qed.

Lemma forEachEffect_None a m rnd now :
  forEachEffect a m rnd now = None <->
  exists positions, ("particle"%string, Points positions None) ∈ m.
Proof.
  revert rnd now. induction m as [|[id o] m IH]; intros rnd now; cbn.
  - split; [discriminate | intros [? H]; now apply elem_of_nil in H].
  - destruct (updateEffect a o id rnd now) as [[[o1 r1] n1]|] eqn:E.
    + assert (Hhead : ~ (id = "particle"%string /\
                         exists positions, o = Points positions None)).
      { intros H. apply (proj2 (updateEffect_None a o id rnd now)) in H.
        congruence. }
      specialize (IH r1 n1).
      destruct (forEachEffect a m r1 n1) as [[[m1 r2] n2]|].
      * split; [discriminate|]. intros [p Hp]. apply elem_of_cons in Hp.
        destruct Hp as [[= <- <-]|Hp]; [exfalso; apply Hhead; eauto|].
        assert (Habs : Some (m1, r2, n2) = None) by (apply IH; eauto).
        discriminate Habs.
      * split; [|reflexivity]. intros _.
        destruct (proj1 IH eq_refl) as [p Hp]. exists p. now right.
    + split; [|reflexivity]. intros _.
      apply updateEffect_None in E. destruct E as [-> [p ->]].
      exists p. left.
Qed.

Lemma updateAudioData_None a e :
  updateAudioData a e = None <->
  exists positions, ("particle"%string, Points positions None) ∈ effects e.
Proof.
  rewrite <- (forEachEffect_None a (effects e) (randomCalls e) (nowCalls e)).
  unfold AnimationEngine.updateAudioData, AnimationEngine.updateEffects.
  cbn [audioData set_audioData effects randomCalls nowCalls].
  destruct (forEachEffect _ _ _ _) as [[[m r] n]|]; [|tauto].
  cbn [marblePhysics set_nowCalls set_randomCalls set_effects set_audioData].
  destruct (marblePhysics e); split; discriminate.
Qed.

(** *** The point clouds *)

Lemma createNeuralEffect_loop k : forall positions rnd,
  let '(positions', rnd') :=
    fold_left (fun '(positions, rnd) i =>
        (JS.put (JS.put (JS.put positions (i * 3)
                           ((Math_random rnd - 0.5) * 10))
                   (i * 3 + 1) ((Math_random (rnd + 1) - 0.5) * 10))
           (i * 3 + 2) ((Math_random (rnd + 2) - 0.5) * 10),
         (rnd + 3)%nat))
      (seq 0 k) (positions, rnd) in
  length positions' = length positions /\ rnd' = (rnd + 3 * k)%nat.
Proof.
  induction k as [|k IH]; intros positions rnd.
  - cbn. split; [reflexivity | lia].
  - rewrite seq_S, fold_left_app. specialize (IH positions rnd).
    destruct (fold_left _ (seq 0 k) _) as [p r]. cbn [fold_left].
    rewrite !put_length. destruct IH as [-> ->]. split; [reflexivity | lia].
Qed.

Lemma createParticleEffect_loop k : forall positions colors rnd,
  let '(positions', colors', rnd') :=
    fold_left (fun '(positions, colors, rnd) i =>
        let positions :=
          JS.put (JS.put (JS.put positions (i * 3)
                            ((Math_random rnd - 0.5) * 20))
                    (i * 3 + 1) ((Math_random (rnd + 1) - 0.5) * 20))
            (i * 3 + 2) ((Math_random (rnd + 2) - 0.5) * 20) in
        let colors :=
          JS.put (JS.put (JS.put colors (i * 3) (Math_random (rnd + 3)))
                    (i * 3 + 1) (Math_random (rnd + 4)))
            (i * 3 + 2) (Math_random (rnd + 5)) in
        (positions, colors, (rnd + 6)%nat))
      (seq 0 k) (positions, colors, rnd) in
  length positions' = length positions /\ length colors' = length colors /\
  rnd' = (rnd + 6 * k)%nat.
Proof.
  induction k as [|k IH]; intros positions colors rnd.
  - cbn. repeat split; lia.
  - rewrite seq_S, fold_left_app. specialize (IH positions colors rnd).
    destruct (fold_left _ (seq 0 k) _) as [[p c] r]. cbn [fold_left].
    rewrite !put_length. destruct IH as (-> & -> & ->). repeat split; lia.
Qed.

Lemma createNeuralEffect_result effect rnd :
  exists positions,
    createNeuralEffect Math_random effect rnd
    = (Points positions None, (rnd + 150)%nat) /\
    length positions = 150%nat.
Proof.
  unfold createNeuralEffect. cbv zeta.
  pose proof (createNeuralEffect_loop 50 (JS.Float32Array_new (50 * 3)) rnd) as H.
  destruct (fold_left _ _ _) as [p r]. destruct H as [Hp ->].
  exists p. split; [reflexivity|]. rewrite Hp. reflexivity.
Qed.

(** X21.  The point clouds.  A neural effect has 150 coordinates and no
    colours and takes 150 random numbers.  A particle effect is created
    exactly when [new Float32Array(size * 1000 * 3)] is; its position and
    colour arrays have that length, and it takes six random numbers for
    every round of its loop. *)
Theorem point_clouds effect rnd :
  (exists positions,
     createNeuralEffect Math_random effect rnd
     = (Points positions None, (rnd + 150)%nat) /\
     length positions = 150%nat) /\
  match createParticleEffect Math_random effect rnd with
  | Some (o, rnd') =>
      exists zeros positions colors,
        JS.Float32Array_of (Types.size effect * 1000 * 3) = Some zeros /\
        o = Points positions (Some colors) /\
        length positions = length zeros /\ length colors = length zeros /\
        rnd' = (rnd + 6 * JS.rounds (Types.size effect * 1000))%nat
  | None => JS.Float32Array_of (Types.size effect * 1000 * 3) = None
  end.
Proof.
  split; [apply createNeuralEffect_result|].
  unfold createParticleEffect. cbv zeta.
  destruct (JS.Float32Array_of _) as [zeros|]; [|reflexivity].
  pose proof (createParticleEffect_loop
                (JS.rounds (Types.size effect * 1000)) zeros zeros rnd) as H.
  destruct (fold_left _ _ _) as [[p c] r]. destruct H as (Hp & Hc & ->).
  exists zeros, p, c. auto.
Qed.

(** X22.  [updateAudioData] throws exactly when an object without a colour
    attribute is stored under the id "particle"; adding a neural effect
    whose id is "particle" succeeds and brings that about. *)
Theorem updateAudioData_throws a e :
  (updateAudioData a e = None <->
   exists positions, ("particle"%string, Points positions None) ∈ effects e) /\
  forall effect,
    Types.type effect = "neural"%string -> Types.id effect = "particle"%string ->
    exists e', addEffect effect e = Some e' /\ updateAudioData a e' = None.
Proof.
  split; [apply updateAudioData_None|].
  intros effect Ht Hi. unfold AnimationEngine.addEffect. rewrite Ht.
  cbn [String.eqb Ascii.eqb Bool.eqb andb].
  destruct (createNeuralEffect_result effect (randomCalls e)) as (p & -> & _).
  eexists. split; [reflexivity|]. apply updateAudioData_None.
  exists p. unfold register. cbn [effects set_effects set_randomCalls].
  rewrite Hi. apply Map_set_elem.
Qed.

(** *** Effects made by the selector *)

Lemma find_elem_of {A} (f : A -> bool) (l : list A) x :
  find f l = Some x -> x ∈ l /\ f x = true.
Proof.
  induction l as [|a l IH]; cbn; [discriminate|].
  destruct (f a) eqn:E.
  - intros [= <-]. split; [left | exact E].
  - intros H. destruct (IH H). split; [now right | assumption].
Qed.

(** X23.  Effects made by the effect selector: each has a generated id and
    the name and type of one of the five templates.  So an engine that
    stores its objects under their ids never changes one of them in an
    update, and removing an effect from an engine whose configuration
    lists such effects only never clears the marbles. *)
Theorem selector_effects_in_engine effs e a :
  EffectSelector.Offered effs ->
  Forall EffectSelector.selectorMade effs /\
  (Forall (fun entry => exists c, c ∈ effs /\ fst entry = Types.id c) (effects e) ->
   effects <$> updateAudioData a e = Some (effects e)) /\
  (Forall (fun c => c ∈ effs) (configEffects e) ->
   forall id, marblePhysics (removeEffect id e) = marblePhysics e).
Proof.
  intros Hoff. pose proof (SelectorFacts.offered_made effs Hoff) as Hmade.
  split; [exact Hmade|]. rewrite Forall_forall in Hmade. split.
  - intros Hids.
    rewrite (EngineClaims.updateAudioData_effects Math_random Date_now
               marble_random Math_sin).
    change (Some (effects e)) with (Some (effects (set_audioData (Some a) e))).
    apply (EngineClaims.updateEffects_other_ids Math_random Date_now Math_sin).
    cbn [effects set_audioData]. eapply Forall_impl; [exact Hids|].
    intros entry (c & Hc & ->).
    apply SelectorFacts.selectorMade_engine, Hmade, Hc.
  - intros Hcfg id. unfold removeEffect.
    set (e1 := match Map_get id (effects e) with
               | Some _ => set_effects (Map_delete id (effects e)) e
               | None => e
               end).
    assert (E1 : configEffects e1 = configEffects e /\
                 marblePhysics e1 = marblePhysics e)
      by (unfold e1; destruct (Map_get id (effects e)); split; reflexivity).
    destruct E1 as [Ec Ep]. rewrite Ec.
    destruct (find _ _) as [c|] eqn:Hfind; [|exact Ep].
    apply find_elem_of in Hfind. destruct Hfind as [Hin _].
    rewrite Forall_forall in Hcfg.
    destruct (SelectorFacts.selectorMade_engine c (Hmade c (Hcfg c Hin)))
      as [_ ->].
    exact Ep.
Qed.

(** *** Marbles from audio *)

Lemma updateAudioData_no_effects a e :
  effects e = [] ->
  updateAudioData a e
  = Some (set_marblePhysics
            (MarblePhysics.spawnMarbleFromAudio marble_random
               (Types.volume a) (Types.bassLevel a) <$> marblePhysics e)
            (set_audioData (Some a) e)).
Proof.
  intros He. unfold AnimationEngine.updateAudioData, AnimationEngine.updateEffects.
  cbn [audioData set_audioData effects randomCalls nowCalls]. rewrite He. cbn.
  destruct e as [m ad c [p|] r n]; cbn in *; subst; reflexivity.
Qed.

(** X24.  The engine spawns on level, not on change: over a sequence of
    feature vectors, an engine without effect objects gains one marble,
    with its mesh, for every vector whose volume and bass level are both
    above 0.1. *)
Theorem loud_frames_spawn frames e p :
  effects e = [] -> marblePhysics e = Some p ->
  exists e' p',
    updateAudioDataAll frames e = Some e' /\
    marblePhysics e' = Some p' /\
    length (MarblePhysics.marbles p')
    = (length (MarblePhysics.marbles p) + length (List.filter loud frames))%nat /\
    length (MarblePhysics.marbleMeshes p')
    = (length (MarblePhysics.marbleMeshes p)
       + length (List.filter loud frames))%nat.
Proof.
  revert e p. induction frames as [|a frames IH]; intros e p He Hp.
  - exists e, p. cbn. repeat split; auto; lia.
  - cbn [AnimationEngine.updateAudioDataAll List.filter].
    rewrite (updateAudioData_no_effects a e He), Hp.
    cbn [fmap option_fmap option_map].
    set (p1 := MarblePhysics.spawnMarbleFromAudio marble_random
                 (Types.volume a) (Types.bassLevel a) p).
    destruct (IH (set_marblePhysics (Some p1) (set_audioData (Some a) e)) p1
                 He eq_refl) as (e' & p' & E & Hp' & Hm & Hmesh).
    exists e', p'. split; [exact E|]. split; [exact Hp'|].
    rewrite Hm, Hmesh. unfold p1, MarblePhysics.spawnMarbleFromAudio, loud.
    destruct (_ && _); cbn [length]; [|split; lia].
    destruct (MarbleRounds.createMarble_fields marble_random
                (8 + Types.bassLevel a * 5) p) as (-> & -> & _).
    rewrite !length_app. cbn [length]. split; lia.
Qed.

(** *** Reachable states *)

Lemma addEffect_fields effect e e' :
  addEffect effect e = Some e' ->
  marblePhysics e' = marblePhysics e /\
  (effects e' = effects e \/
   exists o, effects e' = Map_set (Types.id effect) o (effects e)).
Proof.
  unfold AnimationEngine.addEffect, register.
  repeat match goal with
    | |- context [if String.eqb ?a ?b then _ else _] =>
        destruct (String.eqb a b)
    end;
    try destruct (createParticleEffect _ _ _) as [[o rnd]|];
    try destruct (createNeuralEffect _ _ _) as [o rnd];
    intros [= <-]; cbn; eauto.
Qed.

Lemma removeEffect_physics id e :
  marblePhysics (removeEffect id e) = marblePhysics e \/
  exists p, marblePhysics e = Some p /\
            marblePhysics (removeEffect id e) = Some (MarblePhysics.clearMarbles p).
Proof.
  unfold removeEffect.
  set (e1 := match Map_get id (effects e) with
             | Some _ => set_effects (Map_delete id (effects e)) e
             | None => e
             end).
  assert (E1 : configEffects e1 = configEffects e /\
               marblePhysics e1 = marblePhysics e)
    by (unfold e1; destruct (Map_get id (effects e)); split; reflexivity).
  destruct E1 as [Ec Ep]. rewrite Ec.
  destruct (find _ _) as [c|]; [|now left].
  destruct (String.eqb _ _); [|now left].
  destruct (marblePhysics e1) as [p|] eqn:E; [|left; congruence].
  right. exists p. split; [congruence | reflexivity].
Qed.

Lemma updateAudioData_physics a e e' :
  updateAudioData a e = Some e' ->
  marblePhysics e'
  = MarblePhysics.spawnMarbleFromAudio marble_random (Types.volume a)
      (Types.bassLevel a) <$> marblePhysics e.
Proof.
  unfold AnimationEngine.updateAudioData, AnimationEngine.updateEffects.
  cbn [audioData set_audioData effects randomCalls nowCalls].
  destruct (forEachEffect a (effects e) (randomCalls e) (nowCalls e))
    as [[[m r] n]|]; [|discriminate].
  cbn [marblePhysics set_nowCalls set_randomCalls set_effects set_audioData].
  destruct (marblePhysics e) eqn:E; intros [= <-]; cbn; [reflexivity | exact E].
Qed.

Lemma reachable_sound e : Reachable e -> sound marble_random marble_now e.
Proof.
  induction 1 as [cfg|effect e e' _ IH Hadd|id e _ IH|a e e' _ IH Hupd
                  |dt e _ IH|effect e _ IH].
  - split; [constructor|]. exists MarblePhysics.new. split; [reflexivity|].
    constructor.
  - destruct IH as [Hnd (p & Hp & Hr)].
    destruct (addEffect_fields _ _ _ Hadd) as [Ep [Ee|[o Ee]]];
      (split; [rewrite Ee; auto using Map_set_NoDup | exists p; split; congruence]).
  - destruct IH as [Hnd (p & Hp & Hr)]. split.
    + rewrite (EngineClaims.removeEffect_effects id e).
      now apply Map_delete_keys.
    + destruct (removeEffect_physics id e) as [E|(p' & E1 & E2)].
      * exists p. split; congruence.
      * exists (MarblePhysics.clearMarbles p'). split; [exact E2|].
        constructor. congruence.
  - destruct IH as [Hnd (p & Hp & Hr)].
    split; [now rewrite (updateAudioData_keys _ _ _ Hupd)|].
    rewrite (updateAudioData_physics _ _ _ Hupd), Hp. eexists.
    split; [reflexivity|]. now constructor.
  - destruct IH as [Hnd (p & Hp & Hr)]. unfold AnimationEngine.animate.
    rewrite Hp. destruct (audioData e) as [a|]; [|split; eauto].
    split; [exact Hnd|]. eexists. split; [reflexivity|]. now constructor.
  - exact IH.
Qed.

(** X25.  What holds of every state of an engine: the ids of the map are
    distinct, the physics is in a state that its own public methods
    produce, and after [removeEffect] the id is not in the map while every
    other id maps to what it did. *)
Theorem reachable_engine e id :
  Reachable e ->
  NoDup (map fst (effects e)) /\
  (exists p, marblePhysics e = Some p /\
             MarblePhysics.Reachable marble_random marble_now p) /\
  Map_get id (effects (removeEffect id e)) = None /\
  forall id', id' <> id ->
    Map_get id' (effects (removeEffect id e)) = Map_get id' (effects e).
Proof.
  intros Hr. destruct (reachable_sound e Hr) as [Hnd Hp].
  split; [exact Hnd|]. split; [exact Hp|].
  rewrite (EngineClaims.removeEffect_effects id e).
  destruct (Map_delete_keys id (effects e) Hnd) as (_ & Hid & Hother).
  split; [now apply Map_get_None | exact Hother].
Qed.

End WithPlatform.



End EngineFacts.


(** ** The configuration shared by the hook and the engine *)

Module HookFacts.

Import useAnimationEngine.

Section WithPlatform.

Variable Math_random : nat -> float.
Variable PlaneGeometry : list float.
Variable IcosahedronGeometry : float -> list float.
Variable SphereGeometry : float -> list float.
Variable Date_now : nat -> Z.
Variable marble_random : nat -> float.
Variable Math_sin : float -> float.

Abbreviation addEffect :=
  (addEffect Math_random PlaneGeometry IcosahedronGeometry SphereGeometry).
Abbreviation updateAudioData :=
  (updateAudioData Math_random Date_now marble_random Math_sin).
Abbreviation Reachable :=
  (Reachable Math_random PlaneGeometry IcosahedronGeometry SphereGeometry
     Date_now marble_random Math_sin).
Abbreviation Later :=
  (Later Math_random PlaneGeometry IcosahedronGeometry SphereGeometry
     Date_now marble_random Math_sin).

Lemma allocated_lookup h config :
  allocated h -> (config < length (configs h))%nat ->
  exists array, configs h !! config = Some array /\
                (array < length (arrays h))%nat.
Proof.
  intros (_ & _ & Hall) Hc.
  destruct (lookup_lt_is_Some_2 (configs h) config Hc) as [array Ha].
  exists array. split; [exact Ha|].
  exact (Forall_lookup_1 _ _ _ _ Hall Ha).
Qed.

Lemma allocated_updateConfig newEffects h :
  allocated h -> allocated (updateConfig newEffects h).
Proof.
  intros Hal. pose proof Hal as (Hc & He & Hall).
  destruct (allocated_lookup h (current h) Hal Hc) as (array & Ha & Hlt).
  destruct newEffects as [effects|]; unfold allocated; cbn;
    rewrite ?length_app; cbn [length].
  - split; [lia|]. split; [lia|]. apply Forall_app. split.
    + eapply Forall_impl; [exact Hall|]. cbn. intros; lia.
    + constructor; [lia | constructor].
  - split; [lia|]. split; [lia|]. apply Forall_app. split; [exact Hall|].
    rewrite Ha. cbn. constructor; [exact Hlt | constructor].
Qed.

Lemma allocated_addEffect effect h h' :
  allocated h -> addEffect effect h = Some h' -> allocated h'.
Proof.
  intros (Hc & He & Hall). unfold useAnimationEngine.addEffect.
  destruct (AnimationEngine.addEffect _ _ _ _ _ _); [|discriminate].
  intros [= <-]. unfold allocated; cbn. rewrite length_alter. auto.
Qed.

Lemma allocated_removeEffect effectId h :
  allocated h -> allocated (removeEffect effectId h).
Proof.
  intros (Hc & He & Hall). unfold allocated; cbn.
  rewrite length_insert, length_app. cbn [length].
  split; [exact Hc|]. split; [exact He|].
  apply Forall_insert; [|lia].
  eapply Forall_impl; [exact Hall|]. cbn. intros; lia.
Qed.

(** A frame of audio data changes the engine only: the store and the two
    references are as before. *)
Lemma updateAudioData_store audioData h h' :
  updateAudioData audioData h = Some h' ->
  arrays h' = arrays h /\ configs h' = configs h /\
  current h' = current h /\ engineConfig h' = engineConfig h.
Proof.
  unfold useAnimationEngine.updateAudioData.
  destruct (AnimationEngine.updateAudioData _ _ _ _ _ _); [|discriminate].
  intros [= <-]. repeat split; reflexivity.
Qed.

Lemma allocated_updateAudioData audioData h h' :
  allocated h -> updateAudioData audioData h = Some h' -> allocated h'.
Proof.
  intros Hal Hup.
  destruct (updateAudioData_store _ _ _ Hup) as (E1 & E2 & E3 & E4).
  unfold allocated. now rewrite E1, E2, E3, E4.
Qed.

Lemma reachable_allocated h : Reachable h -> allocated h.
Proof.
  induction 1; eauto using allocated_updateConfig, allocated_addEffect,
    allocated_removeEffect, allocated_updateAudioData.
  unfold allocated, mounted; cbn. repeat split; try lia. repeat constructor.
Qed.

(** *** What a call does to the engine's configuration *)

Lemma updateConfig_engine_effects newEffects h :
  allocated h ->
  engineConfig (updateConfig newEffects h) = engineConfig h /\
  effectsAt (updateConfig newEffects h) (engineConfig h)
  = effectsAt h (engineConfig h) /\
  (detached h -> detached (updateConfig newEffects h)).
Proof.
  intros Hal. pose proof Hal as (Hc & He & Hall).
  destruct (allocated_lookup h (current h) Hal Hc) as (array & Ha & Hlt).
  destruct (allocated_lookup h (engineConfig h) Hal He) as (array' & Ha' & Hlt').
  unfold effectsAt, detached.
  destruct newEffects as [effects|]; cbn;
    rewrite !(lookup_app_l (configs h)) by lia;
    rewrite ?list_lookup_middle by reflexivity.
  - rewrite Ha'. cbn. rewrite lookup_app_l by lia.
    repeat split; auto. intros _ [= E]. lia.
  - rewrite Ha', Ha. cbn. repeat split; auto.
Qed.

Lemma addEffect_engine_effects effect h h' :
  allocated h -> addEffect effect h = Some h' ->
  engineConfig h' = engineConfig h /\
  (detached h ->
   detached h' /\
   effectsAt h' (engineConfig h) = effectsAt h (engineConfig h)) /\
  (~ detached h ->
   effectsAt h' (engineConfig h) = effectsAt h (engineConfig h) ++ [effect]) /\
  effectsAt h' (current h') = effectsAt h (current h) ++ [effect].
Proof.
  intros Hal. pose proof Hal as (Hc & He & Hall).
  destruct (allocated_lookup h (current h) Hal Hc) as (array & Ha & Hlt).
  destruct (allocated_lookup h (engineConfig h) Hal He) as (array' & Ha' & Hlt').
  destruct (lookup_lt_is_Some_2 (arrays h) array Hlt) as [l Hl].
  destruct (lookup_lt_is_Some_2 (arrays h) array' Hlt') as [l' Hl'].
  unfold useAnimationEngine.addEffect.
  destruct (AnimationEngine.addEffect _ _ _ _ _ _); [|discriminate].
  intros [= <-]. unfold effectsAt, detached. cbn. rewrite Ha, Ha'. cbn.
  split; [reflexivity|]. split; [|split].
  - intros Hd. split; [exact Hd|].
    rewrite list_lookup_alter_ne by congruence. reflexivity.
  - intros Hd. assert (array = array') by (destruct (decide (array = array'));
      [assumption | exfalso; apply Hd; congruence]).
    subst array'. rewrite list_lookup_alter_eq, Hl. cbn. congruence.
  - rewrite list_lookup_alter_eq, Hl. reflexivity.
Qed.

Lemma removeEffect_engine_effects effectId h :
  allocated h ->
  engineConfig (removeEffect effectId h) = engineConfig h /\
  effectsAt (removeEffect effectId h) (current h)
  = List.filter (fun c => negb (String.eqb (Types.id c) effectId))
      (effectsAt h (current h)) /\
  (current h <> engineConfig h ->
   detached (removeEffect effectId h) /\
   effectsAt (removeEffect effectId h) (engineConfig h)
   = effectsAt h (engineConfig h)).
Proof.
  intros Hal. pose proof Hal as (Hc & He & Hall).
  destruct (allocated_lookup h (engineConfig h) Hal He) as (array' & Ha' & Hlt').
  unfold effectsAt, detached. cbn. split; [reflexivity|]. split.
  - rewrite list_lookup_insert_eq by exact Hc. cbn.
    rewrite list_lookup_middle by reflexivity. reflexivity.
  - intros Hne. rewrite list_lookup_insert_eq by exact Hc.
    rewrite list_lookup_insert_ne by exact Hne. rewrite Ha'. cbn.
    rewrite lookup_app_l by exact Hlt'. split; [|reflexivity].
    intros [= E]. lia.
Qed.

Lemma detached_distinct h : detached h -> current h <> engineConfig h.
Proof. unfold detached. intros H E. apply H. now rewrite E. Qed.

(** Once the two objects hold different arrays, nothing the hook does
    reaches the engine's. *)
Lemma later_stale h h' :
  allocated h -> detached h -> Later h h' ->
  allocated h' /\ detached h' /\ engineConfig h' = engineConfig h /\
  effectsAt h' (engineConfig h') = effectsAt h (engineConfig h).
Proof.
  intros Hal Hd. induction 1 as [|newEffects h' _ IH|effect h' h'' _ IH Hadd
                                 |effectId h' _ IH|audioData h' h'' _ IH Hup].
  - auto.
  - destruct IH as (Hal' & Hd' & Ee & Ev).
    destruct (updateConfig_engine_effects newEffects h' Hal') as (E1 & E2 & E3).
    split; [now apply allocated_updateConfig|]. split; [auto|].
    split; [congruence|]. rewrite E1, E2. exact Ev.
  - destruct IH as (Hal' & Hd' & Ee & Ev).
    destruct (addEffect_engine_effects effect h' h'' Hal' Hadd)
      as (E1 & E2 & _ & _).
    destruct (E2 Hd') as [Hd'' E3].
    split; [eapply allocated_addEffect; eassumption|]. split; [exact Hd''|].
    split; [congruence|]. rewrite E1, E3. exact Ev.
  - destruct IH as (Hal' & Hd' & Ee & Ev).
    destruct (removeEffect_engine_effects effectId h' Hal') as (E1 & _ & E3).
    destruct (E3 (detached_distinct _ Hd')) as [Hd'' E4].
    split; [now apply allocated_removeEffect|]. split; [exact Hd''|].
    split; [congruence|]. rewrite E1, E4. exact Ev.
  - destruct IH as (Hal' & Hd' & Ee & Ev).
    destruct (updateAudioData_store _ _ _ Hup) as (E1 & E2 & E3 & E4).
    split; [eapply allocated_updateAudioData; eassumption|].
    unfold detached, effectsAt in *. rewrite E1, E2, E3, E4. auto.
Qed.

(** *** Removing a marble effect *)

Lemma find_fresh (effects : list Types.AnimationEffect) effectId :
  (forall c, c ∈ effects -> Types.id c <> effectId) ->
  find (fun c => String.eqb (Types.id c) effectId) effects = None.
Proof.
  induction effects as [|c effects IH]; intros H; [reflexivity|]. cbn.
  destruct (String.eqb_spec (Types.id c) effectId) as [E|_].
  - exfalso. apply (H c); [left | exact E].
  - apply IH. intros c' Hc'. apply H. now right.
Qed.

Lemma find_last (effects : list Types.AnimationEffect) effect :
  (forall c, c ∈ effects -> Types.id c <> Types.id effect) ->
  find (fun c => String.eqb (Types.id c) (Types.id effect)) (effects ++ [effect])
  = Some effect.
Proof.
  induction effects as [|c effects IH]; intros H; cbn.
  - now rewrite String.eqb_refl.
  - destruct (String.eqb_spec (Types.id c) (Types.id effect)) as [E|_].
    + exfalso. apply (H c); [left | exact E].
    + apply IH. intros c' Hc'. apply H. now right.
Qed.

(** What the engine's [removeEffect] does to the marbles, by what it finds
    in its configuration. *)
Lemma removeEffect_marbles effectId e :
  AnimationEngine.marblePhysics (AnimationEngine.removeEffect effectId e)
  = match find (fun c => String.eqb (Types.id c) effectId)
            (AnimationEngine.configEffects e) with
    | Some c =>
        if String.eqb (Types.type c) "marble"
        then MarblePhysics.clearMarbles <$> AnimationEngine.marblePhysics e
        else AnimationEngine.marblePhysics e
    | None => AnimationEngine.marblePhysics e
    end.
Proof.
  unfold AnimationEngine.removeEffect.
  set (e1 := match AnimationEngine.Map_get effectId (AnimationEngine.effects e) with
             | Some _ => _
             | None => e
             end).
  assert (E1 : AnimationEngine.configEffects e1 = AnimationEngine.configEffects e /\
               AnimationEngine.marblePhysics e1 = AnimationEngine.marblePhysics e)
    by (unfold e1; destruct (AnimationEngine.Map_get _ _); split; reflexivity).
  destruct E1 as [Ec Ep]. rewrite Ec, <- Ep.
  destruct (find _ _) as [c|]; [|reflexivity].
  destruct (String.eqb _ _); [|reflexivity].
  destruct (AnimationEngine.marblePhysics e1) eqn:E; [reflexivity|].
  cbn. exact E.
Qed.

Lemma addEffect_marble effect h h' :
  Types.type effect = "marble"%string -> addEffect effect h = Some h' ->
  engine h' = theEngine h /\ current h' = current h.
Proof.
  intros Ht. unfold useAnimationEngine.addEffect, AnimationEngine.addEffect.
  rewrite Ht. cbn [String.eqb Ascii.eqb Bool.eqb andb].
  now intros [= <-].
Qed.

(** X26.  In every state the hook reaches, as long as it holds the
    configuration object it gave to the engine, the engine's
    [config.effects] follows the hook's:
    [addEffect] appends to it, [removeEffect] filters it, and removing a
    marble effect that was added under a new id clears the marbles. *)
Theorem shared_config h :
  Reachable h -> current h = engineConfig h ->
  (forall effect h',
     addEffect effect h = Some h' ->
     current h' = engineConfig h' /\
     effectsAt h' (engineConfig h') = effectsAt h (engineConfig h) ++ [effect]) /\
  (forall effectId,
     current (removeEffect effectId h) = engineConfig (removeEffect effectId h) /\
     effectsAt (removeEffect effectId h) (engineConfig h)
     = List.filter (fun c => negb (String.eqb (Types.id c) effectId))
         (effectsAt h (engineConfig h))) /\
  (forall effect h',
     Types.type effect = "marble"%string ->
     (forall c, c ∈ effectsAt h (engineConfig h) -> Types.id c <> Types.id effect) ->
     addEffect effect h = Some h' ->
     AnimationEngine.marblePhysics (engine (removeEffect (Types.id effect) h'))
     = MarblePhysics.clearMarbles <$> AnimationEngine.marblePhysics (engine h')).
Proof.
  intros Hreach Hsame. pose proof (reachable_allocated h Hreach) as Hal.
  split; [|split].
  - intros effect h' Hadd.
    destruct (addEffect_engine_effects effect h h' Hal Hadd) as (E1 & _ & _ & E4).
    assert (Hc : current h' = current h).
    { revert Hadd. unfold useAnimationEngine.addEffect.
      destruct (AnimationEngine.addEffect _ _ _ _ _ _); [|discriminate].
      now intros [= <-]. }
    split; [congruence|]. rewrite E1, <- Hsame. rewrite Hc in E4. exact E4.
  - intros effectId.
    destruct (removeEffect_engine_effects effectId h Hal) as (E1 & E2 & _).
    split; [cbn; exact Hsame|]. rewrite <- Hsame. exact E2.
  - intros effect h' Ht Hfresh Hadd.
    destruct (addEffect_engine_effects effect h h' Hal Hadd) as (E1 & _ & _ & E4).
    destruct (addEffect_marble effect h h' Ht Hadd) as [Ee Hc].
    cbn [removeEffect engine]. rewrite removeEffect_marbles.
    cbn [theEngine AnimationEngine.configEffects AnimationEngine.marblePhysics].
    rewrite E1, <- Hsame, <- Hc, E4, Hsame.
    rewrite (find_last _ _ Hfresh), Ht. reflexivity.
Qed.

(** X27.  In every state the hook reaches, once [updateConfig] has
    replaced the hook's configuration object, the first [removeEffect]
    leaves the engine with the old array for good: whatever the hook does
    later, the engine's [config.effects] is what it was before that call,
    the removed effect included; and a marble effect added later under a
    new id is not found there, so removing it leaves the marbles. *)
Theorem stale_config effectId h h' :
  Reachable h -> current h <> engineConfig h ->
  Later (removeEffect effectId h) h' ->
  detached h' /\
  effectsAt h' (engineConfig h') = effectsAt h (engineConfig h) /\
  (forall effect h'',
     Types.type effect = "marble"%string ->
     (forall c, c ∈ effectsAt h (engineConfig h) -> Types.id c <> Types.id effect) ->
     addEffect effect h' = Some h'' ->
     AnimationEngine.marblePhysics (engine (removeEffect (Types.id effect) h''))
     = AnimationEngine.marblePhysics (engine h'')).
Proof.
  intros Hreach Hne Hlater. pose proof (reachable_allocated h Hreach) as Hal.
  destruct (removeEffect_engine_effects effectId h Hal) as (E1 & _ & E3).
  destruct (E3 Hne) as [Hd E4].
  destruct (later_stale _ _ (allocated_removeEffect effectId h Hal) Hd Hlater)
    as (Hal' & Hd' & _ & Ev).
  split; [exact Hd'|]. split; [rewrite Ev, E1; exact E4|].
  intros effect h'' Ht Hfresh Hadd.
  destruct (addEffect_engine_effects effect h' h'' Hal' Hadd) as (F1 & F2 & _).
  destruct (F2 Hd') as [_ F3].
  cbn [removeEffect engine]. rewrite removeEffect_marbles.
  cbn [theEngine AnimationEngine.configEffects AnimationEngine.marblePhysics].
  rewrite F1, F3, Ev, E1, E4. now rewrite (find_fresh _ _ Hfresh).
Qed.

End WithPlatform.

End HookFacts.


(** ** The further properties at concrete inputs *)

Module MoreChecks.

Import Examples.
Local Open Scope float_scope.

(** X1 and X2 at a marble at rest at height 10 and a marble just above
    the floor, which is retired in the step. *)
Lemma update_trail_witness :
  MarblePhysics.inv (stateWith [dropped; sinking]) /\
  (length (MarblePhysics.trailPoints (stateWith [dropped; sinking])) <= 100)%nat /\
  length (MarblePhysics.marbles
            (MarblePhysics.update half ticks 0.1 None
               (stateWith [dropped; sinking]))) = 1%nat /\
  exists fates,
    Forall2 (MarblePhysics.roundOf 0.1 None) [dropped; sinking] fates /\
    MarblePhysics.marbles
      (MarblePhysics.update half ticks 0.1 None (stateWith [dropped; sinking]))
    = List.filter MarblePhysics.stays fates /\
    MarblePhysics.trailPoints
      (MarblePhysics.update half ticks 0.1 None (stateWith [dropped; sinking]))
    = MarblePhysics.keepLast 100
        ([] ++ map MarblePhysics.position (rev fates)) /\
    length (MarblePhysics.trailPoints
              (MarblePhysics.update half ticks 0.1 None
                 (stateWith [dropped; sinking]))) = 2%nat.
Proof.
  assert (H : MarblePhysics.inv (stateWith [dropped; sinking]))
    by (split; [reflexivity | repeat constructor]).
  split; [exact H|]. split; [cbn; lia|]. split; [vm_compute; reflexivity|].
  exact (MarbleRounds.update_trail half ticks 0.1 None
           (stateWith [dropped; sinking]) H ltac:(cbn; lia)).
Defined.

Lemma update_own_meshes_witness :
  MarblePhysics.inv (stateWith [dropped; sinking]) /\
  MarblePhysics.aligned (stateWith [dropped; sinking]) /\
  length (MarblePhysics.marbleMeshes
            (MarblePhysics.update half ticks 0.1 None
               (stateWith [dropped; sinking]))) = 1%nat /\
  exists fates,
    Forall2 (MarblePhysics.roundOf 0.1 None) [dropped; sinking] fates /\
    MarblePhysics.marbles
      (MarblePhysics.update half ticks 0.1 None (stateWith [dropped; sinking]))
    = List.filter MarblePhysics.stays fates /\
    MarblePhysics.marbleMeshes
      (MarblePhysics.update half ticks 0.1 None (stateWith [dropped; sinking]))
    = MarblePhysics.ownMeshes 0.1 fates
        (MarblePhysics.marbleMeshes (stateWith [dropped; sinking])) /\
    MarblePhysics.aligned
      (MarblePhysics.update half ticks 0.1 None (stateWith [dropped; sinking])) /\
    MarblePhysics.meshesFollow
      (MarblePhysics.update half ticks 0.1 None (stateWith [dropped; sinking])).
Proof.
  assert (H : MarblePhysics.inv (stateWith [dropped; sinking]))
    by (split; [reflexivity | repeat constructor]).
  split; [exact H|]. split; [reflexivity|]. split; [vm_compute; reflexivity|].
  exact (MarbleRounds.update_own_meshes half ticks 0.1 None
           (stateWith [dropped; sinking]) H eq_refl).
Defined.

Lemma update_notes_witness :
  MarblePhysics.inv (stateWith [striker]) /\
  exists notes bursts,
    MarblePhysics.synthCalls
      (MarblePhysics.update half ticks 0.1 None (stateWith [striker]))
    = MarblePhysics.synthCalls (stateWith [striker]) ++ notes /\
    MarblePhysics.hitEffects
      (MarblePhysics.update half ticks 0.1 None (stateWith [striker]))
    = MarblePhysics.hitEffects (stateWith [striker]) ++ bursts /\
    length notes = length bursts /\
    (length notes <= length (MarblePhysics.marbles (stateWith [striker])))%nat /\
    Forall MarblePhysics.noteOk notes /\
    Forall (fun b => length b = 60%nat) bursts.
Proof.
  split; [apply Checks.inv_stateWith_one; split; reflexivity|].
  apply (MarbleRounds.update_notes half ticks 0.1 None (stateWith [striker])).
  apply Checks.inv_stateWith_one; split; reflexivity.
Defined.

Lemma reachable_state_witness :
  MarblePhysics.Reachable half ticks
    (MarblePhysics.update half ticks 0.1 None
       (MarblePhysics.createTestMarble half MarblePhysics.new)) /\
  MarblePhysics.wellFormed
    (MarblePhysics.update half ticks 0.1 None
       (MarblePhysics.createTestMarble half MarblePhysics.new)).
Proof.
  assert (H : MarblePhysics.Reachable half ticks
                (MarblePhysics.update half ticks 0.1 None
                   (MarblePhysics.createTestMarble half MarblePhysics.new)))
    by (apply MarblePhysics.reach_update, MarblePhysics.reach_createTestMarble,
          MarblePhysics.reach_new).
  split; [exact H|].
  exact (MarbleRounds.reachable_state half ticks _ H).
Defined.

Lemma reachable_analyzer_witness :
  AudioAnalyzer.Reachable (fst (AudioAnalyzer.play false [] [] 1 loaded)) /\
  AudioAnalyzer.wellFormed (fst (AudioAnalyzer.play false [] [] 1 loaded)).
Proof.
  assert (H : AudioAnalyzer.Reachable (fst (AudioAnalyzer.play false [] [] 1 loaded)))
    by (apply AudioAnalyzer.reach_play, AudioAnalyzer.reach_loadAudioFile,
          AudioAnalyzer.reach_new).
  split; [exact H|].
  exact (AnalyzerLife.reachable_analyzer _ H).
Defined.

Lemma reachable_feature_vector_witness :
  AudioAnalyzer.Reachable loaded /\
  length (Types.frequencyData (AudioAnalyzer.getAudioData loaded)) = 1024%nat /\
  (Types.volume (AudioAnalyzer.getAudioData loaded) <? 0) = false.
Proof.
  assert (H : AudioAnalyzer.Reachable loaded)
    by (apply AudioAnalyzer.reach_loadAudioFile, AudioAnalyzer.reach_new).
  split; [exact H|].
  destruct (AnalyzerLife.reachable_feature_vector loaded H)
    as (_ & _ & _ & _ & _ & Hv).
  split; [reflexivity | exact Hv].
Defined.

Lemma loadAudioFile_outcome_witness :
  AudioAnalyzer.loadAudioFile AudioAnalyzer.Initialised (Some 180)
    (AudioAnalyzer.new AudioAnalyzer.Initialised) = (loaded, true) /\
  exists duration,
    Some 180 = Some duration /\ AudioAnalyzer.getDuration loaded = duration /\
    AudioAnalyzer.isAudioPlaying loaded = false /\
    AudioAnalyzer.animationId loaded = None /\
    AudioAnalyzer.audioContext loaded = true /\
    is_Some (AudioAnalyzer.gainNode loaded).
Proof.
  split; [reflexivity|].
  apply (AnalyzerLife.loadAudioFile_outcome AudioAnalyzer.Initialised (Some 180)
           (AudioAnalyzer.new AudioAnalyzer.Initialised) loaded true eq_refl).
  reflexivity.
Defined.

(** X14 at a new analyzer: the volume 0.7 is stored as the binary32 number
    11744051 * 2^-24, which is 0.699999988...; 7 is stored as 1; NaN is
    refused. *)
Lemma setVolume_gain_witness :
  is_Some (AudioAnalyzer.gainNode (AudioAnalyzer.new AudioAnalyzer.Initialised)) /\
  AudioAnalyzer.gainNode
    (fst (AudioAnalyzer.setVolume 0.7
            (AudioAnalyzer.new AudioAnalyzer.Initialised)))
  = Some (S754_finite false 11744051 (-24)) /\
  AudioAnalyzer.gainNode
    (fst (AudioAnalyzer.setVolume 7 (AudioAnalyzer.new AudioAnalyzer.Initialised)))
  = Some JS.one32 /\
  AudioAnalyzer.setVolume nan (AudioAnalyzer.new AudioAnalyzer.Initialised)
  = (AudioAnalyzer.new AudioAnalyzer.Initialised, false).
Proof.
  assert (H : is_Some (AudioAnalyzer.gainNode
                         (AudioAnalyzer.new AudioAnalyzer.Initialised)))
    by (eexists; reflexivity).
  split; [exact H|]. split; [|split].
  - destruct (AnalyzerLife.setVolume_gain 0.7 _ H) as (_ & E & Hin & _).
    destruct (E ltac:(discriminate)) as (gain & Eg & _ & ->).
    rewrite (Hin eq_refl eq_refl) in Eg. cbn [fst AudioAnalyzer.gainNode].
    rewrite <- Eg. vm_compute. reflexivity.
  - destruct (AnalyzerLife.setVolume_gain 7 _ H)
      as (_ & E & _ & Habove & _ & _ & E1).
    destruct (E ltac:(discriminate)) as (gain & Eg & _ & ->).
    rewrite (Habove eq_refl), E1 in Eg. cbn [fst AudioAnalyzer.gainNode].
    now rewrite <- Eg.
  - exact (proj1 (AnalyzerLife.setVolume_gain nan _ H) eq_refl).
Defined.

(** X15 after [setVolume(0.7)], and after [setVolume(NaN)] on top of it:
    [getVolume] then returns NaN, and the gain is still the binary32
    number nearest to 0.7. *)
Lemma reachable_synth_volume_witness :
  XylophoneSynth.Reachable
    (fst (XylophoneSynth.setVolume 0.7
            (XylophoneSynth.new XylophoneSynth.Initialised))) /\
  JS.to_float
    (XylophoneSynth.getVolume
       (fst (XylophoneSynth.setVolume 0.7
               (XylophoneSynth.new XylophoneSynth.Initialised))))
  = Some (S754_finite false 11744051 (-24)) /\
  XylophoneSynth.gainNode
    (fst (XylophoneSynth.setVolume 0.7
            (XylophoneSynth.new XylophoneSynth.Initialised)))
  = Some (S754_finite false 11744051 (-24)) /\
  XylophoneSynth.getVolume
    (fst (XylophoneSynth.setVolume nan
            (fst (XylophoneSynth.setVolume 0.7
                    (XylophoneSynth.new XylophoneSynth.Initialised)))))
  = nan /\
  XylophoneSynth.gainNode
    (fst (XylophoneSynth.setVolume nan
            (fst (XylophoneSynth.setVolume 0.7
                    (XylophoneSynth.new XylophoneSynth.Initialised)))))
  = Some (S754_finite false 11744051 (-24)).
Proof.
  assert (H : XylophoneSynth.Reachable
                (fst (XylophoneSynth.setVolume 0.7
                        (XylophoneSynth.new XylophoneSynth.Initialised))))
    by (apply XylophoneSynth.reach_setVolume, XylophoneSynth.reach_new).
  split; [exact H|].
  destruct (SynthFacts.reachable_synth_volume _ H) as (_ & Hg & Hv & Hs & _).
  split; [vm_compute; reflexivity|].
  assert (E : XylophoneSynth.gainNode
                (fst (XylophoneSynth.setVolume 0.7
                        (XylophoneSynth.new XylophoneSynth.Initialised)))
              = Some (S754_finite false 11744051 (-24))).
  { destruct (XylophoneSynth.gainNode _) as [g|] eqn:Eg;
      [|vm_compute in Eg; discriminate Eg].
    destruct (Hg g eq_refl) as [_ [E|E]].
    - rewrite <- E. vm_compute. reflexivity.
    - vm_compute in E. discriminate E. }
  split; [exact E|]. split; [exact Hv|]. rewrite Hs. exact E.
Defined.

(** X17 for two notes on a new synthesizer, and for the same two notes
    after a first one on a synthesizer whose constructor found no audio
    context. *)
Lemma playAll_sounds_witness :
  XylophoneSynth.ready (XylophoneSynth.new XylophoneSynth.Initialised) = true /\
  XylophoneSynth.sounds
    (XylophoneSynth.playAll XylophoneSynth.ContextFails
       [(349.23, 0.35); (261.63, 1)]
       (XylophoneSynth.new XylophoneSynth.Initialised))
  = [(349.23, 0.35); (261.63, 1)] /\
  XylophoneSynth.ready (XylophoneSynth.new XylophoneSynth.ContextFails) = false /\
  XylophoneSynth.sounds
    (fst (XylophoneSynth.afterInit false 440 0.5
            (XylophoneSynth.playAll XylophoneSynth.Initialised
               [(349.23, 0.35); (261.63, 1)]
               (fst (XylophoneSynth.playNote XylophoneSynth.Initialised false
                       440 0.5
                       (XylophoneSynth.new XylophoneSynth.ContextFails))))))
  = [(349.23, 0.35); (261.63, 1); (440, 0.5)].
Proof.
  split; [reflexivity|]. split; [|split; [reflexivity|]].
  - apply (proj1 (SynthFacts.playAll_sounds XylophoneSynth.ContextFails
                    (440, 0.5) [(349.23, 0.35); (261.63, 1)]
                    (XylophoneSynth.new XylophoneSynth.Initialised))).
    reflexivity.
  - apply (proj2 (SynthFacts.playAll_sounds XylophoneSynth.Initialised
                    (440, 0.5) [(349.23, 0.35); (261.63, 1)]
                    (XylophoneSynth.new XylophoneSynth.ContextFails))
             eq_refl eq_refl).
Defined.

Lemma startRecording_failure_witness :
  VideoExporter.startRecording VideoExporter.StartFails VideoExporter.new
  = (VideoExporter.mk (Some VideoExporter.inactive) [] true, false) /\
  VideoExporter.stopRecording chunks
    (VideoExporter.mk (Some VideoExporter.inactive) [] true)
  = (VideoExporter.mk (Some VideoExporter.inactive) [] true, None).
Proof.
  split; [reflexivity|].
  destruct (ExporterFacts.startRecording_failure VideoExporter.StartFails chunks
              VideoExporter.new
              (VideoExporter.mk (Some VideoExporter.inactive) [] true) eq_refl)
    as [[[H|H] _]|(_ & _ & _ & H)]; [discriminate H | discriminate H | exact H].
Defined.

Lemma updateAudioData_shapes_witness :
  AnimationEngine.updateAudioData half ticks half crest loudFrame engineWithWave
  = Some (default engineWithWave
            (AnimationEngine.updateAudioData half ticks half crest loudFrame
               engineWithWave)) /\
  AnimationEngine.shapes
    (AnimationEngine.effects
       (default engineWithWave
          (AnimationEngine.updateAudioData half ticks half crest loudFrame
             engineWithWave)))
  = [("wave"%string, (true, 6%nat, None))] /\
  AnimationEngine.effects
    (default engineWithWave
       (AnimationEngine.updateAudioData half ticks half crest loudFrame
          engineWithWave))
  <> AnimationEngine.effects engineWithWave.
Proof.
  split; [vm_compute; reflexivity|]. split.
  - apply (EngineFacts.updateAudioData_shapes half ticks half crest loudFrame
             engineWithWave).
    vm_compute. reflexivity.
  - vm_compute. discriminate.
Defined.

Lemma selector_effects_in_engine_witness :
  EffectSelector.Offered offeredWave /\
  AnimationEngine.effects <$>
    AnimationEngine.updateAudioData half ticks half crest loudFrame
      engineWithOffered
  = Some (AnimationEngine.effects engineWithOffered) /\
  forall id,
    AnimationEngine.marblePhysics (AnimationEngine.removeEffect id engineWithOffered)
    = AnimationEngine.marblePhysics engineWithOffered.
Proof.
  assert (H : EffectSelector.Offered offeredWave).
  { apply EffectSelector.offered_add; [apply EffectSelector.offered_nil|].
    apply list_elem_of_here. }
  split; [exact H|].
  destruct (EngineFacts.selector_effects_in_engine half ticks half crest
              offeredWave engineWithOffered loudFrame H) as (_ & H1 & H2).
  split.
  - apply H1. constructor; [|constructor]. eexists. split; [left | reflexivity].
  - apply H2. constructor; [left | constructor].
Defined.

Lemma loud_frames_spawn_witness :
  AnimationEngine.effects (AnimationEngine.new []) = [] /\
  AnimationEngine.marblePhysics (AnimationEngine.new []) = Some MarblePhysics.new /\
  exists e' p',
    AnimationEngine.updateAudioDataAll half ticks half crest
      [loudFrame; quietFrame; loudFrame] (AnimationEngine.new []) = Some e' /\
    AnimationEngine.marblePhysics e' = Some p' /\
    length (MarblePhysics.marbles p') = 2%nat /\
    length (MarblePhysics.marbleMeshes p') = 2%nat.
Proof.
  split; [reflexivity|]. split; [reflexivity|].
  apply (EngineFacts.loud_frames_spawn half ticks half crest
           [loudFrame; quietFrame; loudFrame] (AnimationEngine.new [])
           MarblePhysics.new eq_refl eq_refl).
Defined.

Lemma reachable_engine_witness :
  AnimationEngine.Reachable half ticks half ticks crest twoVertices
    (fun _ => []) (fun _ => []) engineWithWave /\
  AnimationEngine.Map_get "wave"
    (AnimationEngine.effects (AnimationEngine.removeEffect "wave" engineWithWave))
  = None.
Proof.
  assert (H : AnimationEngine.Reachable half ticks half ticks crest twoVertices
                (fun _ => []) (fun _ => []) engineWithWave)
    by (apply (AnimationEngine.reach_addEffect half ticks half ticks crest
                 twoVertices (fun _ => []) (fun _ => []) waveNamed
                 (AnimationEngine.new []) engineWithWave
                 (AnimationEngine.reach_new _ _ _ _ _ _ _ _ []) eq_refl)).
  split; [exact H|].
  exact (proj1 (proj2 (proj2 (EngineFacts.reachable_engine half ticks half ticks
                                crest twoVertices (fun _ => []) (fun _ => [])
                                engineWithWave "wave" H)))).
Defined.

Lemma shared_config_witness :
  useAnimationEngine.Reachable half twoVertices (fun _ => []) (fun _ => [])
    ticks half crest useAnimationEngine.mounted /\
  useAnimationEngine.current useAnimationEngine.mounted
  = useAnimationEngine.engineConfig useAnimationEngine.mounted /\
  exists h',
    useAnimationEngine.addEffect half twoVertices (fun _ => []) (fun _ => [])
      marbleEffect useAnimationEngine.mounted = Some h' /\
    useAnimationEngine.effectsAt h' (useAnimationEngine.engineConfig h')
    = [marbleEffect].
Proof.
  assert (H : useAnimationEngine.Reachable half twoVertices (fun _ => [])
                (fun _ => []) ticks half crest useAnimationEngine.mounted)
    by apply useAnimationEngine.reach_mounted.
  split; [exact H|]. split; [reflexivity|].
  eexists. split; [reflexivity|].
  exact (proj2 (proj1 (HookFacts.shared_config half twoVertices (fun _ => [])
                         (fun _ => []) ticks half crest
                         useAnimationEngine.mounted H eq_refl)
                  marbleEffect _ eq_refl)).
Defined.

(** X27 at the hook that holds the selector's wave effect, was rendered
    again, and has one marble falling.  The wave effect is removed: the
    hook's list is empty, the engine still lists the wave effect.  Then
    the marble effect is added and removed: the marble keeps falling. *)
Lemma stale_config_witness :
  useAnimationEngine.Reachable half twoVertices (fun _ => []) (fun _ => [])
    ticks half crest playing /\
  useAnimationEngine.current playing <> useAnimationEngine.engineConfig playing /\
  useAnimationEngine.effectsAt
    (useAnimationEngine.removeEffect (Types.id waveEffect) playing)
    (useAnimationEngine.current playing) = [] /\
  useAnimationEngine.effectsAt
    (useAnimationEngine.removeEffect (Types.id waveEffect) playing)
    (useAnimationEngine.engineConfig playing) = [waveEffect] /\
  exists h'',
    useAnimationEngine.addEffect half twoVertices (fun _ => []) (fun _ => [])
      marbleEffect
      (useAnimationEngine.removeEffect (Types.id waveEffect) playing)
    = Some h'' /\
    (length <$> (MarblePhysics.marbles
                 <$> AnimationEngine.marblePhysics
                       (useAnimationEngine.engine
                          (useAnimationEngine.removeEffect
                             (Types.id marbleEffect) h''))))
    = Some 1%nat.
Proof.
  assert (H : useAnimationEngine.Reachable half twoVertices (fun _ => [])
                (fun _ => []) ticks half crest playing).
  { apply (useAnimationEngine.reach_updateAudioData _ _ _ _ _ _ _ loudFrame
             (useAnimationEngine.updateConfig None hookWithWave) playing);
      [|vm_compute; reflexivity].
    apply useAnimationEngine.reach_updateConfig.
    apply (useAnimationEngine.reach_addEffect _ _ _ _ _ _ _ waveEffect
             useAnimationEngine.mounted hookWithWave);
      [apply useAnimationEngine.reach_mounted | vm_compute; reflexivity]. }
  assert (Hne : useAnimationEngine.current playing
                <> useAnimationEngine.engineConfig playing)
    by (cbn; lia).
  split; [exact H|]. split; [exact Hne|]. split; [reflexivity|].
  destruct (HookFacts.stale_config half twoVertices (fun _ => []) (fun _ => [])
              ticks half crest
              (Types.id waveEffect) playing
              (useAnimationEngine.removeEffect (Types.id waveEffect) playing)
              H Hne (useAnimationEngine.later_now _ _ _ _ _ _ _ _))
    as (_ & He & Hkeep).
  split; [exact He|].
  eexists. split; [reflexivity|].
  rewrite (Hkeep marbleEffect _ eq_refl); [reflexivity | | reflexivity].
  intros c Hc. apply list_elem_of_singleton in Hc. subst c. discriminate.
Defined.

End MoreChecks.
